(** * Scani product service: a shallow embedding and its verified properties

    The development follows [src/services/productService.ts]: the storage
    adapter, the product cache, the product API client, the barcode lookup,
    the operation queue and its processor.  An older copy of the same
    service (the second document of [unnamed/part_003]) differs in
    [processOperation] and [processBarcodeScan]; its [processOperation] is
    embedded in [Module Part003] for comparison.

    Conventions of the embedding:
    - asynchronous functions are state-passing computations in the monad
      [M]; [await] is sequencing, a [throw] is the [Throw] result, and
      [try]/[catch]/[finally] are the combinators [try_catch] and
      [try_finally];
    - a promise that is started and not awaited is recorded in the
      [background] list of the world, after the synchronous prefix of the
      callee has run;
    - JavaScript numbers are integers ([Z]) where the code counts or compares
      timestamps, and rationals ([Q]) where it multiplies by fractions;
      IEEE rounding is not modelled;
    - [JSON.parse] and [JSON.stringify] are an interface ([Class JSON]) with
      the round-trip law; [ReferenceJSON] is an instance;
    - console output ([ProductDebug], [logError], [console.warn]) has no
      effect on the state and is left out. *)

From stdpp Require Import gmap strings list fin_maps sorting pretty.
From Stdlib Require Import Ascii QArith Qminmax Qround Qpower Lqa.

Local Open Scope string_scope.
Local Open Scope Z_scope.

(** ** JavaScript strings *)

Module Js.

  (** [if (s)] on a possibly undefined string: the empty string is falsy. *)
Definition truthy (s : option string) : bool :=
    match s with
    | Some s => negb (String.eqb s "")
    | None => false
    end.

  (** [a || b] on possibly undefined strings. *)
Definition or_else (a b : option string) : option string :=
    if truthy a then a else b.

Definition upper_ascii (c : Ascii.ascii) : Ascii.ascii :=
    let n := Ascii.nat_of_ascii c in
    if (97 <=? n)%nat && (n <=? 122)%nat then Ascii.ascii_of_nat (n - 32) else c.

  (** [s.toUpperCase()], on the ASCII letters. *)
Fixpoint toUpperCase (s : string) : string :=
    match s with
    | EmptyString => EmptyString
    | String c s' => String (upper_ascii c) (toUpperCase s')
    end.

  (** [s.includes(sub)]. *)
Fixpoint includes (s sub : string) : bool :=
    String.prefix sub s ||
    match s with
    | EmptyString => false
    | String _ s' => includes s' sub
    end.

  (** [s.startsWith(p)]. *)
Definition startsWith (s p : string) : bool := String.prefix p s.

End Js.

(** ** The Open Food Facts payload *)

(** [nutriments] of the API payload. *)
Record Nutriments := {
  energy_kcal_100g : option Q;
  fat_100g : option Q;
  saturated_fat_100g : option Q;
  carbohydrates_100g : option Q;
  sugars_100g : option Q;
  fiber_100g : option Q;
  proteins_100g : option Q;
  salt_100g : option Q
}.

(** The [product] member of [OpenFoodFactsProduct]. *)
Record OffProduct := {
  product_name : option string;
  brands : option string;
  off_image_url : option string;
  image_front_url : option string;
  categories_tags : option (list string);
  labels_tags : option (list string);
  nutriscore_grade : option string;
  nova_group : option Z;
  ecoscore_grade : option string;
  nutriments : option Nutriments;
  allergens_tags : option (list string);
  ingredients_tags : option (list string)
}.

Record OpenFoodFactsProduct := {
  code : string;
  off_status : string;
  product : OffProduct;
  result_id : option string
}.

(** ** Health score *)

Definition clamp_0_100 (score : Z) : Z := Z.max 0 (Z.min 100 score).

(** [calculateHealthScore], statement by statement. *)
Definition calculateHealthScore (p : OpenFoodFactsProduct) : Z :=
  let score := 50 in
  let score :=
    if Js.truthy (nutriscore_grade (product p)) then
      let g := Js.toUpperCase (default "" (nutriscore_grade (product p))) in
      if String.eqb g "A" then score + 30
      else if String.eqb g "B" then score + 20
      else if String.eqb g "C" then score + 10
      else if String.eqb g "D" then score - 10
      else if String.eqb g "E" then score - 20
      else score
    else score in
  let score :=
    match nova_group (product p) with
    | Some 1 => score + 20
    | Some 2 => score + 10
    | Some 3 => score - 10
    | Some 4 => score - 20
    | _ => score
    end in
  let labels := default [] (labels_tags (product p)) in
  let score :=
    if existsb (fun label => Js.includes label "organic" || Js.includes label "bio") labels
    then score + 10 else score in
  clamp_0_100 score.

Definition calculateSafetyScore (p : OpenFoodFactsProduct) : Z :=
  calculateHealthScore p.

(** The scoring rule as the specification words it: two tables and a
    bonus, summed onto 50 and clamped.  A grade is looked up by its upper
    case letter. *)
Module HealthRule.

Definition nutrition_table : list (string * Z) :=
    [("A", 30); ("B", 20); ("C", 10); ("D", -10); ("E", -20)].

Definition processing_table : list (Z * Z) :=
    [(1, 20); (2, 10); (3, -10); (4, -20)].

Fixpoint lookup_grade (g : string) (t : list (string * Z)) : Z :=
    match t with
    | [] => 0
    | (k, v) :: t' => if String.eqb k g then v else lookup_grade g t'
    end.

Fixpoint lookup_level (n : Z) (t : list (Z * Z)) : Z :=
    match t with
    | [] => 0
    | (k, v) :: t' => if Z.eqb k n then v else lookup_level n t'
    end.

Definition nutrition_points (g : option string) : Z :=
    match g with
    | Some g => lookup_grade (Js.toUpperCase g) nutrition_table
    | None => 0
    end.

Definition processing_points (n : option Z) : Z :=
    match n with
    | Some n => lookup_level n processing_table
    | None => 0
    end.

Definition is_organic (label : string) : bool :=
    Js.includes label "organic" || Js.includes label "bio".

Definition organic_points (labels : option (list string)) : Z :=
    match labels with
    | Some l => if existsb is_organic l then 10 else 0
    | None => 0
    end.

Definition score (p : OpenFoodFactsProduct) : Z :=
    clamp_0_100 (50 + nutrition_points (nutriscore_grade (product p))
                    + processing_points (nova_group (product p))
                    + organic_points (labels_tags (product p))).

End HealthRule.

(** ** Backoff *)

Definition INITIAL_RETRY_DELAY : Q := 1000.
Definition MAX_RETRY_DELAY : Q := 60 * 60 * 1000.

(** [calculateBackoffDelay]; [random] is the value drawn by
    [Math.random()], in [0, 1). *)
Definition calculateBackoffDelay (retryCount : Z) (random : Q) : Q :=
  Qmin (INITIAL_RETRY_DELAY * Qpower 2 retryCount * (0.8 + random * 0.4))
       MAX_RETRY_DELAY.

(** The monotonicity property with growth factor [k]: the next delay is at
    least [k] times the current one, or the cap when that is smaller. *)
Definition backoff_grows_by (k : Q) : Prop :=
  forall (r : Z) (u u' : Q),
    0 <= r -> (0 <= u <= 1)%Q -> (0 <= u' <= 1)%Q ->
    (Qmin (k * calculateBackoffDelay r u) MAX_RETRY_DELAY
       <= calculateBackoffDelay (r + 1) u')%Q.

(** ** Errors *)

(** The error classes of the service, and the two built-in ones that its
    handlers tell apart.  Every class but [TypeError] and [PlainError]
    extends [ProductServiceError]. *)
Inductive ErrorClass :=
  | ProductServiceError
  | ProductNotFoundError
  | NetworkError
  | RateLimitError
  | DatabaseError
  | CacheError
  | ValidationError
  | AuthenticationError
  | StorageError
  | QueueError
  | TypeError
  | PlainError.

Record Error := mkError { err_class : ErrorClass; err_message : string }.

(** [e instanceof C]. *)
Definition instanceof (e : Error) (c : ErrorClass) : bool :=
  match c, err_class e with
  | ProductServiceError, (TypeError | PlainError) => false
  | ProductServiceError, _ => true
  | ProductNotFoundError, ProductNotFoundError => true
  | NetworkError, NetworkError => true
  | RateLimitError, RateLimitError => true
  | DatabaseError, DatabaseError => true
  | CacheError, CacheError => true
  | ValidationError, ValidationError => true
  | AuthenticationError, AuthenticationError => true
  | StorageError, StorageError => true
  | QueueError, QueueError => true
  | TypeError, TypeError => true
  | PlainError, _ => true
  | _, _ => false
  end.

(** ** Products, scans and queued operations *)

Record NutritionFacts := {
  calories : option Q;
  fat : option Q;
  saturatedFat : option Q;
  carbs : option Q;
  sugars : option Q;
  fiber : option Q;
  proteins : option Q;
  salt : option Q
}.

Module Product.
Record t := mk {
    id : string;
    barcode : string;
    name : string;
    brand : string;
    safety_score : Z;
    image_url : option string;
    nutriscoreGrade : option string;
    novaGroup : option Z;
    ecoscore : option string;
    nutritionFacts : option NutritionFacts;
    allergens : option (list string);
    ingredients : option (list string);
    labels : option (list string);
    categories : option (list string);
    tags : list string;
    created_at : option string
  }.
End Product.

Inductive ScanSource := SrcCache | SrcDatabase | SrcApi.

Module ScanHistory.
Record t := mk {
    id : string;
    product_id : string;
    user_id : string;
    scanned_at : option string;
    source : option ScanSource;
    synced : option bool
  }.
End ScanHistory.

(** [CachedProduct]: what [saveToCache] stores. *)
Record CachedProduct := mkCached {
  cached_product : Product.t;
  cached_timestamp : Z
}.

Inductive OperationType :=
  | SUBMIT_PRODUCT | UPDATE_PRODUCT | UPLOAD_IMAGE | RECORD_SCAN | CUSTOM.

Inductive OperationStatus :=
  | PENDING | IN_PROGRESS | COMPLETED | FAILED | RETRY.

(** [QueuedOperationData], as it survives [JSON.stringify]: the members
    that hold a function or a [File] ([process], [imageFile]) are dropped by
    the serialisation and never come back from storage.  The three payloads
    of the remote write calls are kept as opaque text. *)
Record QueuedOperationData := mkData {
  data_payload : option string;
  data_credentials : option string;
  data_productId : option string;
  data_userId : option string;
  data_source : option ScanSource;
  data_timestamp : option Z
}.

Module QueuedOperation.
Record t := mk {
    id : string;
    type : OperationType;
    data : QueuedOperationData;
    status : OperationStatus;
    retryCount : Z;
    maxRetries : Z;
    nextRetryTime : option Q;
    error : option string;
    createdAt : Z;
    updatedAt : Z
  }.
End QueuedOperation.

(** [Partial<QueuedOperation>] as [updateOperation] receives it.  For the two
    optional members, [Some None] is an explicit [undefined]. *)
Record OperationUpdates := mkUpdates {
  upd_status : option OperationStatus;
  upd_retryCount : option Z;
  upd_nextRetryTime : option (option Q);
  upd_error : option (option string)
}.

(** ** JSON *)

(** A parsed stored text, as far as the service looks into it: a cached
    product, the operation queue, or any other value, of which only a numeric
    [timestamp] member is ever read. *)
Inductive JsValue :=
  | VCachedProduct (c : CachedProduct)
  | VQueue (q : list QueuedOperation.t)
  | VOther (timestamp : option Z).

Class JSON := {
  JSON_stringify : JsValue -> string;
  (** [None] when [JSON.parse] throws. *)
  JSON_parse : string -> option JsValue;
  JSON_parse_stringify : forall v, JSON_parse (JSON_stringify v) = Some v;
  JSON_stringify_nonempty : forall v, JSON_stringify v <> "";
  (** the empty text is not JSON *)
  JSON_parse_empty : JSON_parse "" = None
}.

(** [parsed.timestamp], when it is a number. *)
Definition timestamp_of (v : JsValue) : option Z :=
  match v with
  | VCachedProduct c => Some (cached_timestamp c)
  | VQueue _ => None
  | VOther t => t
  end.

(** ** The host and the remote services *)

(** The body of an API answer, as [response.json()] yields it. *)
Record ApiData := mkApiData {
  api_code : string;
  api_status : string;
  api_result_id : option string;
  api_product : option OffProduct
}.

(** What [fetch] does with one request: it rejects (a [TypeError]), or it
    resolves to a response with a status, an optional [Retry-After] header
    and a body ([None] when [response.json()] rejects). *)
Inductive FetchResult :=
  | FetchRejected
  | FetchResponse (status : Z) (retryAfter : option string) (body : option ApiData).

(** The [{ data, error }] pair of a database call that expects one row. *)
Inductive DbReply (A : Type) :=
  | DbRow (row : A)
  | DbNoRows                      (* error.code === 'PGRST116' *)
  | DbFailure (message : string)  (* any other error *)
  | DbNull.                       (* neither data nor error *)
Arguments DbRow {A} row.
Arguments DbNoRows {A}.
Arguments DbFailure {A} message.
Arguments DbNull {A}.

(** The outcome of [submitNewProduct], [updateExistingProduct] or
    [uploadProductImage]. *)
Inductive RemoteReply :=
  | RemoteStatus (statusCode : Z) (message : string)
  | RemoteThrows (e : Error).

(** Which store the adapter finds: [localStorage], [global.AsyncStorage],
    or neither (the in-memory map). *)
Inductive Backend := LocalStorage | AsyncStorage | MemoryStorage.

(** The record handed to the [scans] table. *)
Record ScanData := mkScanData {
  scan_product_id : string;
  scan_user_id : string;
  scan_scanned_at : string;
  scan_source : ScanSource;
  scan_synced : bool
}.

(** The services outside the repository.  Each answer may depend on the
    number of external calls made before it. *)
Record Env := mkEnv {
  backend : Backend;
  (** [Math.random()] *)
  random : nat -> Q;
  (** [x.toString(36).substring(2, 9)] *)
  base36 : Q -> string;
  (** [new Date(ms).toISOString()] *)
  toISOString : Z -> string;
  (** [supabase.auth.getUser()]: the id of the signed-in user *)
  auth_getUser : nat -> option string;
  db_select_product : nat -> string -> DbReply Product.t;
  db_insert_scan : nat -> ScanData -> DbReply ScanHistory.t;
  remote_write : nat -> OperationType -> QueuedOperationData -> RemoteReply
}.

(** What the service does that an observer outside can see. *)
Inductive Event :=
  | EvFetch (url : string)
  | EvCacheRead (key : string)
  | EvCacheWrite (key : string)
  | EvDbSelectProduct (barcode : string)
  | EvDbInsertScan (d : ScanData)
  | EvAuthGetUser
  | EvRemoteWrite (type : OperationType)
  | EvSleep (ms : Z)
  | EvNotify (event : string) (operationId : string) (status : OperationStatus).

(** Promises started without [await]. *)
Inductive Task :=
  | TaskSaveProductToDatabase (barcode : string)
  | TaskCleanupCache
  | TaskProcessOperationQueue.

(** The delay of an armed [setTimeout]. *)
Inductive TimerDelay := Finite (ms : Q) | Infinite.

Record World := mkWorld {
  (** the key/value store behind the adapter *)
  storage : gmap string string;
  (** module-level variables *)
  lastApiCallTime : Z;
  isOnline : bool;
  networkListenersInitialized : bool;
  queueProcessorRunning : bool;
  queueProcessorTimeout : option TimerDelay;
  (** the host *)
  clock : Z;                     (* Date.now() *)
  navigator_onLine : bool;
  replies : list FetchResult;    (* what the product API answers next *)
  calls : nat;                   (* external calls made so far *)
  (** observations *)
  trace : list Event;            (* oldest first *)
  background : list Task
}.

Definition set_storage (f : gmap string string -> gmap string string) (w : World) : World :=
  mkWorld (f (storage w)) (lastApiCallTime w) (isOnline w) (networkListenersInitialized w)
    (queueProcessorRunning w) (queueProcessorTimeout w) (clock w) (navigator_onLine w)
    (replies w) (calls w) (trace w) (background w).

Definition set_lastApiCallTime (t : Z) (w : World) : World :=
  mkWorld (storage w) t (isOnline w) (networkListenersInitialized w)
    (queueProcessorRunning w) (queueProcessorTimeout w) (clock w) (navigator_onLine w)
    (replies w) (calls w) (trace w) (background w).

Definition set_isOnline (b : bool) (w : World) : World :=
  mkWorld (storage w) (lastApiCallTime w) b (networkListenersInitialized w)
    (queueProcessorRunning w) (queueProcessorTimeout w) (clock w) (navigator_onLine w)
    (replies w) (calls w) (trace w) (background w).

Definition set_networkListenersInitialized (b : bool) (w : World) : World :=
  mkWorld (storage w) (lastApiCallTime w) (isOnline w) b
    (queueProcessorRunning w) (queueProcessorTimeout w) (clock w) (navigator_onLine w)
    (replies w) (calls w) (trace w) (background w).

Definition set_queueProcessorRunning (b : bool) (w : World) : World :=
  mkWorld (storage w) (lastApiCallTime w) (isOnline w) (networkListenersInitialized w)
    b (queueProcessorTimeout w) (clock w) (navigator_onLine w)
    (replies w) (calls w) (trace w) (background w).

Definition set_queueProcessorTimeout (t : option TimerDelay) (w : World) : World :=
  mkWorld (storage w) (lastApiCallTime w) (isOnline w) (networkListenersInitialized w)
    (queueProcessorRunning w) t (clock w) (navigator_onLine w)
    (replies w) (calls w) (trace w) (background w).

Definition set_clock (t : Z) (w : World) : World :=
  mkWorld (storage w) (lastApiCallTime w) (isOnline w) (networkListenersInitialized w)
    (queueProcessorRunning w) (queueProcessorTimeout w) t (navigator_onLine w)
    (replies w) (calls w) (trace w) (background w).

Definition set_replies (l : list FetchResult) (w : World) : World :=
  mkWorld (storage w) (lastApiCallTime w) (isOnline w) (networkListenersInitialized w)
    (queueProcessorRunning w) (queueProcessorTimeout w) (clock w) (navigator_onLine w)
    l (calls w) (trace w) (background w).

Definition set_calls (n : nat) (w : World) : World :=
  mkWorld (storage w) (lastApiCallTime w) (isOnline w) (networkListenersInitialized w)
    (queueProcessorRunning w) (queueProcessorTimeout w) (clock w) (navigator_onLine w)
    (replies w) n (trace w) (background w).

Definition set_trace (t : list Event) (w : World) : World :=
  mkWorld (storage w) (lastApiCallTime w) (isOnline w) (networkListenersInitialized w)
    (queueProcessorRunning w) (queueProcessorTimeout w) (clock w) (navigator_onLine w)
    (replies w) (calls w) t (background w).

Definition set_background (l : list Task) (w : World) : World :=
  mkWorld (storage w) (lastApiCallTime w) (isOnline w) (networkListenersInitialized w)
    (queueProcessorRunning w) (queueProcessorTimeout w) (clock w) (navigator_onLine w)
    (replies w) (calls w) (trace w) l.

(** ** The monad of asynchronous functions *)

Inductive Res (A : Type) :=
  | Ok (a : A)
  | Throw (e : Error).
Arguments Ok {A} a.
Arguments Throw {A} e.

Definition M (A : Type) : Type := World -> Res A * World.

Definition ret {A} (a : A) : M A := fun w => (Ok a, w).

Definition throw {A} (e : Error) : M A := fun w => (Throw e, w).

Definition bind {A B} (m : M A) (k : A -> M B) : M B :=
  fun w =>
    match m w with
    | (Ok a, w') => k a w'
    | (Throw e, w') => (Throw e, w')
    end.

(** [try { m } catch (e) { h e }] *)
Definition try_catch {A} (m : M A) (h : Error -> M A) : M A :=
  fun w =>
    match m w with
    | (Ok a, w') => (Ok a, w')
    | (Throw e, w') => h e w'
    end.

(** [try { m } finally { f }], for a [finally] block that does not throw. *)
Definition try_finally {A} (m : M A) (f : World -> World) : M A :=
  fun w => let (r, w') := m w in (r, f w').

Definition get {A} (f : World -> A) : M A := fun w => (Ok (f w), w).

Definition modify (f : World -> World) : M unit := fun w => (Ok tt, f w).

Declare Scope M_scope.
Delimit Scope M_scope with M.
Notation "x <- m ;; k" := (bind m (fun x => k))
  (at level 100, m at next level, right associativity) : M_scope.
Notation "m ;; k" := (bind m (fun _ => k))
  (at level 100, right associativity) : M_scope.
Local Open Scope M_scope.

(** A ghost observation. *)
Definition emit (e : Event) : M unit :=
  modify (fun w => set_trace (trace w ++ [e]) w).

(** [Date.now()] *)
Definition Date_now : M Z := get clock.

(** [await new Promise(resolve => setTimeout(resolve, ms))]: the clock
    advances by the delay, a negative delay counting as none. *)
Definition sleep (ms : Z) : M unit :=
  emit (EvSleep ms) ;;
  modify (fun w => set_clock (clock w + Z.max 0 ms) w).

(** The number of the next external call. *)
Definition next_call : M nat :=
  n <- get calls ;;
  modify (set_calls (S n)) ;;
  ret n.

(** A promise left running. *)
Definition spawn (t : Task) : M unit :=
  modify (fun w => set_background (background w ++ [t]) w).

(** ** Storage adapter *)

Definition STORAGE_PREFIX : string := "scani_".
Definition STORAGE_SIZE_LIMIT : Z := 10 * 1024 * 1024.

(** [s.length] *)
Definition strlen (s : string) : Z := Z.of_nat (String.length s).

(** Entries are ranked by [a.timestamp - b.timestamp]. *)
Definition older_or_same (a b : string * Z) : Prop := a.2 <= b.2.

#[global] Instance older_or_same_dec a b : Decision (older_or_same a b).
Proof. unfold older_or_same. apply _. Defined.

Module Storage.
Section Adapter.
  Context {J : JSON} (env : Env).

  (** What the chosen store returns for a key.  The in-memory map returns
      [storage.get(key) || null]. *)
Definition read (m : gmap string string) (key : string) : option string :=
    match backend env with
    | MemoryStorage =>
        match m !! key with
        | Some v => if String.eqb v "" then None else Some v
        | None => None
        end
    | _ => m !! key
    end.

Definition getItem (key : string) : M (option string) :=
    get (fun w => read (storage w) key).

Definition removeItem (key : string) : M unit :=
    modify (set_storage (delete key)).

  (** The keys the adapter enumerates: the two real stores are filtered by
      the prefix, the in-memory map is not. *)
Definition keys_of (m : gmap string string) : list string :=
    match backend env with
    | MemoryStorage => (map_to_list m).*1
    | _ => List.filter (fun key => Js.startsWith key STORAGE_PREFIX) (map_to_list m).*1
    end.

Definition getAllKeys : M (list string) :=
    get (fun w => keys_of (storage w)).

Fixpoint multiRemove (keys : list string) : M unit :=
    match keys with
    | [] => ret tt
    | key :: keys' => removeItem key ;; multiRemove keys'
    end.

  (** The loop of [getSize]. *)
Fixpoint add_sizes (keys : list string) (totalSize : Z) : M Z :=
    match keys with
    | [] => ret totalSize
    | key :: keys' =>
        value <- getItem key ;;
        if Js.truthy value
        then add_sizes keys' (totalSize + (strlen key + strlen (default "" value)))
        else add_sizes keys' totalSize
    end.

Definition getSize : M Z :=
    keys <- getAllKeys ;;
    add_sizes keys 0.

  (** The loop of [cleanupOldItems] that gathers the entries carrying a
      timestamp.  A value that does not parse, or whose [timestamp] is
      missing or zero, is skipped. *)
Fixpoint collect_items (keys : list string) (items : list (string * Z))
    : M (list (string * Z)) :=
    match keys with
    | [] => ret items
    | key :: keys' =>
        value <- getItem key ;;
        if Js.truthy value then
          match JSON_parse (default "" value) ≫= timestamp_of with
          | Some timestamp =>
              if (timestamp =? 0)%Z then collect_items keys' items
              else collect_items keys' (items ++ [(key, timestamp)])
          | None => collect_items keys' items
          end
        else collect_items keys' items
    end.

  (** [Math.ceil(n * 0.2)] *)
Definition fifth_up (n : nat) : nat := Z.to_nat ((Z.of_nat n + 4) / 5).

  (** [merge_sort] stands for [items.sort((a, b) => a.timestamp -
      b.timestamp)].  Which of several entries of equal timestamp comes
      first, and the order in which the store enumerates its keys, are used
      by no statement below. *)
Definition cleanupOldItems : M unit :=
    keys <- getAllKeys ;;
    items <- collect_items keys [] ;;
    let sorted := merge_sort older_or_same items in
    let itemsToRemove := fifth_up (length items) in
    let keysToRemove := (take itemsToRemove sorted).*1 in
    multiRemove keysToRemove.

Definition setItem (key value : string) : M unit :=
    size <- getSize ;;
    (if size + strlen value >? STORAGE_SIZE_LIMIT then
       cleanupOldItems ;;
       size' <- getSize ;;
       if size' + strlen value >? STORAGE_SIZE_LIMIT
       then throw (mkError StorageError "Storage size limit exceeded")
       else ret tt
     else ret tt) ;;
    modify (set_storage (insert key value)).

End Adapter.
End Storage.

(** ** Product cache *)

Definition CACHE_EXPIRY_MS : Z := 24 * 60 * 60 * 1000.
Definition CACHE_KEY_PREFIX : string := "scani_product_".

Section Cache.
  Context {J : JSON} (env : Env).

Definition saveToCache (product : Product.t) : M unit :=
    try_catch
      (let cacheKey := CACHE_KEY_PREFIX +:+ Product.barcode product in
       now <- Date_now ;;
       let cacheData := mkCached product now in
       emit (EvCacheWrite cacheKey) ;;
       Storage.setItem env cacheKey (JSON_stringify (VCachedProduct cacheData)))
      (fun _ => ret tt).

  (** A stored value that parses to something other than a cached product
      has no [product] member: the function returns [undefined], which its
      callers treat like [null]. *)
Definition getFromCache (barcode : string) : M (option Product.t) :=
    let cacheKey := CACHE_KEY_PREFIX +:+ barcode in
    emit (EvCacheRead cacheKey) ;;
    cachedData <- Storage.getItem env cacheKey ;;
    if negb (Js.truthy cachedData) then ret None
    else
      match JSON_parse (default "" cachedData) with
      | None => ret None
      | Some parsed =>
          now <- Date_now ;;
          let expired :=
            match timestamp_of parsed with
            | Some timestamp => now - timestamp >? CACHE_EXPIRY_MS
            | None => false
            end in
          if expired then Storage.removeItem cacheKey ;; ret None
          else
            match parsed with
            | VCachedProduct c => ret (Some (cached_product c))
            | _ => ret None
            end
      end.

End Cache.

(** ** Network status *)

(** The host is a browser: [window] and [navigator] exist. *)
Definition initNetworkListeners : M unit :=
  initialized <- get networkListenersInitialized ;;
  if initialized then ret tt
  else
    online <- get navigator_onLine ;;
    modify (set_isOnline online) ;;
    modify (set_networkListenersInitialized true).

Definition isNetworkAvailable : M bool :=
  initialized <- get networkListenersInitialized ;;
  (if negb initialized then initNetworkListeners else ret tt) ;;
  online <- get navigator_onLine ;;
  modify (set_isOnline online) ;;
  ret online.

(** ** Product API client *)

Definition API_RATE_LIMIT_MS : Z := 1000.
Definition API_BASE_URL : string := "https://world.openfoodfacts.org/api/v3/".

Definition enforceRateLimit : M unit :=
  now <- Date_now ;;
  last <- get lastApiCallTime ;;
  let timeElapsed := now - last in
  (if (timeElapsed <? API_RATE_LIMIT_MS) && (last >? 0)
   then sleep (API_RATE_LIMIT_MS - timeElapsed)
   else ret tt) ;;
  now' <- Date_now ;;
  modify (set_lastApiCallTime now').

(** [fetch(url)]: the next answer of the API; once the answers are used up
    the network is gone and [fetch] rejects. *)
Definition fetch (url : string) : M (Z * option string * option ApiData) :=
  emit (EvFetch url) ;;
  rs <- get replies ;;
  match rs with
  | [] => throw (mkError TypeError "Failed to fetch")
  | FetchRejected :: rs' =>
      modify (set_replies rs') ;; throw (mkError TypeError "Failed to fetch")
  | FetchResponse status retryAfter body :: rs' =>
      modify (set_replies rs') ;; ret (status, retryAfter, body)
  end.

Module ParseInt.

Definition is_space (c : Ascii.ascii) : bool :=
    let n := Ascii.nat_of_ascii c in
    (n =? 32)%nat || ((9 <=? n)%nat && (n <=? 13)%nat).

Fixpoint skip_spaces (s : string) : string :=
    match s with
    | String c s' => if is_space c then skip_spaces s' else s
    | EmptyString => s
    end.

Definition digit (radix : Z) (c : Ascii.ascii) : option Z :=
    let n := Z.of_nat (Ascii.nat_of_ascii c) in
    let v := if (48 <=? n) && (n <=? 57) then n - 48
             else if (97 <=? n) && (n <=? 122) then n - 87
             else if (65 <=? n) && (n <=? 90) then n - 55
             else radix in
    if v <? radix then Some v else None.

  (** The longest run of digits at the head of [s]; [None] when it is
      empty. *)
Fixpoint digits (radix : Z) (s : string) (acc : option Z) : option Z :=
    match s with
    | String c s' =>
        match digit radix c with
        | Some v => digits radix s' (Some (default 0 acc * radix + v))
        | None => acc
        end
    | EmptyString => acc
    end.

  (** [parseInt(s)]; [None] is [NaN]. *)
Definition parseInt (s : string) : option Z :=
    let s := skip_spaces s in
    let '(sign, s) :=
      match s with
      | String "-"%char s' => (-1, s')
      | String "+"%char s' => (1, s')
      | _ => (1, s)
      end in
    let '(radix, s) :=
      match s with
      | String "0"%char (String "x"%char s') => (16, s')
      | String "0"%char (String "X"%char s') => (16, s')
      | _ => (10, s)
      end in
    Z.mul sign <$> digits radix s None.

End ParseInt.

(** [url.searchParams.append] for each parameter (no escaping). *)
Fixpoint query_string (params : list (string * string)) (first : bool) : string :=
  match params with
  | [] => ""
  | (k, v) :: params' =>
      (if first then "?" else "&") +:+ k +:+ "=" +:+ v +:+ query_string params' false
  end.

(** How long a 429 answer makes the client wait, in milliseconds:
    [waitTime * 1000] with [waitTime = retryAfter ? parseInt(retryAfter) : 5];
    a [NaN] delay is no delay. *)
Definition rate_limit_wait (retryAfter : option string) : Z :=
  let waitTime :=
    if Js.truthy retryAfter then ParseInt.parseInt (default "" retryAfter)
    else Some 5 in
  match waitTime with
  | Some t => t * 1000
  | None => 0
  end.

(** The outcome of one pass through the [try] block of [makeApiRequest]. *)
Inductive Attempt :=
  | Answered (data : ApiData)
  | RateLimited.

(** The [try]/[catch] of [makeApiRequest] up to the point where it either
    returns the data or, after a 429 answer and the wait, is about to call
    itself again.  The messages of the errors for a status that is neither
    429 nor 404 leave out [response.statusText], which an answer does not
    carry here; the classes are those of the code. *)
Definition api_attempt (endpoint : string) (params : list (string * string)) : M Attempt :=
  try_catch
    (enforceRateLimit ;;
     online <- get navigator_onLine ;;
     if negb online
     then throw (mkError NetworkError "No internet connection available")
     else
       let url := API_BASE_URL +:+ endpoint +:+ query_string params true in
       response <- fetch url ;;
       let '(status, retryAfter, body) := response in
       if negb ((200 <=? status) && (status <=? 299)) then
         if (status =? 429)%Z then
           sleep (rate_limit_wait retryAfter) ;;
           ret RateLimited
         else if (status =? 404)%Z then
           throw (mkError ProductServiceError ("API endpoint not found: " +:+ endpoint))
         else if (status =? 500)%Z || (status =? 502)%Z || (status =? 503)%Z || (status =? 504)%Z then
           throw (mkError NetworkError "API server error")
         else
           throw (mkError NetworkError ("API request failed with status " +:+ pretty status))
       else
         match body with
         | Some data => ret (Answered data)
         | None => throw (mkError PlainError "Unexpected end of JSON input")
         end)
    (fun error =>
       if instanceof error ProductServiceError then throw error
       else if instanceof error TypeError then
         throw (mkError NetworkError "Network error while making API request")
       else
         throw (mkError ProductServiceError
                  ("Unexpected error in API request: " +:+ err_message error))).

(** [makeApiRequest] calls itself after a 429 answer.  Every such call has
    consumed an answer, so the number of answers left bounds the depth. *)
Fixpoint makeApiRequest_from (depth : nat) (endpoint : string)
    (params : list (string * string)) : M ApiData :=
  attempt <- api_attempt endpoint params ;;
  match attempt with
  | Answered data => ret data
  | RateLimited =>
      match depth with
      | S depth' => makeApiRequest_from depth' endpoint params
      | O => throw (mkError NetworkError "Network error while making API request")
      end
  end.

Definition makeApiRequest (endpoint : string) (params : list (string * string)) : M ApiData :=
  fun w => makeApiRequest_from (length (replies w)) endpoint params w.

(** The body of an answer is a record here: an answer whose JSON is
    [null], on which [data.status] throws a [TypeError] that the handler
    rethrows, is not among the answers of [FetchResult]. *)
Definition fetchProductFromAPI (barcode : string) : M (option OpenFoodFactsProduct) :=
  try_catch
    (let apiUrl := "product/" +:+ barcode +:+ ".json" in
     online <- isNetworkAvailable ;;
     if negb online then throw (mkError NetworkError "Network unavailable")
     else
       data <- makeApiRequest apiUrl [] ;;
       if negb (String.eqb (api_status data) "success")
          || negb (match api_result_id data with
                   | Some i => String.eqb i "product_found"
                   | None => false
                   end)
       then throw (mkError ProductNotFoundError
                     ("Product with barcode " +:+ barcode +:+ " not found"))
       else
         match api_product data with
         | None =>
             throw (mkError ProductServiceError
                      ("Invalid API response for barcode " +:+ barcode
                       +:+ " - missing product object"))
         | Some p =>
             ret (Some {| code := api_code data; off_status := api_status data;
                          product := p; result_id := api_result_id data |})
         end)
    (fun error =>
       if instanceof error ProductNotFoundError then ret None else throw error).

(** ** Database gateway *)

Section Database.
  Context {J : JSON} (env : Env).

  (** [user?.id || null], errors of the auth call included. *)
Definition getCurrentUserId : M (option string) :=
    emit EvAuthGetUser ;;
    n <- next_call ;;
    let user := auth_getUser env n in
    ret (if Js.truthy user then user else None).

Definition getProductByBarcode (barcode : string) : M (option Product.t) :=
    try_catch
      (emit (EvDbSelectProduct barcode) ;;
       n <- next_call ;;
       match db_select_product env n barcode with
       | DbNoRows => ret None
       | DbFailure message =>
           throw (mkError DatabaseError
                    ("Failed to get product from database: " +:+ message))
       | DbRow data => saveToCache env data ;; ret (Some data)
       | DbNull => ret None
       end)
      (fun error =>
         if instanceof error ProductServiceError then throw error
         else throw (mkError DatabaseError
                       ("Error getting product from database: " +:+ err_message error))).

Definition recordScan (productId : string) (userId : option string)
      (source : ScanSource) : M ScanHistory.t :=
    userId <- (if negb (Js.truthy userId) then
                 current <- getCurrentUserId ;;
                 if negb (Js.truthy current)
                 then throw (mkError AuthenticationError "User not authenticated")
                 else ret current
               else ret userId) ;;
    now <- Date_now ;;
    let scanData :=
      mkScanData productId (default "" userId) (toISOString env now) source false in
    emit (EvDbInsertScan scanData) ;;
    n <- next_call ;;
    match db_insert_scan env n scanData with
    | DbRow data => ret data
    | DbNoRows => throw (mkError DatabaseError "Error recording scan: no rows")
    | DbFailure message =>
        throw (mkError DatabaseError ("Error recording scan: " +:+ message))
    | DbNull => throw (mkError DatabaseError "No data returned after recording scan")
    end.

End Database.

(** ** Mapping an API answer to a product *)

(** [x || null] on a number. *)
Definition nonzero_Q (x : option Q) : option Q :=
  match x with
  | Some q => if Qeq_bool q 0 then None else Some q
  | None => None
  end.

Definition nonzero_Z (x : option Z) : option Z :=
  match x with
  | Some 0 => None
  | _ => x
  end.

(** [mapApiResponseToProduct] returns a product without [id] and
    [created_at]; the two are parameters here. *)
Definition mapApiResponseToProduct (apiProduct : OpenFoodFactsProduct) (barcode : string)
    (id : string) (created_at : option string) : Product.t :=
  let p := product apiProduct in
  let nutritionFacts :=
    match nutriments p with
    | Some n =>
        {| calories := nonzero_Q (energy_kcal_100g n); fat := nonzero_Q (fat_100g n);
           saturatedFat := nonzero_Q (saturated_fat_100g n);
           carbs := nonzero_Q (carbohydrates_100g n); sugars := nonzero_Q (sugars_100g n);
           fiber := nonzero_Q (fiber_100g n); proteins := nonzero_Q (proteins_100g n);
           salt := nonzero_Q (salt_100g n) |}
    | None =>
        {| calories := None; fat := None; saturatedFat := None; carbs := None;
           sugars := None; fiber := None; proteins := None; salt := None |}
    end in
  let productName := default "Unknown Product" (Js.or_else (product_name p) None) in
  let brandName := default "Unknown Brand" (Js.or_else (brands p) None) in
  let imageUrl := Js.or_else (image_front_url p) (Js.or_else (off_image_url p) None) in
  let safetyScore := calculateHealthScore apiProduct in
  {| Product.id := id;
     Product.barcode := barcode;
     Product.name := productName;
     Product.brand := brandName;
     Product.safety_score := safetyScore;
     Product.image_url := imageUrl;
     Product.nutriscoreGrade := Js.or_else (nutriscore_grade p) None;
     Product.novaGroup := nonzero_Z (nova_group p);
     Product.ecoscore := Js.or_else (ecoscore_grade p) None;
     Product.nutritionFacts := Some nutritionFacts;
     Product.allergens := allergens_tags p;
     Product.ingredients := ingredients_tags p;
     Product.labels := labels_tags p;
     Product.categories := categories_tags p;
     Product.tags := default [] (categories_tags p);
     Product.created_at := created_at |}.

Section Uuid.
  Context (env : Env).

Definition hex_digit (v : Z) : string :=
    match String.get (Z.to_nat v) "0123456789abcdef" with
    | Some c => String c EmptyString
    | None => ""
    end.

  (** The replacement callback of [generateUUID], along the template. *)
Fixpoint fill_template (template : string) : M string :=
    match template with
    | EmptyString => ret ""
    | String c rest =>
        if Ascii.eqb c "x" || Ascii.eqb c "y" then
          n <- next_call ;;
          let r := Qfloor (random env n * 16) in
          let v := if Ascii.eqb c "x" then r else Z.lor (Z.land r 3) 8 in
          tail <- fill_template rest ;;
          ret (hex_digit v +:+ tail)
        else
          tail <- fill_template rest ;;
          ret (String c tail)
    end.

Definition generateUUID : M string :=
    fill_template "xxxxxxxx-xxxx-4xxx-yxxx-xxxxxxxxxxxx".

End Uuid.

(** ** Operation queue *)

Definition QUEUE_STORAGE_KEY : string := "scani_operation_queue".
Definition DEFAULT_MAX_RETRIES : Z := 5.

Definition status_eqb (a b : OperationStatus) : bool :=
  match a, b with
  | PENDING, PENDING | IN_PROGRESS, IN_PROGRESS | COMPLETED, COMPLETED
  | FAILED, FAILED | RETRY, RETRY => true
  | _, _ => false
  end.

(** [queue.findIndex(op => op.id === operationId)] *)
Fixpoint findIndex (operationId : string) (queue : list QueuedOperation.t) : option nat :=
  match queue with
  | [] => None
  | op :: queue' =>
      if String.eqb (QueuedOperation.id op) operationId then Some O
      else S <$> findIndex operationId queue'
  end.

(** [{ ...operation, ...updates, updatedAt: Date.now() }] *)
Definition apply_updates (op : QueuedOperation.t) (updates : OperationUpdates) (now : Z)
    : QueuedOperation.t :=
  {| QueuedOperation.id := QueuedOperation.id op;
     QueuedOperation.type := QueuedOperation.type op;
     QueuedOperation.data := QueuedOperation.data op;
     QueuedOperation.status := default (QueuedOperation.status op) (upd_status updates);
     QueuedOperation.retryCount :=
       default (QueuedOperation.retryCount op) (upd_retryCount updates);
     QueuedOperation.maxRetries := QueuedOperation.maxRetries op;
     QueuedOperation.nextRetryTime :=
       default (QueuedOperation.nextRetryTime op) (upd_nextRetryTime updates);
     QueuedOperation.error := default (QueuedOperation.error op) (upd_error updates);
     QueuedOperation.createdAt := QueuedOperation.createdAt op;
     QueuedOperation.updatedAt := now |}.

Definition only_status (s : OperationStatus) : OperationUpdates :=
  mkUpdates (Some s) None None None.

(** [op.nextRetryTime || Infinity], folded by [Math.min]. *)
Definition soonest (ops : list QueuedOperation.t) : TimerDelay :=
  foldr (fun op acc =>
           match QueuedOperation.nextRetryTime op with
           | Some t =>
               if Qeq_bool t 0 then acc
               else match acc with
                    | Finite m => Finite (Qmin t m)
                    | Infinite => Finite t
                    end
           | None => acc
           end) Infinite ops.

(** [Math.max(nextRetryTime - Date.now(), 1000)] *)
Definition wake_up_delay (next : TimerDelay) (now : Z) : TimerDelay :=
  match next with
  | Finite t => Finite (Qmax (t - inject_Z now) 1000)
  | Infinite => Infinite
  end.

(** The filter of [processOperationQueue]: pending, or due for a retry. *)
Definition ready (now : Z) (op : QueuedOperation.t) : bool :=
  status_eqb (QueuedOperation.status op) PENDING
  || (status_eqb (QueuedOperation.status op) RETRY
      && match QueuedOperation.nextRetryTime op with
         | Some t => Qeq_bool t 0 || Qle_bool t (inject_Z now)
         | None => true
         end).

Section Queue.
  Context {J : JSON} (env : Env).

  (** Listeners are code of the application; they see the event and are
      taken not to touch the service. *)
Definition notifyQueueEventListeners (event : string) (operationId : string)
      (status : OperationStatus) : M unit :=
    emit (EvNotify event operationId status).

  (** The cast [as QueuedOperation[]] is not checked by the code: a stored
      value of another shape is outside its typed domain and is read here as
      an empty queue, like a value that does not parse.  The code hands such
      a value to its callers, which throw at the first [queue.push],
      [queue.find], [queue.findIndex] or [queue.filter]: what is stated
      below about those callers is stated for stores that satisfy
      [queue_is_array]. *)
Definition getOperationQueue : M (list QueuedOperation.t) :=
    queueData <- Storage.getItem env QUEUE_STORAGE_KEY ;;
    if negb (Js.truthy queueData) then ret []
    else
      match JSON_parse (default "" queueData) with
      | Some (VQueue queue) => ret queue
      | _ => ret []
      end.

Definition saveOperationQueue (queue : list QueuedOperation.t) : M unit :=
    try_catch
      (Storage.setItem env QUEUE_STORAGE_KEY (JSON_stringify (VQueue queue)))
      (fun _ => ret tt).

Definition updateOperation (operationId : string) (updates : OperationUpdates)
      : M (option QueuedOperation.t) :=
    queue <- getOperationQueue ;;
    match findIndex operationId queue with
    | None => ret None
    | Some index =>
        match queue !! index with
        | None => ret None
        | Some old =>
            now <- Date_now ;;
            let operation := apply_updates old updates now in
            saveOperationQueue (<[index := operation]> queue) ;;
            notifyQueueEventListeners "operationUpdated"
              (QueuedOperation.id operation) (QueuedOperation.status operation) ;;
            ret (Some operation)
        end
    end.

  (** The part of [processOperationQueue] that runs before its first
      [await]: the single-flight guard, the network check, the timer and the
      flag.  It answers whether the pass goes on. *)
Definition processOperationQueue_enter (force : bool) : M bool :=
    running <- get queueProcessorRunning ;;
    if running then ret false
    else
      online <- (if force then ret true else isNetworkAvailable) ;;
      if negb online then ret false
      else
        modify (set_queueProcessorTimeout None) ;;
        modify (set_queueProcessorRunning true) ;;
        ret true.

  (** [processOperationQueue()] without [await]. *)
Definition start_processOperationQueue : M unit :=
    entered <- processOperationQueue_enter false ;;
    if entered then spawn TaskProcessOperationQueue else ret tt.

Definition enqueueOperation (type : OperationType) (data : QueuedOperationData)
      (maxRetries : option Z) : M QueuedOperation.t :=
    initialized <- get networkListenersInitialized ;;
    (if negb initialized then initNetworkListeners else ret tt) ;;
    now <- Date_now ;;
    n <- next_call ;;
    let operation :=
      {| QueuedOperation.id := "op_" +:+ pretty now +:+ "_" +:+ base36 env (random env n);
         QueuedOperation.type := type;
         QueuedOperation.data := data;
         QueuedOperation.status := PENDING;
         QueuedOperation.retryCount := 0;
         QueuedOperation.maxRetries := default DEFAULT_MAX_RETRIES maxRetries;
         QueuedOperation.nextRetryTime := None;
         QueuedOperation.error := None;
         QueuedOperation.createdAt := now;
         QueuedOperation.updatedAt := now |} in
    queue <- getOperationQueue ;;
    saveOperationQueue (queue ++ [operation]) ;;
    notifyQueueEventListeners "operationAdded" (QueuedOperation.id operation) PENDING ;;
    online <- isNetworkAvailable ;;
    (if online then start_processOperationQueue else ret tt) ;;
    ret operation.

  (** [submitNewProduct], [updateExistingProduct], [uploadProductImage]. *)
Definition remote (type : OperationType) (data : QueuedOperationData)
      : M (Z * string) :=
    emit (EvRemoteWrite type) ;;
    n <- next_call ;;
    match remote_write env n type data with
    | RemoteStatus statusCode message => ret (statusCode, message)
    | RemoteThrows e => throw e
    end.

Definition status_ok (statusCode : Z) : bool :=
    (200 <=? statusCode) && (statusCode <? 300).

  (** The [switch] of [processOperation] in [productService.ts]. *)
Definition dispatch (operation : QueuedOperation.t) : M bool :=
    let data := QueuedOperation.data operation in
    match QueuedOperation.type operation with
    | SUBMIT_PRODUCT =>
        result <- remote SUBMIT_PRODUCT data ;;
        if status_ok result.1 then ret true
        else throw (mkError ProductServiceError
                      ("Failed to submit product: " +:+ result.2))
    | UPDATE_PRODUCT =>
        result <- remote UPDATE_PRODUCT data ;;
        if status_ok result.1 then ret true
        else throw (mkError ProductServiceError
                      ("Failed to update product: " +:+ result.2))
    | UPLOAD_IMAGE =>
        result <- remote UPLOAD_IMAGE data ;;
        if status_ok result.1 then ret true
        else throw (mkError ProductServiceError
                      ("Failed to upload image: " +:+ result.2))
    | RECORD_SCAN =>
        let userId := data_userId data in
        actualUserId <-
          (if negb (Js.truthy userId) || bool_decide (userId = Some "pending-auth")
           then
             current <- getCurrentUserId env ;;
             if negb (Js.truthy current)
             then throw (mkError AuthenticationError "User not authenticated")
             else ret current
           else ret userId) ;;
        recordScan env (default "" (data_productId data)) actualUserId
          (default SrcApi (data_source data)) ;;
        ret true
    | CUSTOM =>
        throw (mkError QueueError
                 "Custom operation does not provide a process function")
    end.

(** The [catch] block of [processOperation] in [productService.ts]: what the
    function returns for an error. *)
Definition on_error (operation : QueuedOperation.t) (error : Error) : M bool :=
    if instanceof error NetworkError then ret false
    else if instanceof error AuthenticationError
    then ret (QueuedOperation.retryCount operation <? 1)
    else ret false.

(** [processOperation] of [productService.ts]. *)
Definition processOperation (operation : QueuedOperation.t) : M bool :=
    try_catch
      (updateOperation (QueuedOperation.id operation) (only_status IN_PROGRESS) ;;
       dispatch operation)
      (on_error operation).

  (** The [for] loop of [processOperationQueue]. *)
Fixpoint process_each (process : QueuedOperation.t -> M bool) (force : bool)
      (operations : list QueuedOperation.t) (processedCount : Z) : M Z :=
    match operations with
    | [] => ret processedCount
    | operation :: rest =>
        online <- (if force then ret true else isNetworkAvailable) ;;
        if negb online then ret processedCount
        else
          success <- process operation ;;
          process_each process force rest
            (if success then processedCount + 1 else processedCount)
    end.

  (** [processOperationQueue] from its first [await] on, with the
      [finally] block that drops the flag. *)
Definition processOperationQueue_run (process : QueuedOperation.t -> M bool)
      (force : bool) : M Z :=
    try_finally
      (try_catch
         (queue <- getOperationQueue ;;
          if bool_decide (length queue = O) then ret 0
          else
            notifyQueueEventListeners "queueProcessingStarted" "queue-processing"
              IN_PROGRESS ;;
            now <- Date_now ;;
            let operationsToProcess := List.filter (ready now) queue in
            processedCount <- process_each process force operationsToProcess 0 ;;
            remaining <- getOperationQueue ;;
            let remainingRetries :=
              List.filter (fun op => status_eqb (QueuedOperation.status op) RETRY)
                remaining in
            (if bool_decide (remainingRetries = []) then ret tt
             else
               now' <- Date_now ;;
               let delay := wake_up_delay (soonest remainingRetries) now' in
               modify (set_queueProcessorTimeout (Some delay))) ;;
            notifyQueueEventListeners "queueProcessingCompleted" "queue-processing"
              COMPLETED ;;
            ret processedCount)
         (fun _ => ret 0))
      (set_queueProcessorRunning false).

Definition processOperationQueue_with (process : QueuedOperation.t -> M bool)
      (force : bool) : M Z :=
    entered <- processOperationQueue_enter force ;;
    if entered then processOperationQueue_run process force else ret 0.

Definition processOperationQueue (force : bool) : M Z :=
    processOperationQueue_with processOperation force.

Definition reset_for_retry : OperationUpdates :=
    mkUpdates (Some PENDING) (Some 0) (Some None) (Some None).

Definition retryOperation (operationId : string) : M (option QueuedOperation.t) :=
    queue <- getOperationQueue ;;
    match List.find (fun op => String.eqb (QueuedOperation.id op) operationId) queue with
    | None => ret None
    | Some operation =>
        if negb (status_eqb (QueuedOperation.status operation) FAILED) then ret None
        else
          updatedOperation <- updateOperation operationId reset_for_retry ;;
          online <- isNetworkAvailable ;;
          (if online then start_processOperationQueue else ret tt) ;;
          ret updatedOperation
    end.

Definition recordScanWithOfflineSupport (productId : string) (userId : option string)
      (maxRetries : option Z) (forceQueue : bool) (source : option ScanSource)
      : M (option ScanHistory.t * option string) :=
    online <- isNetworkAvailable ;;
    let source := default SrcApi source in
    direct <- (if online && negb forceQueue then
                 try_catch
                   (scan <- recordScan env productId userId source ;; ret (Some scan))
                   (fun _ => ret None)
               else ret None) ;;
    match direct with
    | Some scan => ret (Some scan, None)
    | None =>
        try_catch
          (now <- Date_now ;;
           operation <- enqueueOperation RECORD_SCAN
                          (mkData None None (Some productId) userId (Some source) (Some now))
                          maxRetries ;;
           ret (None, Some (QueuedOperation.id operation)))
          (fun error =>
             throw (mkError QueueError
                      ("Failed to queue scan recording: " +:+ err_message error)))
    end.

End Queue.

(** ** The older copy of the queue processor ([unnamed/part_003]) *)

Module Part003.
Section Queue.
  Context {J : JSON} (env : Env).

  (** [recordScan] of the older copy: every failure leaves as a
      [DatabaseError]; a reply without data and without error is returned
      as it is. *)
Definition recordScan (productId : string) (userId : option string)
      (source : ScanSource) : M (option ScanHistory.t) :=
    try_catch
      (userId <- (if negb (Js.truthy userId) then
                   current <- getCurrentUserId env ;;
                   if negb (Js.truthy current)
                   then throw (mkError AuthenticationError
                                 "User must be authenticated to record a scan")
                   else ret current
                 else ret userId) ;;
       now <- Date_now ;;
       let scanData :=
         mkScanData productId (default "" userId) (toISOString env now) source true in
       emit (EvDbInsertScan scanData) ;;
       n <- next_call ;;
       match db_insert_scan env n scanData with
       | DbRow data => ret (Some data)
       | DbNoRows => throw (mkError PlainError "no rows")
       | DbFailure message => throw (mkError PlainError message)
       | DbNull => ret None
       end)
      (fun _ =>
         throw (mkError DatabaseError ("Failed to record scan for product " +:+ productId))).

  (** The [switch] of [processOperation] in the older copy. *)
Definition dispatch (operation : QueuedOperation.t) : M unit :=
    let data := QueuedOperation.data operation in
    match QueuedOperation.type operation with
    | SUBMIT_PRODUCT => remote env SUBMIT_PRODUCT data ;; ret tt
    | UPDATE_PRODUCT => remote env UPDATE_PRODUCT data ;; ret tt
    | UPLOAD_IMAGE => remote env UPLOAD_IMAGE data ;; ret tt
    | RECORD_SCAN =>
        let userId := data_userId data in
        userId <-
          (if bool_decide (userId = Some "pending-auth") then
             current <- getCurrentUserId env ;;
             if negb (Js.truthy current)
             then throw (mkError AuthenticationError
                           "User must be authenticated to process scan operation")
             else ret current
           else ret userId) ;;
        recordScan (default "" (data_productId data)) userId SrcDatabase ;;
        ret tt
    | CUSTOM =>
        throw (mkError QueueError "Custom operation missing process function")
    end.

(** The record of a failure: a retry with its backoff while retries are
    left, a terminal failure after that. *)
Definition on_error (operation : QueuedOperation.t) (error : Error) : M bool :=
    let opId := QueuedOperation.id operation in
    let errorMessage := err_message error in
    (if QueuedOperation.retryCount operation <? QueuedOperation.maxRetries operation
     then
       n <- next_call ;;
       let backoffDelay :=
         calculateBackoffDelay (QueuedOperation.retryCount operation) (random env n) in
       now <- Date_now ;;
       let nextRetryTime := (inject_Z now + backoffDelay)%Q in
       updateOperation env opId
         (mkUpdates (Some RETRY) (Some (QueuedOperation.retryCount operation + 1))
            (Some (Some nextRetryTime)) (Some (Some errorMessage))) ;;
       ret tt
     else
       updateOperation env opId
         (mkUpdates (Some FAILED) None None (Some (Some errorMessage))) ;;
       notifyQueueEventListeners "operationFailed" opId FAILED) ;;
    ret false.

(** [processOperation] of the older copy: it writes the outcome back to
    the queue. *)
Definition processOperation (operation : QueuedOperation.t) : M bool :=
    let opId := QueuedOperation.id operation in
    try_catch
      (updateOperation env opId (only_status IN_PROGRESS) ;;
       dispatch operation ;;
       updateOperation env opId (only_status COMPLETED) ;;
       notifyQueueEventListeners "operationCompleted" opId COMPLETED ;;
       ret true)
      (on_error operation).

Definition processOperationQueue (force : bool) : M Z :=
    processOperationQueue_with env processOperation force.

End Queue.
End Part003.

(** ** Barcode lookup *)

Record ScanOutcome := mkOutcome {
  out_product : Product.t;
  out_scan : option ScanHistory.t;
  (** [None] is the empty string. *)
  out_source : option ScanSource
}.

Section Lookup.
  Context {J : JSON} (env : Env).

Definition processBarcodeScan (barcode : string) (userId : option string)
      : M ScanOutcome :=
    isOnline <- isNetworkAvailable ;;
    (* Direct API first approach *)
    found <-
      (if isOnline then
         try_catch
           (apiProduct <- fetchProductFromAPI barcode ;;
            match apiProduct with
            | Some apiProduct =>
                id <- generateUUID env ;;
                now <- Date_now ;;
                let product :=
                  mapApiResponseToProduct apiProduct barcode id
                    (Some (toISOString env now)) in
                spawn (TaskSaveProductToDatabase barcode) ;;
                ret (Some (product, SrcApi))
            | None => ret None
            end)
           (fun _ => ret None)
       else ret None) ;;
    (* If product not found in API, check cache *)
    found <-
      (match found with
       | Some _ => ret found
       | None =>
           try_catch
             (cachedProduct <- getFromCache env barcode ;;
              match cachedProduct with
              | Some p => ret (Some (p, SrcCache))
              | None => ret None
              end)
             (fun _ => ret None)
       end) ;;
    (* If product not found in cache, check database *)
    found <-
      (match found with
       | Some _ => ret found
       | None =>
           if isOnline then
             try_catch
               (dbProduct <- getProductByBarcode env barcode ;;
                match dbProduct with
                | Some p => ret (Some (p, SrcDatabase))
                | None => ret None
                end)
               (fun _ => ret None)
           else ret None
       end) ;;
    match found with
    | None =>
        throw (mkError ProductNotFoundError
                 ("Product with barcode Product with barcode " +:+ barcode
                  +:+ " not found not found"))
    | Some (product, productSource) =>
        (match productSource with
         | SrcDatabase | SrcApi => saveToCache env product
         | SrcCache => ret tt
         end) ;;
        scanResult <- recordScanWithOfflineSupport env (Product.id product) userId
                        None false None ;;
        n <- next_call ;;
        (if negb (Qle_bool 0.01 (random env n)) then spawn TaskCleanupCache else ret tt) ;;
        ret (mkOutcome product scanResult.1 (Some productSource))
    end.

End Lookup.

(** ** Overlapping invocations of the queue processor

    JavaScript runs one function at a time and switches only at an
    [await].  An invocation of [processOperationQueue] is therefore seen by
    the others in two steps: its synchronous entry, and, if it went on, the
    rest of the pass up to the [finally] block.  Other code of the
    application may run in between; it does not write the flag. *)

Inductive Invocation :=
  | Waiting (force : bool)   (* not called yet *)
  | Active (force : bool)    (* past the entry, the pass is running *)
  | Returned (n : Z).

Definition is_active (i : Invocation) : bool :=
  match i with Active _ => true | _ => false end.

Definition active_passes (calls : list Invocation) : nat :=
  length (List.filter is_active calls).

Section Overlap.
  Context {J : JSON} (env : Env) (process : QueuedOperation.t -> M bool).

Inductive overlap_step : World * list Invocation -> World * list Invocation -> Prop :=
    | step_call i force w calls entered w' :
        calls !! i = Some (Waiting force) ->
        processOperationQueue_enter force w = (Ok entered, w') ->
        overlap_step (w, calls)
          (w', <[i := if entered then Active force else Returned 0]> calls)
    | step_finish i force w calls n w' :
        calls !! i = Some (Active force) ->
        processOperationQueue_run env process force w = (Ok n, w') ->
        overlap_step (w, calls) (w', <[i := Returned n]> calls)
    | step_elsewhere w calls w' :
        queueProcessorRunning w' = queueProcessorRunning w ->
        overlap_step (w, calls) (w', calls).

Definition overlap_steps := rtc overlap_step.

End Overlap.

(** ** A reference JSON codec

    The laws of [JSON] are satisfiable: every value is numbered (the types
    involved are countable) and the number is written out in binary. *)

#[global] Instance Q_eq_dec : EqDecision Q.
Proof. solve_decision. Defined.
#[global] Instance Q_countable : Countable Q.
Proof.
  refine (inj_countable' (fun q => (Qnum q, Qden q)) (fun p => Qmake p.1 p.2) _).
  by intros [].
Defined.

#[global] Instance NutritionFacts_eq_dec : EqDecision NutritionFacts.
Proof. solve_decision. Defined.
#[global] Instance NutritionFacts_countable : Countable NutritionFacts.
Proof.
  refine (inj_countable
    (fun n => [calories n; fat n; saturatedFat n; carbs n; sugars n; fiber n;
               proteins n; salt n])
    (fun l => match l with
              | [a; b; c; d; e; f; g; h] => Some (Build_NutritionFacts a b c d e f g h)
              | _ => None
              end) _).
  by intros [].
Defined.

#[global] Instance Product_eq_dec : EqDecision Product.t.
Proof. solve_decision. Defined.
#[global] Instance Product_countable : Countable Product.t.
Proof.
  refine (inj_countable
    (fun p => [encode (Product.id p); encode (Product.barcode p); encode (Product.name p);
               encode (Product.brand p); encode (Product.safety_score p);
               encode (Product.image_url p); encode (Product.nutriscoreGrade p);
               encode (Product.novaGroup p); encode (Product.ecoscore p);
               encode (Product.nutritionFacts p); encode (Product.allergens p);
               encode (Product.ingredients p); encode (Product.labels p);
               encode (Product.categories p); encode (Product.tags p);
               encode (Product.created_at p)])
    (fun l => match l with
              | [a; b; c; d; e; f; g; h; i; j; k; l; m; n; o; q] =>
                  a ← decode a; b ← decode b; c ← decode c; d ← decode d;
                  e ← decode e; f ← decode f; g ← decode g; h ← decode h;
                  i ← decode i; j ← decode j; k ← decode k; l ← decode l;
                  m ← decode m; n ← decode n; o ← decode o; q ← decode q;
                  Some (Product.mk a b c d e f g h i j k l m n o q)
              | _ => None
              end) _).
  intros []. cbn -[encode decode]. rewrite !decode_encode. reflexivity.
Defined.

#[global] Instance ScanSource_eq_dec : EqDecision ScanSource.
Proof. solve_decision. Defined.
#[global] Instance ScanSource_countable : Countable ScanSource.
Proof.
  refine (inj_countable'
    (fun s => match s with SrcCache => 0%nat | SrcDatabase => 1%nat | SrcApi => 2%nat end)
    (fun n => match n with O => SrcCache | S O => SrcDatabase | _ => SrcApi end) _).
  by intros [].
Defined.

#[global] Instance OperationType_eq_dec : EqDecision OperationType.
Proof. solve_decision. Defined.
#[global] Instance OperationType_countable : Countable OperationType.
Proof.
  refine (inj_countable'
    (fun s => match s with SUBMIT_PRODUCT => 0%nat | UPDATE_PRODUCT => 1%nat | UPLOAD_IMAGE => 2%nat | RECORD_SCAN => 3%nat | CUSTOM => 4%nat end)
    (fun n => match n with 0%nat => SUBMIT_PRODUCT | 1%nat => UPDATE_PRODUCT | 2%nat => UPLOAD_IMAGE | 3%nat => RECORD_SCAN | _ => CUSTOM end) _).
  by intros [].
Defined.

#[global] Instance OperationStatus_eq_dec : EqDecision OperationStatus.
Proof. solve_decision. Defined.
#[global] Instance OperationStatus_countable : Countable OperationStatus.
Proof.
  refine (inj_countable'
    (fun s => match s with PENDING => 0%nat | IN_PROGRESS => 1%nat | COMPLETED => 2%nat | FAILED => 3%nat | RETRY => 4%nat end)
    (fun n => match n with 0%nat => PENDING | 1%nat => IN_PROGRESS | 2%nat => COMPLETED | 3%nat => FAILED | _ => RETRY end) _).
  by intros [].
Defined.

#[global] Instance QueuedOperationData_eq_dec : EqDecision QueuedOperationData.
Proof. solve_decision. Defined.
#[global] Instance QueuedOperationData_countable : Countable QueuedOperationData.
Proof.
  refine (inj_countable
    (fun d => [encode (data_payload d); encode (data_credentials d);
               encode (data_productId d); encode (data_userId d);
               encode (data_source d); encode (data_timestamp d)])
    (fun l => match l with
              | [a; b; c; d; e; f] =>
                  a ← decode a; b ← decode b; c ← decode c; d ← decode d;
                  e ← decode e; f ← decode f;
                  Some (mkData a b c d e f)
              | _ => None
              end) _).
  intros []. cbn -[encode decode]. rewrite !decode_encode. reflexivity.
Defined.

#[global] Instance QueuedOperation_eq_dec : EqDecision QueuedOperation.t.
Proof. solve_decision. Defined.
#[global] Instance QueuedOperation_countable : Countable QueuedOperation.t.
Proof.
  refine (inj_countable
    (fun o => [encode (QueuedOperation.id o); encode (QueuedOperation.type o);
               encode (QueuedOperation.data o); encode (QueuedOperation.status o);
               encode (QueuedOperation.retryCount o); encode (QueuedOperation.maxRetries o);
               encode (QueuedOperation.nextRetryTime o); encode (QueuedOperation.error o);
               encode (QueuedOperation.createdAt o); encode (QueuedOperation.updatedAt o)])
    (fun l => match l with
              | [a; b; c; d; e; f; g; h; i; j] =>
                  a ← decode a; b ← decode b; c ← decode c; d ← decode d;
                  e ← decode e; f ← decode f; g ← decode g; h ← decode h;
                  i ← decode i; j ← decode j;
                  Some (QueuedOperation.mk a b c d e f g h i j)
              | _ => None
              end) _).
  intros []. cbn -[encode decode]. rewrite !decode_encode. reflexivity.
Defined.

#[global] Instance CachedProduct_eq_dec : EqDecision CachedProduct.
Proof. solve_decision. Defined.

#[global] Instance JsValue_eq_dec : EqDecision JsValue.
Proof. solve_decision. Defined.
#[global] Instance JsValue_countable : Countable JsValue.
Proof.
  refine (inj_countable'
    (fun v => match v with
              | VCachedProduct c => inl (cached_product c, cached_timestamp c)
              | VQueue q => inr (inl q)
              | VOther t => inr (inr t)
              end)
    (fun s => match s with
              | inl (p, t) => VCachedProduct (mkCached p t)
              | inr (inl q) => VQueue q
              | inr (inr t) => VOther t
              end) _).
  by intros [[]| |].
Defined.

Fixpoint text_of_pos (p : positive) : string :=
  match p with
  | xH => "."
  | xO p' => String "0" (text_of_pos p')
  | xI p' => String "1" (text_of_pos p')
  end.

Fixpoint pos_of_text (s : string) : option positive :=
  match s with
  | String c s' =>
      if Ascii.eqb c "." then (if String.eqb s' "" then Some xH else None)
      else if Ascii.eqb c "0" then xO <$> pos_of_text s'
      else if Ascii.eqb c "1" then xI <$> pos_of_text s'
      else None
  | EmptyString => None
  end.

#[global, refine] Instance ReferenceJSON : JSON := {|
  JSON_stringify v := text_of_pos (encode v);
  JSON_parse s := pos_of_text s ≫= decode
|}.
Proof.
  - intros v.
    assert (Hp : forall p, pos_of_text (text_of_pos p) = Some p).
    { induction p as [p IH|p IH|]; simpl; rewrite ?IH; reflexivity. }
    rewrite Hp. simpl. apply decode_encode.
  - intros v. destruct (encode v); discriminate.
  - reflexivity.
Defined.

Definition q0 : QueuedOperation.t := QueuedOperation.mk "op_1" RECORD_SCAN (mkData None None (Some "p1") (Some "pending-auth") None None) PENDING 0 5 None None 1 1.

(** ** What the adapter computes, as functions of the stored map *)

Section StorageSpec.
Context {J : JSON} (env : Env).

(** The share of one key in [getSize]. *)
Definition entry_size (m : gmap string string) (key : string) : Z :=
  let value := Storage.read env m key in
  if Js.truthy value then strlen key + strlen (default "" value) else 0.

Definition stored_size (m : gmap string string) : Z :=
  foldr (fun key acc => entry_size m key + acc) 0 (Storage.keys_of env m).

(** The timestamp [cleanupOldItems] finds under a key, if any. *)
Definition timestamp_at (m : gmap string string) (key : string) : option Z :=
  let value := Storage.read env m key in
  if Js.truthy value then
    match JSON_parse (default "" value) ≫= timestamp_of with
    | Some t => if (t =? 0)%Z then None else Some t
    | None => None
    end
  else None.

Definition timestamped (m : gmap string string) : list (string * Z) :=
  omap (fun key => pair key <$> timestamp_at m key) (Storage.keys_of env m).

Definition evicted_keys (m : gmap string string) : list string :=
  (take (Storage.fifth_up (length (timestamped m)))
        (merge_sort older_or_same (timestamped m))).*1.

Definition evict (m : gmap string string) : gmap string string :=
  foldr delete m (evicted_keys m).

(** [m'] is [m] without the oldest fifth of its timestamped entries. *)
Definition oldest_fifth_evicted (m m' : gmap string string) : Prop :=
  exists removed kept : list (string * Z),
    (removed ++ kept)%list ≡ₚ timestamped m /\
    length removed = Storage.fifth_up (length (timestamped m)) /\
    (forall a b, a ∈ removed -> b ∈ kept -> a.2 <= b.2) /\
    (forall key, key ∈ removed.*1 -> m' !! key = None) /\
    (forall key, key ∉ removed.*1 -> m' !! key = m !! key).

(** The test of [setItem]: would the value push the store over the budget? *)
Definition over_budget (m : gmap string string) (value : string) : bool :=
  stored_size m + strlen value >? STORAGE_SIZE_LIMIT.

End StorageSpec.

(** ** Reading a trace *)

Definition is_fetch (e : Event) : bool :=
  match e with EvFetch _ => true | _ => false end.

(** How many requests a trace shows. *)
Definition fetch_count (t : list Event) : nat := length (List.filter is_fetch t).

(** The world after the rate-limit pause that precedes a request. *)
Definition after_spacing (w : World) : World :=
  let timeElapsed := clock w - lastApiCallTime w in
  if (timeElapsed <? API_RATE_LIMIT_MS) && (lastApiCallTime w >? 0) then
    let w1 := set_trace (trace w ++ [EvSleep (API_RATE_LIMIT_MS - timeElapsed)])%list w in
    let w2 := set_clock (clock w1 + Z.max 0 (API_RATE_LIMIT_MS - timeElapsed)) w1 in
    set_lastApiCallTime (clock w2) w2
  else set_lastApiCallTime (clock w) w.

(** The world after a request that was answered 429 and the wait that the
    answer asks for. *)
Definition after_rate_limited (url : string) (retryAfter : option string)
    (rest : list FetchResult) (w : World) : World :=
  let w1 := after_spacing w in
  let w2 := set_trace (trace w1 ++ [EvFetch url])%list w1 in
  let w3 := set_replies rest w2 in
  let w4 := set_trace (trace w3 ++ [EvSleep (rate_limit_wait retryAfter)])%list w3 in
  set_clock (clock w4 + Z.max 0 (rate_limit_wait retryAfter)) w4.

Definition api_url (endpoint : string) (params : list (string * string)) : string :=
  API_BASE_URL +:+ endpoint +:+ query_string params true.

(** A 429 answer. *)
Definition rate_limit_reply (retryAfter : option string) : FetchResult :=
  FetchResponse 429 retryAfter None.

Definition is_rate_limit_reply (r : FetchResult) : bool :=
  match r with
  | FetchResponse status _ _ => (status =? 429)%Z
  | FetchRejected => false
  end.

(** A 429 answer is followed by one retry and no more, as the specification
    has it: two requests in all. *)
Definition retries_exactly_once : Prop :=
  forall endpoint params w retryAfter body rest r w',
    navigator_onLine w = true ->
    replies w = FetchResponse 429 retryAfter body :: rest ->
    makeApiRequest endpoint params w = (r, w') ->
    exists t, trace w' = (trace w ++ t)%list /\ fetch_count t = 2%nat.

(** What [makeApiRequest] makes of an answer that is not a 429. *)
Definition final_answer (endpoint : string) (r : FetchResult) : Res ApiData :=
  match r with
  | FetchRejected => Throw (mkError NetworkError "Network error while making API request")
  | FetchResponse status _ body =>
      if (200 <=? status) && (status <=? 299) then
        match body with
        | Some data => Ok data
        | None =>
            Throw (mkError ProductServiceError
                     "Unexpected error in API request: Unexpected end of JSON input")
        end
      else if (status =? 404)%Z then
        Throw (mkError ProductServiceError ("API endpoint not found: " +:+ endpoint))
      else if (status =? 500)%Z || (status =? 502)%Z || (status =? 503)%Z || (status =? 504)%Z
      then Throw (mkError NetworkError "API server error")
      else Throw (mkError NetworkError ("API request failed with status " +:+ pretty status))
  end.

(** The world after the request that got that answer. *)
Definition after_answer (url : string) (rest : list FetchResult) (w : World) : World :=
  let w1 := after_spacing w in
  set_replies rest (set_trace (trace w1 ++ [EvFetch url])%list w1).

(** A 429 answer with its header and body. *)
Definition limited_reply (hb : option string * option ApiData) : FetchResult :=
  FetchResponse 429 hb.1 hb.2.

(** A device that is answered 429 twice, then 200. *)
Definition twice_limited_world : World :=
  mkWorld ∅ 0 true false false None 1000000 true
    [FetchResponse 429 (Some "1") None; FetchResponse 429 (Some "1") None;
     FetchResponse 200 None (Some (mkApiData "1" "success" None None))]
    0 [] [].

(** ** What the queue functions compute, as functions of the stored map *)

Section QueueSpec.
Context {J : JSON} (env : Env).

(** The queue [getOperationQueue] reads from a store. *)
Definition stored_queue (m : gmap string string) : list QueuedOperation.t :=
  let queueData := Storage.read env m QUEUE_STORAGE_KEY in
  if negb (Js.truthy queueData) then []
  else
    match JSON_parse (default "" queueData) with
    | Some (VQueue queue) => queue
    | _ => []
    end.

(** Does the write of [saveOperationQueue] go through, at once or after the
    eviction pass? *)
Definition queue_write_fits (m : gmap string string) (queue : list QueuedOperation.t) : bool :=
  let text := JSON_stringify (VQueue queue) in
  negb (over_budget env m text) || negb (over_budget env (evict env m) text).

(** The store [saveOperationQueue] leaves. *)
Definition save_queue (queue : list QueuedOperation.t) (m : gmap string string)
    : gmap string string :=
  let text := JSON_stringify (VQueue queue) in
  if over_budget env m text then
    if over_budget env (evict env m) text then evict env m
    else <[QUEUE_STORAGE_KEY := text]> (evict env m)
  else <[QUEUE_STORAGE_KEY := text]> m.

(** The world after [updateOperation] replaced the operation at [index]. *)
Definition after_update (queue : list QueuedOperation.t) (index : nat)
    (operation : QueuedOperation.t) (w : World) : World :=
  let w1 := set_storage (save_queue (<[index := operation]> queue)) w in
  set_trace (trace w1 ++ [EvNotify "operationUpdated" (QueuedOperation.id operation)
                            (QueuedOperation.status operation)])%list w1.

End QueueSpec.

(** The world after [isNetworkAvailable]. *)
Definition after_network_check (w : World) : World :=
  set_isOnline (navigator_onLine w)
    (if networkListenersInitialized w then w
     else set_networkListenersInitialized true (set_isOnline (navigator_onLine w) w)).

(** The world after [processOperationQueue()] was started without [await]
    by a caller that found the network available. *)
Definition after_start (w : World) : World :=
  if queueProcessorRunning w then w
  else
    let w1 := after_network_check w in
    if navigator_onLine w then
      let w2 := set_queueProcessorRunning true (set_queueProcessorTimeout None w1) in
      set_background (background w2 ++ [TaskProcessOperationQueue])%list w2
    else w1.

(** ** Tiers and network calls in a trace *)

(** The lookup tier an event belongs to, if it queries one. *)
Definition tier_of (e : Event) : option ScanSource :=
  match e with
  | EvFetch _ => Some SrcApi
  | EvCacheRead _ | EvCacheWrite _ => Some SrcCache
  | EvDbSelectProduct _ | EvDbInsertScan _ => Some SrcDatabase
  | _ => None
  end.

(** Does the event go over the network? *)
Definition is_network (e : Event) : bool :=
  match e with
  | EvFetch _ | EvDbSelectProduct _ | EvDbInsertScan _ | EvAuthGetUser | EvRemoteWrite _ => true
  | _ => false
  end.

(** Does the background task go over the network? *)
Definition task_uses_network (t : Task) : bool :=
  match t with
  | TaskCleanupCache => false
  | _ => true
  end.

(** Every run of a computation takes a world to one related to it. *)
Definition preserves (R : relation World) {A} (m : M A) : Prop :=
  forall w, R w (m w).2.

(** The trace only ever grows. *)
Definition trace_grows : relation World :=
  fun w w' => exists t, trace w' = (trace w ++ t)%list.

(** The store is left alone. *)
Definition same_storage : relation World :=
  fun w w' => storage w' = storage w.

Abbreviation extends m := (preserves trace_grows m).

(** On a device that is online, the first tier a computation touches is a
    request to [url]. *)
Definition fetch_first {A} (url : string) (m : M A) : Prop :=
  forall w, navigator_onLine w = true ->
    exists pre post,
      trace (m w).2 = (trace w ++ pre ++ EvFetch url :: post)%list /\
      omap tier_of pre = [].

(** The URL of the product lookup. *)
Definition product_url (barcode : string) : string :=
  api_url ("product/" +:+ barcode +:+ ".json") [].

(** The storage key of a cached product. *)
Definition key_of (barcode : string) : string := CACHE_KEY_PREFIX +:+ barcode.

(** The world after the cache was asked for a barcode. *)
Definition cache_read (barcode : string) (w : World) : World :=
  set_trace (trace w ++ [EvCacheRead (key_of barcode)])%list w.

(** The flag is up exactly while one pass is active. *)
Definition flag_counts_passes (c : World * list Invocation) : Prop :=
  active_passes c.2 = if queueProcessorRunning c.1 then 1%nat else 0%nat.

(** ** What a pass of the queue processor may do to a stored operation *)

(** An operation as the processor of [productService.ts] leaves it: as it
    was, or marked in progress. *)
Definition left_unsettled (op op' : QueuedOperation.t) : Prop :=
  op' = op \/ exists now, op' = apply_updates op (only_status IN_PROGRESS) now.

(** The stored queue holds the same operations, each left unsettled. *)
Definition settles_nothing {J : JSON} (env : Env) : relation World :=
  fun w w' =>
    Forall2 left_unsettled (stored_queue env (storage w)) (stored_queue env (storage w')).

(** The user id of a scan that [processOperation] has to look up. *)
Definition unresolved (userId : option string) : bool :=
  negb (Js.truthy userId) || bool_decide (userId = Some "pending-auth").

(** The world after the switch of [processOperation] asked for the signed-in
    user. *)
Definition after_user_lookup (w : World) : World :=
  set_calls (S (calls w)) (set_trace (trace w ++ [EvAuthGetUser])%list w).

(** ** Sample hosts and worlds *)

(** A host with nobody signed in, an empty database, and a remote service
    that accepts every write but product updates, which fail on the network. *)
Definition sample_env : Env :=
  mkEnv MemoryStorage (fun _ => 0.5%Q) (fun _ => "abc1234") (fun t => pretty t)
    (fun _ => None) (fun _ _ => DbNoRows) (fun _ _ => DbNull)
    (fun _ type _ =>
       match type with
       | UPDATE_PRODUCT => RemoteThrows (mkError NetworkError "Network request failed")
       | _ => RemoteStatus 200 "ok"
       end).

(** A device just started, at one million milliseconds, with the answers
    the API will give. *)
Definition sample_world (online : bool) (answers : list FetchResult) : World :=
  mkWorld ∅ 0 true false false None 1000000 online answers 0 [] [].

Definition sample_barcode : string := "3017620422003".

Definition sample_product : Product.t :=
  Product.mk "id1" sample_barcode "Nutella" "Ferrero" 20
    None None None None None None None None None [] None.

(** Nutri-Score A, NOVA group 1, no labels. *)
Definition sample_off_product : OffProduct :=
  Build_OffProduct (Some "Nutella") (Some "Ferrero") None None None None
    (Some "a") (Some 1) None None None None.

Definition sample_payload : OpenFoodFactsProduct :=
  Build_OpenFoodFactsProduct sample_barcode "success" sample_off_product
    (Some "product_found").

(** The answer of the API for the sample barcode. *)
Definition sample_answer : FetchResult :=
  FetchResponse 200 None
    (Some (mkApiData sample_barcode "success" (Some "product_found")
             (Some sample_off_product))).

(** An offline device whose cache holds the sample product, stored one
    second ago. *)
Definition cached_world : World :=
  set_storage
    (insert (key_of sample_barcode)
       (JSON_stringify (VCachedProduct (mkCached sample_product 999000))))
    (sample_world false []).

(** The same device one millisecond after the entry has expired. *)
Definition expired_world : World :=
  set_clock (999000 + CACHE_EXPIRY_MS + 1) cached_world.

(** Three pending operations: a scan queued before sign-in, a product
    submission and a product update. *)
Definition sample_scan : QueuedOperation.t :=
  QueuedOperation.mk "op_1" RECORD_SCAN
    (mkData None None (Some "id1") (Some "pending-auth") (Some SrcApi) (Some 999000))
    PENDING 0 3 None None 999000 999000.

Definition sample_submit : QueuedOperation.t :=
  QueuedOperation.mk "op_2" SUBMIT_PRODUCT
    (mkData (Some "product") None None None None None) PENDING 0 3 None None 999000 999000.

Definition sample_update : QueuedOperation.t :=
  QueuedOperation.mk "op_3" UPDATE_PRODUCT
    (mkData (Some "update") None None None None None) PENDING 0 3 None None 999000 999000.

Definition with_queue (queue : list QueuedOperation.t) (w : World) : World :=
  set_storage (insert QUEUE_STORAGE_KEY (JSON_stringify (VQueue queue))) w.

Definition queue_world : World :=
  with_queue [sample_scan; sample_submit; sample_update] (sample_world true []).

(** What is stored of each operation: id, status, retry count, time of the
    next retry. *)
Definition queue_summary (w : World)
    : list (string * OperationStatus * Z * option Q) :=
  (fun op => (QueuedOperation.id op, QueuedOperation.status op,
              QueuedOperation.retryCount op, QueuedOperation.nextRetryTime op))
    <$> stored_queue sample_env (storage w).

(** A later pass: the clock has moved on by [ms]. *)
Definition later (ms : Z) (w : World) : World := set_clock (clock w + ms) w.

(** * More of the service *)

(** ** Stores the queue functions can work with *)

Section QueueDomain.
  Context {J : JSON} (env : Env).

(** The value under the queue key is one the code can work with: nothing,
    the empty text, a text that is no JSON (which [getOperationQueue]
    catches and reads as the empty queue), or an array of operations.  The
    cast of [getOperationQueue] is unchecked: handed any other value its
    callers throw at [queue.push], [queue.find], [queue.findIndex] or
    [queue.filter], where the embedding reads the empty queue.  The service
    itself writes arrays only, and the eviction pass never removes them. *)
Definition queue_is_array (m : gmap string string) : bool :=
    match Storage.read env m QUEUE_STORAGE_KEY with
    | Some s =>
        if String.eqb s "" then true
        else
          match JSON_parse s with
          | Some (VQueue _) | None => true
          | Some _ => false
          end
    | None => true
    end.

End QueueDomain.

(** ** The size a write would give *)

Section WriteBudget.
  Context {J : JSON} (env : Env).

(** The size of the store once [key] holds [value]: the combined size of
    keys and values that the write would give. *)
Definition size_after_write (m : gmap string string) (key value : string) : Z :=
    stored_size env (<[key := value]> m).

(** The error of [setItem] as the specification words it: raised only if
    the write would still exceed the budget after the eviction pass. *)
Definition raised_only_over_budget : Prop :=
    forall key value w e,
      (Storage.setItem env key value w).1 = Throw e ->
      size_after_write (evict env (storage w)) key value > STORAGE_SIZE_LIMIT.

End WriteBudget.

(** A text of [n] characters. *)
Fixpoint filler (n : nat) : string :=
  match n with
  | O => ""
  | S n' => String "x" (filler n')
  end.

(** A store that holds one text of [S n] characters that is no JSON. *)
Definition blob_store (n : nat) : gmap string string :=
  {["scani_blob" := String "-" (filler n)]}.

Definition blob_world (n : nat) : World :=
  set_storage (fun _ => blob_store n) (sample_world true []).

(** ** A request that is answered 429 more than once *)

(** A decimal numeral, read digit by digit. *)
Definition is_digit (c : Ascii.ascii) : bool :=
  let n := Z.of_nat (Ascii.nat_of_ascii c) in (48 <=? n) && (n <=? 57).

Fixpoint decimal_from (s : string) (acc : Z) : option Z :=
  match s with
  | EmptyString => Some acc
  | String c s' =>
      if is_digit c
      then decimal_from s' (acc * 10 + (Z.of_nat (Ascii.nat_of_ascii c) - 48))
      else None
  end.

Definition decimal (s : string) : option Z :=
  match s with
  | EmptyString => None
  | _ => decimal_from s 0
  end.

(** The delay, in seconds, that a 429 answer asks for: the number its
    [Retry-After] header spells out, and the five seconds of the client
    when there is no header.  A header of another form, a date or an empty
    text, asks for a delay that this definition does not read. *)
Definition retry_after (h : option string) : option Z :=
  match h with
  | Some s => decimal s
  | None => Some 5
  end.

(** The same delay in milliseconds. *)
Definition retry_after_ms (h : option string) : Z := 1000 * default 0 (retry_after h).

(** The longest delay a timer holds: [setTimeout] takes a signed 32-bit
    number of milliseconds, and fires at once when handed more. *)
Definition MAX_TIMER_DELAY : Z := 2147483647.

(** What [enforceRateLimit] puts in front of a request: nothing, or one
    pause. *)
Definition is_pause (t : list Event) : Prop :=
  t = [] \/ exists ms, 0 < ms /\ t = [EvSleep ms].

(** The events of the requests that were answered 429, in order: before
    each request the pause of the rate limit, after each request the wait
    [wait] of its header. *)
Fixpoint limited_rounds (url : string) (wait : option string -> Z)
    (pauses : list (list Event))
    (limited : list (option string * option ApiData)) : list Event :=
  match pauses, limited with
  | pause :: pauses', hb :: limited' =>
      (pause ++ EvFetch url :: EvSleep (wait hb.1)
         :: limited_rounds url wait pauses' limited')%list
  | _, _ => []
  end.

(** The time spent in the waits. *)
Definition total_wait (wait : option string -> Z)
    (limited : list (option string * option ApiData)) : Z :=
  foldr (fun hb acc => wait hb.1 + acc) 0 limited.

(** Two outcomes agree: the same data, or errors of the same class. *)
Definition same_outcome (a b : Res ApiData) : Prop :=
  match a, b with
  | Ok data, Ok data' => data = data'
  | Throw e, Throw e' => err_class e = err_class e'
  | _, _ => False
  end.

(** A device that is answered 429 three times: to retry after two
    seconds, after two minutes, and with no header. *)
Definition limited_world : World :=
  mkWorld ∅ 0 true false false None 1000000 true
    [FetchResponse 429 (Some "2") None;
     FetchResponse 429 (Some "120") None;
     FetchResponse 429 None None;
     FetchResponse 200 None (Some (mkApiData "1" "success" None None))]
    0 [] [].

(** ** Barcode helpers (the barcode service, first document of [unnamed/part_003]) *)

Module Barcode.

(** [s.charAt(i)] *)
Definition charAt (s : string) (i : nat) : string :=
    match String.get i s with
    | Some c => String c EmptyString
    | None => EmptyString
    end.

(** [s.substring(a, b)] for indices that are not negative: both are clamped
    to the length and swapped when out of order. *)
Definition substring (a b : nat) (s : string) : string :=
    let a := Nat.min a (String.length s) in
    let b := Nat.min b (String.length s) in
    String.substring (Nat.min a b) (Nat.max a b - Nat.min a b) s.

(** [s.substring(a)] *)
Definition substring_from (a : nat) (s : string) : string :=
    substring a (String.length s) s.

Definition formatBarcode (barcode : string) : string :=
    if (String.length barcode =? 13)%nat then
      substring 0 1 barcode +:+ " " +:+ substring 1 7 barcode +:+ " "
        +:+ substring_from 7 barcode
    else if (String.length barcode =? 12)%nat then
      substring 0 6 barcode +:+ " " +:+ substring_from 6 barcode
    else barcode.

(** [parseInt(s, 10)]; [None] is [NaN]. *)
Definition parseInt10 (s : string) : option Z :=
    let s := ParseInt.skip_spaces s in
    let '(sign, s) :=
      match s with
      | String "-"%char s' => (-1, s')
      | String "+"%char s' => (1, s')
      | _ => (1, s)
      end in
    Z.mul sign <$> ParseInt.digits 10 s None.

(** Arithmetic on numbers that may be [NaN]. *)
Definition nan_add (a b : option Z) : option Z :=
    match a, b with
    | Some a, Some b => Some (a + b)
    | _, _ => None
    end.

Definition nan_mul (a : option Z) (k : Z) : option Z := Z.mul k <$> a.

(** The [for] loop of [validateBarcode]: [count] rounds from index [i]. *)
Fixpoint sum_digits (barcode : string) (count i : nat) (sum : option Z) : option Z :=
    match count with
    | O => sum
    | S count' =>
        let digit := parseInt10 (charAt barcode i) in
        sum_digits barcode count' (S i)
          (nan_add sum (if (i mod 2 =? 0)%nat then digit else nan_mul digit 3))
    end.

(** [%] is the remainder of the truncated division; [===] is false on
    [NaN]. *)
Definition validateBarcode (barcode format : string) : bool :=
    if String.eqb format "EAN-13" && (String.length barcode =? 13)%nat then
      let sum := sum_digits barcode 12 0 (Some 0) in
      let checkDigit := (fun s => Z.rem (10 - Z.rem s 10) 10) <$> sum in
      match parseInt10 (charAt barcode 12), checkDigit with
      | Some d, Some c => d =? c
      | _, _ => false
      end
    else true.

(** The value of a decimal digit. *)
Definition digit_value (c : Ascii.ascii) : option Z := ParseInt.digit 10 c.

(** The weight of a position in the sum of EAN-13: 1 at the even
    positions, counted from 0, and 3 at the odd ones. *)
Definition weight (i : nat) : Z := if Nat.even i then 1 else 3.

(** The weighted sum of the digits of a code whose first character is at
    position [i]; [None] when a character is no digit. *)
Fixpoint weighted_sum (i : nat) (code : list Ascii.ascii) : option Z :=
    match code with
    | [] => Some 0
    | c :: code' =>
        d ← digit_value c;
        rest ← weighted_sum (S i) code';
        Some (weight i * d + rest)
    end.

(** The check of EAN-13 on a code of thirteen characters. *)
Definition ean13 (code : list Ascii.ascii) : Prop :=
    exists total, weighted_sum 0 code = Some total /\ total mod 10 = 0.

End Barcode.

(** ** More of the storage adapter and the cache *)

Module StorageOps.
Section Adapter.
  Context {J : JSON} (env : Env).

(** [Storage.clear]. *)
Definition clear : M unit :=
    keys <- Storage.getAllKeys env ;;
    Storage.multiRemove keys.

End Adapter.
End StorageOps.

Section CacheCleanup.
  Context {J : JSON} (env : Env).

(** The [for] loop of [cleanupCache].  [JSON.parse] throws on a text that
    is no JSON, which ends the loop; a value without a numeric [timestamp]
    gives [NaN] in the comparison and is kept.  ([JsValue] has no [null],
    on which the destructuring would throw as well: the service stores
    objects only.) *)
Fixpoint cleanup_expired (now : Z) (productKeys : list string) : M unit :=
    match productKeys with
    | [] => ret tt
    | key :: productKeys' =>
        cachedData <- Storage.getItem env key ;;
        (if Js.truthy cachedData then
           match JSON_parse (default "" cachedData) with
           | Some parsed =>
               match timestamp_of parsed with
               | Some timestamp =>
                   if now - timestamp >? CACHE_EXPIRY_MS
                   then Storage.removeItem key
                   else ret tt
               | None => ret tt
               end
           | None => throw (mkError PlainError "Unexpected token in JSON")
           end
         else ret tt) ;;
        cleanup_expired now productKeys'
    end.

Definition cleanupCache : M unit :=
    try_catch
      (now <- Date_now ;;
       allKeys <- Storage.getAllKeys env ;;
       let productKeys :=
         List.filter (fun key => Js.startsWith key CACHE_KEY_PREFIX) allKeys in
       cleanup_expired now productKeys)
      (fun _ => ret tt).

(** [needsSync]; [NaN > maxAge] is false.  As in [cleanup_expired], a
    stored [null] is outside [JsValue]. *)
Definition needsSync (cacheKey : string) (maxAge : Z) : M bool :=
    try_catch
      (cachedData <- Storage.getItem env cacheKey ;;
       if negb (Js.truthy cachedData) then ret true
       else
         match JSON_parse (default "" cachedData) with
         | Some parsed =>
             now <- Date_now ;;
             match timestamp_of parsed with
             | Some timestamp => ret (now - timestamp >? maxAge)
             | None => ret false
             end
         | None => throw (mkError PlainError "Unexpected token in JSON")
         end)
      (fun _ => ret true).

End CacheCleanup.

(** ** More of the operation queue *)

Section QueueAdmin.
  Context {J : JSON} (env : Env).

(** [removeOperation].  [findIndex] answers an index of the queue, so
    [splice] always yields the operation. *)
Definition removeOperation (operationId : string) : M bool :=
    queue <- getOperationQueue env ;;
    match findIndex operationId queue with
    | None => ret false
    | Some index =>
        match queue !! index with
        | None => ret false
        | Some removedOperation =>
            saveOperationQueue env (delete index queue) ;;
            notifyQueueEventListeners "operationUpdated"
              (QueuedOperation.id removedOperation) COMPLETED ;;
            ret true
        end
    end.

Definition clearOperationQueue : M Z :=
    queue <- getOperationQueue env ;;
    let count := Z.of_nat (length queue) in
    saveOperationQueue env [] ;;
    ret count.

Definition is_waiting (op : QueuedOperation.t) : bool :=
    status_eqb (QueuedOperation.status op) PENDING
    || status_eqb (QueuedOperation.status op) RETRY.

Definition is_failed (op : QueuedOperation.t) : bool :=
    status_eqb (QueuedOperation.status op) FAILED.

Definition getPendingOperationCount : M Z :=
    queue <- getOperationQueue env ;;
    ret (Z.of_nat (length (List.filter is_waiting queue))).

Definition getFailedOperationCount : M Z :=
    queue <- getOperationQueue env ;;
    ret (Z.of_nat (length (List.filter is_failed queue))).

(** The [for] loop of [retryAllFailedOperations]. *)
Fixpoint reset_each (failedOperations : list QueuedOperation.t) : M unit :=
    match failedOperations with
    | [] => ret tt
    | operation :: rest =>
        updateOperation env (QueuedOperation.id operation) reset_for_retry ;;
        reset_each rest
    end.

Definition retryAllFailedOperations : M Z :=
    queue <- getOperationQueue env ;;
    let failedOperations := List.filter is_failed queue in
    reset_each failedOperations ;;
    online <- isNetworkAvailable ;;
    (if online && (0 <? Z.of_nat (length failedOperations))
     then start_processOperationQueue else ret tt) ;;
    ret (Z.of_nat (length failedOperations)).

(** The listener of the [online] and [offline] events of the window. *)
Definition handleNetworkStatusChange : M unit :=
    wasOnline <- get isOnline ;;
    online <- get navigator_onLine ;;
    modify (set_isOnline online) ;;
    (if negb wasOnline && online then start_processOperationQueue else ret tt) ;;
    notifyQueueEventListeners "networkStatusChanged" "network-status" COMPLETED.

End QueueAdmin.

(** ** The shape of a generated identifier *)

Definition is_hex (c : Ascii.ascii) : bool :=
  existsb (Ascii.eqb c) (String.list_ascii_of_string "0123456789abcdef").

(** Does [s] follow the template of [generateUUID]: a hexadecimal digit for
    every [x], one of 8, 9, a, b for every [y], the character of the
    template elsewhere? *)
Fixpoint fits_template (template s : string) : bool :=
  match template, s with
  | EmptyString, EmptyString => true
  | String t template', String c s' =>
      (if Ascii.eqb t "x" then is_hex c
       else if Ascii.eqb t "y"
            then existsb (Ascii.eqb c) (String.list_ascii_of_string "89ab")
            else Ascii.eqb t c)
      && fits_template template' s'
  | _, _ => false
  end.

(** ** Entries of the product cache *)

Section CacheSpec.
Context {J : JSON} (env : Env).

(** The text [saveToCache] stores for a product at a time. *)
Definition cache_text (product : Product.t) (now : Z) : string :=
  JSON_stringify (VCachedProduct (mkCached product now)).

(** The key holds an entry that [cleanupCache] finds expired at [now]. *)
Definition expired_at (m : gmap string string) (now : Z) (key : string) : Prop :=
  exists s parsed timestamp,
    Storage.read env m key = Some s /\ s <> "" /\
    JSON_parse s = Some parsed /\
    timestamp_of parsed = Some timestamp /\
    now - timestamp > CACHE_EXPIRY_MS.

(** Every non-empty text under a product key is a cached product, as
    [saveToCache] writes them. *)
Definition product_entries_cached (m : gmap string string) : Prop :=
  forall key s,
    Js.startsWith key CACHE_KEY_PREFIX = true ->
    Storage.read env m key = Some s -> s <> "" ->
    exists c, JSON_parse s = Some (VCachedProduct c).

End CacheSpec.

(** ** What the queue keeps of an operation *)

(** The fields that no update touches. *)
Definition same_operation (op op' : QueuedOperation.t) : Prop :=
  QueuedOperation.id op' = QueuedOperation.id op /\
  QueuedOperation.type op' = QueuedOperation.type op /\
  QueuedOperation.data op' = QueuedOperation.data op /\
  QueuedOperation.maxRetries op' = QueuedOperation.maxRetries op /\
  QueuedOperation.createdAt op' = QueuedOperation.createdAt op.

(** An operation after a manual retry of the operations named [ids]: as it
    was, or, if it is one of them, pending again with its retries cleared. *)
Definition reset_among (ids : list string) (op op' : QueuedOperation.t) : Prop :=
  op' = op \/
  (QueuedOperation.id op ∈ ids /\
   same_operation op op' /\
   QueuedOperation.status op' = PENDING /\
   QueuedOperation.retryCount op' = 0 /\
   QueuedOperation.nextRetryTime op' = None /\
   QueuedOperation.error op' = None).

(** ** The errors a function lets out *)

(** Every error the computation throws satisfies [P]. *)
Definition throws_only (P : Error -> Prop) {A} (m : M A) : Prop :=
  forall w e, (m w).1 = Throw e -> P e.

(** The computation throws nothing. *)
Definition never_throws {A} (m : M A) : Prop := throws_only (fun _ => False) m.

(** The error is one of the service's own: an instance of
    [ProductServiceError]. *)
Definition service_error (e : Error) : Prop := instanceof e ProductServiceError = true.

(** ** Formatted barcodes *)

(** The text without its blanks. *)
Fixpoint strip_spaces (s : string) : string :=
  match s with
  | EmptyString => EmptyString
  | String c s' =>
      if Ascii.eqb c " " then strip_spaces s' else String c (strip_spaces s')
  end.

(** The operations a pass started at [now] picks from a queue. *)
Definition ready_operations (now : Z) (queue : list QueuedOperation.t)
    : list QueuedOperation.t :=
  List.filter (ready now) queue.

(** A host like [sample_env] whose database holds the sample product. *)
Definition stocked_env : Env :=
  mkEnv MemoryStorage (fun _ => 0.5%Q) (fun _ => "abc1234") (fun t => pretty t)
    (fun _ => None) (fun _ _ => DbRow sample_product) (fun _ _ => DbNull)
    (fun _ _ _ => RemoteStatus 200 "ok").

(** * Properties *)

Local Open Scope M_scope.

(** ** The scoring rule and the backoff *)

Lemma nutrition_points_eq (g : option string) :
  (if Js.truthy g then
      let u := Js.toUpperCase (default "" g) in
      if String.eqb u "A" then 30
      else if String.eqb u "B" then 20
      else if String.eqb u "C" then 10
      else if String.eqb u "D" then -10
      else if String.eqb u "E" then -20
      else 0
    else 0) = HealthRule.nutrition_points g.
Proof.
  destruct g as [g|]; [|reflexivity].
  unfold Js.truthy, HealthRule.nutrition_points. cbn [default negb].
  destruct (String.eqb_spec g "") as [->|Hne]; [reflexivity|].
  cbn [negb HealthRule.lookup_grade HealthRule.nutrition_table].
  rewrite !(String.eqb_sym _ (Js.toUpperCase g)).
  reflexivity.
Qed.

Lemma processing_points_eq (n : option Z) (s : Z) :
  match n with
  | Some 1 => s + 20 | Some 2 => s + 10 | Some 3 => s - 10 | Some 4 => s - 20
  | _ => s
  end = s + HealthRule.processing_points n.
Proof.
  destruct n as [[|q|q]|]; cbn; try lia.
  do 3 (try destruct q as [q|q|]); cbn; lia.
Qed.

Lemma organic_points_eq (labels : option (list string)) (s : Z) :
  (if existsb (fun label => Js.includes label "organic" || Js.includes label "bio")
       (default [] labels)
   then s + 10 else s) = s + HealthRule.organic_points labels.
Proof.
  destruct labels as [l|]; cbn [default HealthRule.organic_points].
  - change (fun label => Js.includes label "organic" || Js.includes label "bio")
      with HealthRule.is_organic.
    cbn. destruct (existsb HealthRule.is_organic l); lia.
  - cbn. lia.
Qed.

Lemma calculateHealthScore_rule p : calculateHealthScore p = HealthRule.score p.
Proof.
  unfold calculateHealthScore, HealthRule.score. cbn zeta.
  rewrite organic_points_eq, processing_points_eq.
  rewrite <- nutrition_points_eq.
  f_equal.
  destruct (Js.truthy (nutriscore_grade (product p))); cbn zeta;
    repeat match goal with |- context [if ?b then _ else _] => destruct b end; lia.
Qed.

Lemma pow2_succ r : 0 <= r -> (Qpower 2 (r + 1) == 2 * Qpower 2 r)%Q.
Proof.
  intros Hr. rewrite Qpower_plus by discriminate. simpl (2 ^ 1)%Q. ring.
Qed.

Lemma pow2_pos r : (0 < Qpower 2 r)%Q.
Proof. apply Qpower_0_lt. reflexivity. Qed.

Lemma backoff_four_thirds : backoff_grows_by (4 # 3).
Proof.
  intros r u u' Hr [Hu0 Hu1] [Hu0' Hu1'].
  unfold calculateBackoffDelay, INITIAL_RETRY_DELAY, MAX_RETRY_DELAY.
  pose proof (pow2_succ r Hr) as Hs.
  pose proof (pow2_pos r) as Hp.
  set (p := Qpower 2 r) in *. set (p' := Qpower 2 (r + 1)) in *.
  apply Q.min_glb; [|apply Q.le_min_r].
  apply Q.min_le_iff. left.
  pose proof (Q.le_min_l (1000 * p * (0.8 + u * 0.4)) (60 * 60 * 1000)) as Hm.
  set (m := Qmin _ _) in *.
  rewrite Hs. nra.
Qed.

Lemma backoff_stays_capped r u u' :
  0 <= r -> (0 <= u <= 1)%Q -> (0 <= u' <= 1)%Q ->
  (calculateBackoffDelay r u == MAX_RETRY_DELAY)%Q ->
  (calculateBackoffDelay (r + 1) u' == MAX_RETRY_DELAY)%Q.
Proof.
  intros Hr [Hu0 Hu1] [Hu0' Hu1'].
  unfold calculateBackoffDelay, INITIAL_RETRY_DELAY, MAX_RETRY_DELAY.
  pose proof (pow2_succ r Hr) as Hs.
  pose proof (pow2_pos r) as Hp.
  set (p := Qpower 2 r) in *. set (p' := Qpower 2 (r + 1)) in *.
  intros Hcap. apply Q.min_r_iff in Hcap. apply Q.min_r_iff.
  rewrite Hs. nra.
Qed.


(** ** The monad *)

Lemma bind_ok {A B} (m : M A) (k : A -> M B) w a w' :
  m w = (Ok a, w') -> bind m k w = k a w'.
Proof. intros H. unfold bind. rewrite H. reflexivity. Qed.

Lemma bind_throw {A B} (m : M A) (k : A -> M B) w e w' :
  m w = (Throw e, w') -> bind m k w = (Throw e, w').
Proof. intros H. unfold bind. rewrite H. reflexivity. Qed.

Lemma truthy_Some s : s <> "" -> Js.truthy (Some s) = true.
Proof.
  intros H. unfold Js.truthy. destruct (String.eqb_spec s ""); [contradiction | reflexivity].
Qed.

Section CacheProperties.
Context {J : JSON} (env : Env).

Lemma read_None m key : m !! key = None -> Storage.read env m key = None.
Proof. intros H. unfold Storage.read. rewrite H. destruct (backend env); reflexivity. Qed.

Lemma read_Some m key s :
  m !! key = Some s -> s <> "" -> Storage.read env m key = Some s.
Proof.
  intros H Hs. unfold Storage.read. rewrite H.
  destruct (backend env); try reflexivity.
  destruct (String.eqb_spec s ""); [contradiction | reflexivity].
Qed.

Lemma parse_nonempty s v : JSON_parse s = Some v -> s <> "".
Proof. intros H ->. rewrite JSON_parse_empty in H. discriminate. Qed.

Lemma getFromCache_no_entry barcode w :
  storage w !! key_of barcode = None ->
  getFromCache env barcode w = (Ok None, cache_read barcode w).
Proof.
  intros H. unfold key_of in H. unfold getFromCache, bind, emit, modify, Storage.getItem, get. cbn.
  rewrite (read_None _ _ H). reflexivity.
Qed.

Lemma getFromCache_expired barcode w s c :
  storage w !! key_of barcode = Some s ->
  JSON_parse s = Some (VCachedProduct c) ->
  clock w - cached_timestamp c > CACHE_EXPIRY_MS ->
  getFromCache env barcode w
  = (Ok None, set_storage (delete (key_of barcode)) (cache_read barcode w)).
Proof.
  intros H Hp Hexp. unfold key_of in H. unfold getFromCache, bind, emit, modify, Storage.getItem, get. cbn.
  rewrite (read_Some _ _ _ H (parse_nonempty _ _ Hp)).
  rewrite truthy_Some by (eapply parse_nonempty; eauto). cbn.
  rewrite Hp. cbn.
  destruct (Z.gtb_spec (clock w - cached_timestamp c) CACHE_EXPIRY_MS); [|lia].
  reflexivity.
Qed.

Lemma getFromCache_fresh barcode w s c :
  storage w !! key_of barcode = Some s ->
  JSON_parse s = Some (VCachedProduct c) ->
  clock w - cached_timestamp c <= CACHE_EXPIRY_MS ->
  getFromCache env barcode w = (Ok (Some (cached_product c)), cache_read barcode w).
Proof.
  intros H Hp Hexp. unfold key_of in H. unfold getFromCache, bind, emit, modify, Storage.getItem, get. cbn.
  rewrite (read_Some _ _ _ H (parse_nonempty _ _ Hp)).
  rewrite truthy_Some by (eapply parse_nonempty; eauto). cbn.
  rewrite Hp. cbn.
  destruct (Z.gtb_spec (clock w - cached_timestamp c) CACHE_EXPIRY_MS); [lia|].
  reflexivity.
Qed.

End CacheProperties.

(** ** The storage adapter *)

Section StorageProperties.
Context {J : JSON} (env : Env).

Lemma add_sizes_run keys total w :
  Storage.add_sizes env keys total w
  = (Ok (total + foldr (fun key acc => entry_size env (storage w) key + acc) 0 keys), w).
Proof.
  revert total. induction keys as [|key keys IH]; intros total; cbn.
  - unfold ret. do 2 f_equal. lia.
  - unfold bind, Storage.getItem, get. cbn. unfold entry_size at 1.
    destruct (Js.truthy (Storage.read env (storage w) key)); rewrite IH; do 2 f_equal; lia.
Qed.

Lemma getSize_run w : Storage.getSize env w = (Ok (stored_size env (storage w)), w).
Proof.
  unfold Storage.getSize, bind, Storage.getAllKeys, get. cbn.
  rewrite add_sizes_run. reflexivity.
Qed.

Lemma collect_items_run keys items w :
  Storage.collect_items env keys items w
  = (Ok (items ++ omap (fun key => pair key <$> timestamp_at env (storage w) key) keys)%list, w).
Proof.
  revert items. induction keys as [|key keys IH]; intros items; cbn.
  - unfold ret. by rewrite app_nil_r.
  - unfold bind, Storage.getItem, get. cbn. unfold timestamp_at at 1.
    destruct (Js.truthy (Storage.read env (storage w) key)); cbn; [|apply IH].
    destruct (JSON_parse (default "" (Storage.read env (storage w) key)) ≫= timestamp_of)
      as [t|]; cbn; [|apply IH].
    destruct (t =? 0); cbn; [apply IH|]. rewrite IH. by rewrite <- app_assoc.
Qed.

Lemma foldr_delete_first (m : gmap string string) key keys :
  foldr delete (delete key m) keys = delete key (foldr delete m keys).
Proof. symmetry. apply delete_foldr_delete. Qed.

Lemma multiRemove_run keys w :
  Storage.multiRemove keys w = (Ok tt, set_storage (fun m => foldr delete m keys) w).
Proof.
  revert w. induction keys as [|key keys IH]; intros w; cbn.
  - by destruct w.
  - unfold bind, Storage.removeItem, modify. cbn. rewrite IH. cbn.
    unfold set_storage. cbn. by rewrite foldr_delete_first.
Qed.

Lemma cleanupOldItems_run w :
  Storage.cleanupOldItems env w = (Ok tt, set_storage (evict env) w).
Proof.
  unfold Storage.cleanupOldItems, bind, Storage.getAllKeys, get. cbn.
  rewrite collect_items_run. cbn. rewrite multiRemove_run. reflexivity.
Qed.

Lemma setItem_run key value w :
  Storage.setItem env key value w
  = if over_budget env (storage w) value then
      if over_budget env (evict env (storage w)) value
      then (Throw (mkError StorageError "Storage size limit exceeded"),
            set_storage (evict env) w)
      else (Ok tt, set_storage (insert key value) (set_storage (evict env) w))
    else (Ok tt, set_storage (insert key value) w).
Proof.
  unfold Storage.setItem, over_budget. unfold bind at 1. rewrite getSize_run.
  destruct (stored_size env (storage w) + strlen value >? STORAGE_SIZE_LIMIT); [|reflexivity].
  unfold bind. rewrite cleanupOldItems_run, getSize_run. cbn.
  destruct (stored_size env (evict env (storage w)) + strlen value >? STORAGE_SIZE_LIMIT);
    reflexivity.
Qed.

#[local] Instance older_or_same_trans : Transitive older_or_same.
Proof. intros a b c. unfold older_or_same. lia. Qed.
#[local] Instance older_or_same_total : Total older_or_same.
Proof. intros a b. unfold older_or_same. lia. Qed.

Lemma fifth_up_le n : (Storage.fifth_up n <= n)%nat.
Proof. unfold Storage.fifth_up. destruct n; [reflexivity|]. apply Nat2Z.inj_le. rewrite Z2Nat.id; [|apply Z.div_pos; lia]. apply Z.div_le_upper_bound; lia. Qed.

Lemma evict_oldest_fifth m : oldest_fifth_evicted env m (evict env m).
Proof.
  set (items := timestamped env m).
  set (sorted := merge_sort older_or_same items).
  set (n := Storage.fifth_up (length items)).
  exists (take n sorted), (drop n sorted).
  assert (Hperm : sorted ≡ₚ items) by apply merge_sort_Permutation.
  repeat split.
  - rewrite take_drop. exact Hperm.
  - rewrite length_take. apply Nat.min_l. rewrite Hperm. apply fifth_up_le.
  - intros a b Ha Hb.
    pose proof (StronglySorted_merge_sort older_or_same items) as Hs.
    fold sorted in Hs. rewrite <- (take_drop n sorted) in Hs.
    exact (StronglySorted_app_1_elem_of _ _ _ _ _ Hs Ha Hb).
  - intros key Hkey. unfold evict, evicted_keys. fold items sorted n.
    by apply lookup_foldr_delete.
  - intros key Hkey. unfold evict, evicted_keys. fold items sorted n.
    by apply lookup_foldr_delete_not_elem_of.
Qed.

End StorageProperties.

(** ** Rate limits *)

Lemma enforceRateLimit_run w : enforceRateLimit w = (Ok tt, after_spacing w).
Proof.
  unfold enforceRateLimit, after_spacing, bind, Date_now, get, sleep, emit, modify. cbn.
  destruct ((clock w - lastApiCallTime w <? API_RATE_LIMIT_MS) && (lastApiCallTime w >? 0));
    reflexivity.
Qed.

Lemma after_spacing_replies w : replies (after_spacing w) = replies w.
Proof. unfold after_spacing. by destruct (_ && _). Qed.

Lemma after_spacing_online w : navigator_onLine (after_spacing w) = navigator_onLine w.
Proof. unfold after_spacing. by destruct (_ && _). Qed.

Lemma api_attempt_429 endpoint params w retryAfter body rest :
  navigator_onLine w = true ->
  replies w = FetchResponse 429 retryAfter body :: rest ->
  api_attempt endpoint params w
  = (Ok RateLimited, after_rate_limited (api_url endpoint params) retryAfter rest w).
Proof.
  intros Hon Hr. unfold api_attempt, try_catch. unfold bind at 1.
  rewrite enforceRateLimit_run. unfold bind at 1. unfold get at 1.
  rewrite after_spacing_online, Hon. cbn [negb].
  unfold bind at 1. unfold fetch, bind at 1, emit, modify. unfold bind at 1, get. cbn.
  rewrite after_spacing_replies, Hr. unfold bind, modify, ret. cbn.
  unfold sleep, bind, emit, modify, ret. cbn. reflexivity.
Qed.

Lemma api_attempt_rate_limited_inv endpoint params w w' :
  api_attempt endpoint params w = (Ok RateLimited, w') ->
  exists retryAfter body rest,
    navigator_onLine w = true /\
    replies w = FetchResponse 429 retryAfter body :: rest /\
    w' = after_rate_limited (api_url endpoint params) retryAfter rest w.
Proof.
  intros H.
  destruct (navigator_onLine w) eqn:Hon.
  - destruct (replies w) as [|[|status h body] rest] eqn:Hr.
    + exfalso. revert H. unfold api_attempt, try_catch. unfold bind at 1.
      rewrite enforceRateLimit_run. unfold bind at 1. unfold get at 1.
      rewrite after_spacing_online, Hon. cbn [negb].
      unfold bind at 1. unfold fetch, bind at 1, emit, modify. unfold bind at 1, get. cbn.
      rewrite after_spacing_replies, Hr. unfold throw. cbn. discriminate.
    + exfalso. revert H. unfold api_attempt, try_catch. unfold bind at 1.
      rewrite enforceRateLimit_run. unfold bind at 1. unfold get at 1.
      rewrite after_spacing_online, Hon. cbn [negb].
      unfold bind at 1. unfold fetch, bind at 1, emit, modify. unfold bind at 1, get. cbn.
      rewrite after_spacing_replies, Hr. unfold bind, modify, throw. cbn. discriminate.
    + destruct (Z.eqb_spec status 429) as [->|Hne].
      * rewrite (api_attempt_429 _ _ _ _ _ _ Hon Hr) in H. injection H as <-. eauto 6.
      * exfalso. revert H. unfold api_attempt, try_catch. unfold bind at 1.
        rewrite enforceRateLimit_run. unfold bind at 1. unfold get at 1.
        rewrite after_spacing_online, Hon. cbn [negb].
        unfold bind at 1. unfold fetch, bind at 1, emit, modify. unfold bind at 1, get. cbn.
        rewrite after_spacing_replies, Hr. unfold bind, modify, ret. cbn.
        destruct (Z.eqb_spec status 429); [contradiction|].
        destruct ((200 <=? status) && (status <=? 299)); cbn.
        -- destruct body; unfold ret, throw; cbn; discriminate.
        -- repeat (match goal with |- context [if ?b then _ else _] => destruct b end;
                   unfold throw; cbn; try discriminate).
  - exfalso. revert H. unfold api_attempt, try_catch. unfold bind at 1.
    rewrite enforceRateLimit_run. unfold bind at 1. unfold get at 1.
    rewrite after_spacing_online, Hon. unfold throw. cbn. discriminate.
Qed.

Lemma api_attempt_final endpoint params w r rest :
  navigator_onLine w = true ->
  replies w = r :: rest ->
  is_rate_limit_reply r = false ->
  api_attempt endpoint params w
  = (match final_answer endpoint r with Ok data => Ok (Answered data) | Throw e => Throw e end,
     after_answer (api_url endpoint params) rest w).
Proof.
  intros Hon Hr Hnot. unfold api_attempt, try_catch. unfold bind at 1.
  rewrite enforceRateLimit_run. unfold bind at 1. unfold get at 1.
  rewrite after_spacing_online, Hon. cbn [negb].
  unfold bind at 1. unfold fetch, bind at 1, emit, modify. unfold bind at 1, get. cbn.
  rewrite after_spacing_replies, Hr.
  destruct r as [|status h body]; cbn.
  - reflexivity.
  - cbn in Hnot. rewrite Hnot.
    destruct ((200 <=? status) && (status <=? 299)); cbn.
    + destruct body; reflexivity.
    + repeat (match goal with |- context [if ?b then _ else _] => destruct b end; cbn;
              try reflexivity).
Qed.

Lemma after_rate_limited_replies url h rest w :
  replies (after_rate_limited url h rest w) = rest.
Proof. reflexivity. Qed.

Lemma after_rate_limited_online url h rest w :
  navigator_onLine (after_rate_limited url h rest w) = navigator_onLine w.
Proof. unfold after_rate_limited. cbn. apply after_spacing_online. Qed.

Lemma makeApiRequest_from_step depth endpoint params w :
  makeApiRequest_from depth endpoint params w
  = match api_attempt endpoint params w with
    | (Ok (Answered data), w') => (Ok data, w')
    | (Ok RateLimited, w') =>
        match depth with
        | S depth' => makeApiRequest_from depth' endpoint params w'
        | O => (Throw (mkError NetworkError "Network error while making API request"), w')
        end
    | (Throw e, w') => (Throw e, w')
    end.
Proof.
  destruct depth; cbn; unfold bind;
    destruct (api_attempt endpoint params w) as [[[data|]|e] w']; reflexivity.
Qed.

(** The depth is never used up. *)
Lemma makeApiRequest_from_enough depth endpoint params w :
  (length (replies w) <= depth)%nat ->
  makeApiRequest_from depth endpoint params w = makeApiRequest endpoint params w.
Proof.
  unfold makeApiRequest.
  remember (length (replies w)) as n eqn:Hn.
  revert depth w Hn. induction n as [|n IH]; intros depth w Hn Hle.
  - rewrite !makeApiRequest_from_step.
    destruct (api_attempt endpoint params w) as [[[data|]|e] w'] eqn:Ha; try reflexivity.
    apply api_attempt_rate_limited_inv in Ha as (h & b & rest & _ & Hr & _).
    rewrite Hr in Hn. discriminate.
  - rewrite !makeApiRequest_from_step.
    destruct (api_attempt endpoint params w) as [[[data|]|e] w'] eqn:Ha; try reflexivity.
    apply api_attempt_rate_limited_inv in Ha as (h & b & rest & _ & Hr & ->).
    rewrite Hr in Hn. cbn in Hn. injection Hn as Hn.
    destruct depth as [|depth]; [lia|].
    apply IH; [by rewrite after_rate_limited_replies | lia].
Qed.

(** After a 429 answer and the wait, the request is made afresh. *)
Lemma makeApiRequest_429 endpoint params w retryAfter body rest :
  navigator_onLine w = true ->
  replies w = FetchResponse 429 retryAfter body :: rest ->
  makeApiRequest endpoint params w
  = makeApiRequest endpoint params
      (after_rate_limited (api_url endpoint params) retryAfter rest w).
Proof.
  intros Hon Hr. unfold makeApiRequest at 1. rewrite makeApiRequest_from_step.
  rewrite (api_attempt_429 _ _ _ _ _ _ Hon Hr). rewrite Hr. cbn [length].
  apply makeApiRequest_from_enough. by rewrite after_rate_limited_replies.
Qed.

Lemma makeApiRequest_final endpoint params w r rest :
  navigator_onLine w = true ->
  replies w = r :: rest ->
  is_rate_limit_reply r = false ->
  makeApiRequest endpoint params w
  = (final_answer endpoint r, after_answer (api_url endpoint params) rest w).
Proof.
  intros Hon Hr Hnot. unfold makeApiRequest. rewrite makeApiRequest_from_step.
  rewrite (api_attempt_final _ _ _ _ _ Hon Hr Hnot).
  destruct (final_answer endpoint r); reflexivity.
Qed.

Lemma after_spacing_trace w :
  exists pre, trace (after_spacing w) = (trace w ++ pre)%list /\ fetch_count pre = 0%nat.
Proof.
  unfold after_spacing. destruct (_ && _); cbn.
  - eexists. split; [reflexivity|reflexivity].
  - exists []. by rewrite app_nil_r.
Qed.

Lemma fetch_count_app t1 t2 : fetch_count (t1 ++ t2) = (fetch_count t1 + fetch_count t2)%nat.
Proof. unfold fetch_count. by rewrite List.filter_app, length_app. Qed.

Lemma after_spacing_pause w :
  exists pause,
    trace (after_spacing w) = (trace w ++ pause)%list /\
    is_pause pause /\ fetch_count pause = 0%nat /\
    clock w <= clock (after_spacing w).
Proof.
  unfold after_spacing, API_RATE_LIMIT_MS.
  destruct (Z.ltb_spec (clock w - lastApiCallTime w) 1000); cbn [andb].
  - destruct (lastApiCallTime w >? 0); cbn.
    + eexists. split; [reflexivity|]. split; [|split; [reflexivity|lia]].
      right. eexists. split; [|reflexivity]. lia.
    + exists []. rewrite app_nil_r. repeat split; [by left|lia].
  - exists []. cbn. rewrite app_nil_r. repeat split; [by left|lia].
Qed.

Lemma same_outcome_refl r : same_outcome r r.
Proof. by destruct r. Qed.

(** The events of a run of 429 answers, with the waits as the code takes
    them. *)
Lemma makeApiRequest_rounds endpoint params
    (limited : list (option string * option ApiData)) r rest w :
  navigator_onLine w = true ->
  replies w = ((limited_reply <$> limited) ++ r :: rest)%list ->
  is_rate_limit_reply r = false ->
  let url := api_url endpoint params in
  let w' := (makeApiRequest endpoint params w).2 in
  exists pauses last,
    length pauses = length limited /\
    Forall is_pause (last :: pauses) /\
    trace w'
    = (trace w ++ limited_rounds url rate_limit_wait pauses limited
         ++ last ++ [EvFetch url])%list /\
    fetch_count (limited_rounds url rate_limit_wait pauses limited ++ last ++ [EvFetch url])
    = S (length limited) /\
    clock w + total_wait (fun h => Z.max 0 (rate_limit_wait h)) limited <= clock w' /\
    replies w' = rest /\
    (makeApiRequest endpoint params w).1 = final_answer endpoint r.
Proof.
  intros Hon Hr Hnot. cbv zeta.
  revert w Hon Hr. induction limited as [|[h b] limited IH]; intros w Hon Hr.
  - cbn in Hr. rewrite (makeApiRequest_final _ _ _ _ _ Hon Hr Hnot). cbn [fst snd].
    destruct (after_spacing_pause w) as (pause & Hpause & Hshape & Hcount & Hclock).
    exists [], pause. cbn [limited_rounds length app total_wait foldr].
    split; [reflexivity|]. split; [apply Forall_cons_2; [exact Hshape|apply Forall_nil_2]|].
    split; [unfold after_answer; cbn; by rewrite Hpause, <- app_assoc|].
    split; [by rewrite fetch_count_app, Hcount|].
    split; [unfold after_answer; cbn; lia|].
    split; reflexivity.
  - cbn in Hr. rewrite (makeApiRequest_429 _ _ _ _ _ _ Hon Hr).
    set (w1 := after_rate_limited _ _ _ _).
    destruct (IH w1) as (pauses & last & Hlen & Hshapes & Ht & Hcount & Hclock & Hrest & Hres).
    { unfold w1. by rewrite after_rate_limited_online. }
    { unfold w1. by rewrite after_rate_limited_replies. }
    destruct (after_spacing_pause w) as (pause & Hpause & Hshape & Hpc & Hpclock).
    exists (pause :: pauses), last. cbn [limited_rounds length total_wait foldr fst].
    split; [by rewrite Hlen|].
    split.
    { apply Forall_cons in Hshapes as [Hlast Hrestshapes].
      by repeat (apply Forall_cons_2; [assumption|]). }
    split.
    { rewrite Ht. unfold w1, after_rate_limited. cbn. rewrite Hpause.
      rewrite <- !app_assoc. reflexivity. }
    split.
    { rewrite <- !app_assoc. rewrite fetch_count_app, Hpc. cbn [app].
      change (EvFetch (api_url endpoint params)
                :: EvSleep (rate_limit_wait h)
                :: limited_rounds (api_url endpoint params) rate_limit_wait pauses limited
                   ++ last ++ [EvFetch (api_url endpoint params)])%list
        with ([EvFetch (api_url endpoint params); EvSleep (rate_limit_wait h)]
                ++ (limited_rounds (api_url endpoint params) rate_limit_wait pauses limited
                      ++ last ++ [EvFetch (api_url endpoint params)]))%list.
      rewrite fetch_count_app, Hcount. reflexivity. }
    split.
    { etrans; [|exact Hclock]. unfold w1, after_rate_limited. cbn.
      fold (total_wait (fun h => Z.max 0 (rate_limit_wait h)) limited). lia. }
    split; [exact Hrest|exact Hres].
Qed.

(** *** The header as a number of seconds *)

Lemma is_digit_value c :
  is_digit c = true -> ParseInt.digit 10 c = Some (Z.of_nat (Ascii.nat_of_ascii c) - 48).
Proof.
  intros Hc. unfold is_digit in Hc. unfold ParseInt.digit. cbv zeta in *. rewrite Hc.
  apply andb_true_iff in Hc as [H1 H2]. apply Z.leb_le in H1, H2.
  destruct (Z.ltb_spec (Z.of_nat (Ascii.nat_of_ascii c) - 48) 10); [reflexivity|lia].
Qed.

Lemma decimal_from_digits s acc n :
  decimal_from s acc = Some n -> ParseInt.digits 10 s (Some acc) = Some n.
Proof.
  revert acc. induction s as [|c s IH]; intros acc; cbn [decimal_from ParseInt.digits].
  - by intros [= ->].
  - destruct (is_digit c) eqn:Hc; [|discriminate].
    rewrite (is_digit_value c Hc). cbn [default from_option id]. apply IH.
Qed.

Lemma decimal_from_nonneg s acc n : decimal_from s acc = Some n -> 0 <= acc -> 0 <= n.
Proof.
  revert acc. induction s as [|c s IH]; intros acc; cbn [decimal_from].
  - intros [= ->]. auto.
  - destruct (is_digit c) eqn:Hc; [|discriminate]. intros Hn Hacc.
    apply (IH _ Hn). unfold is_digit in Hc. cbv zeta in Hc.
    apply andb_true_iff in Hc as [H1 H2]. apply Z.leb_le in H1, H2. lia.
Qed.

Lemma decimal_digits s n : decimal s = Some n -> ParseInt.digits 10 s None = Some n.
Proof.
  destruct s as [|c s]; [discriminate|]. unfold decimal. cbn [decimal_from ParseInt.digits].
  destruct (is_digit c) eqn:Hc; [|discriminate]. rewrite (is_digit_value c Hc).
  cbn [default from_option id]. apply decimal_from_digits.
Qed.

(** Decide [is_space] on the characters at hand. *)
Ltac spaces_off :=
  repeat match goal with
         | |- context [ParseInt.is_space ?c] =>
             let b := eval vm_compute in (ParseInt.is_space c) in
             change (ParseInt.is_space c) with b
         end.

(** [parseInt] reads a decimal numeral as its number. *)
Lemma parseInt_decimal s n : decimal s = Some n -> ParseInt.parseInt s = Some n.
Proof.
  intros Hn. pose proof (decimal_digits s n Hn) as Hdigits.
  destruct s as [|c s]; [discriminate|]. unfold decimal in Hn.
  cbn [decimal_from] in Hn. destruct (is_digit c) eqn:Hc; [|discriminate].
  destruct (Ascii.ascii_dec c "0") as [->|Hnot0].
  - (* a leading zero is followed by a digit or by nothing *)
    destruct s as [|c' s].
    + cbn in Hn. injection Hn as <-. reflexivity.
    + cbn [decimal_from] in Hn. destruct (is_digit c') eqn:Hc'; [|discriminate].
      unfold ParseInt.parseInt.
      destruct c' as [[] [] [] [] [] [] [] []]; try discriminate;
        cbn [ParseInt.skip_spaces]; spaces_off; cbv iota beta zeta;
        rewrite Hdigits; cbn; by destruct n.
  - unfold ParseInt.parseInt.
    destruct c as [[] [] [] [] [] [] [] []]; try discriminate; try contradiction;
      cbn [ParseInt.skip_spaces]; spaces_off; cbv iota beta zeta;
      rewrite Hdigits; cbn; by destruct n.
Qed.

Lemma rate_limit_wait_retry_after h n :
  retry_after h = Some n -> rate_limit_wait h = retry_after_ms h /\ 0 <= retry_after_ms h.
Proof.
  unfold retry_after_ms. intros Hn. rewrite Hn. cbn [default from_option id].
  destruct h as [s|]; cbn [retry_after] in Hn.
  - assert (Hs : s <> "") by (intros ->; discriminate).
    unfold rate_limit_wait. rewrite truthy_Some by exact Hs. cbn [default from_option id].
    rewrite (parseInt_decimal s n Hn). split; [lia|].
    destruct s as [|c s]; [discriminate|]. unfold decimal in Hn.
    pose proof (decimal_from_nonneg _ _ _ Hn). lia.
  - injection Hn as <-. split; [reflexivity|discriminate].
Qed.

Lemma limited_rounds_ext url wait wait' pauses limited :
  Forall (fun hb : option string * option ApiData => wait hb.1 = wait' hb.1) limited ->
  limited_rounds url wait pauses limited = limited_rounds url wait' pauses limited.
Proof.
  intros Hsame. revert pauses. induction Hsame as [|hb limited Hhb _ IH]; intros pauses.
  - by destruct pauses.
  - destruct pauses as [|pause pauses]; [reflexivity|]. cbn. by rewrite Hhb, IH.
Qed.

Lemma total_wait_ext wait wait' limited :
  Forall (fun hb : option string * option ApiData => wait hb.1 = wait' hb.1) limited ->
  total_wait wait limited = total_wait wait' limited.
Proof.
  induction 1 as [|hb limited Hhb _ IH]; [reflexivity|].
  unfold total_wait in *. cbn [foldr]. by rewrite Hhb, IH.
Qed.

(** C9, as amended: [makeApiRequest] repeats the request after every 429
    answer, however many there are in a row.  When the answers are a run of
    429 answers followed by an answer that is not one, and each 429 answer
    asks for a number of seconds (or has no header, which stands for five),
    the events are, in this order and with nothing else between them: for
    each 429 answer the pause of the rate limit, if any, the request, and a
    wait of the seconds its header asks for; then, after a last pause, one
    more request.  The clock has advanced by all the waits at least, and what
    is returned or thrown is what the answer that is not a 429 gives, up to
    the text of an error message.  The waits are ones a timer can hold. *)
Theorem makeApiRequest_retries_every_429 endpoint params
    (limited : list (option string * option ApiData)) r rest w :
  navigator_onLine w = true ->
  replies w = ((limited_reply <$> limited) ++ r :: rest)%list ->
  is_rate_limit_reply r = false ->
  Forall (fun hb => is_Some (retry_after hb.1) /\ retry_after_ms hb.1 <= MAX_TIMER_DELAY)
    limited ->
  let url := api_url endpoint params in
  let w' := (makeApiRequest endpoint params w).2 in
  exists pauses last,
    length pauses = length limited /\
    Forall is_pause (last :: pauses) /\
    trace w'
    = (trace w ++ limited_rounds url retry_after_ms pauses limited
         ++ last ++ [EvFetch url])%list /\
    fetch_count (limited_rounds url retry_after_ms pauses limited ++ last ++ [EvFetch url])
    = S (length limited) /\
    clock w + total_wait retry_after_ms limited <= clock w' /\
    replies w' = rest /\
    same_outcome (makeApiRequest endpoint params w).1 (final_answer endpoint r).
Proof.
  intros Hon Hr Hnot Hseconds. cbv zeta.
  destruct (makeApiRequest_rounds endpoint params limited r rest w Hon Hr Hnot)
    as (pauses & last & Hlen & Hshapes & Ht & Hcount & Hclock & Hrest & Hres).
  assert (Hwait : Forall (fun hb : option string * option ApiData =>
                            rate_limit_wait hb.1 = retry_after_ms hb.1) limited).
  { eapply Forall_impl; [exact Hseconds|]. intros hb [[n Hn] _].
    by destruct (rate_limit_wait_retry_after _ _ Hn). }
  assert (Hmax : Forall (fun hb : option string * option ApiData =>
                           Z.max 0 (rate_limit_wait hb.1) = retry_after_ms hb.1) limited).
  { eapply Forall_impl; [exact Hseconds|]. intros hb [[n Hn] _].
    destruct (rate_limit_wait_retry_after _ _ Hn) as [-> Hpos]. lia. }
  rewrite (limited_rounds_ext _ _ _ _ _ Hwait) in Ht, Hcount.
  rewrite (total_wait_ext _ _ _ Hmax) in Hclock.
  exists pauses, last. rewrite Hres. repeat split; try assumption.
  apply same_outcome_refl.
Qed.

(** Answered 429 twice, [makeApiRequest] makes three requests, not two. *)
Lemma makeApiRequest_retries_twice : ~ retries_exactly_once.
Proof.
  intros H.
  destruct (makeApiRequest "product/1.json" [] twice_limited_world) as [r w'] eqn:E.
  destruct (H _ _ twice_limited_world _ _ _ r w' eq_refl eq_refl E) as (t & Ht & Hcount).
  vm_compute in E. injection E as _ <-.
  cbn in Ht. subst t. vm_compute in Hcount. discriminate.
Qed.

(** ** The stored queue *)

Lemma isNetworkAvailable_run w :
  isNetworkAvailable w = (Ok (navigator_onLine w), after_network_check w).
Proof.
  unfold isNetworkAvailable, after_network_check, initNetworkListeners, bind, get, modify, ret.
  cbn. destruct (networkListenersInitialized w) eqn:E; cbn; rewrite ?E; reflexivity.
Qed.

Section QueueProperties.
Context {J : JSON} (env : Env).

Lemma getOperationQueue_run w :
  getOperationQueue env w = (Ok (stored_queue env (storage w)), w).
Proof.
  unfold getOperationQueue, stored_queue, bind, Storage.getItem, get. cbn.
  destruct (Js.truthy (Storage.read env (storage w) QUEUE_STORAGE_KEY)); cbn; [|reflexivity].
  destruct (JSON_parse _) as [[| |]|]; reflexivity.
Qed.

Lemma saveOperationQueue_run queue w :
  saveOperationQueue env queue w = (Ok tt, set_storage (save_queue env queue) w).
Proof.
  unfold saveOperationQueue, try_catch, save_queue. rewrite setItem_run.
  destruct (over_budget env (storage w) _) eqn:E1.
  - destruct (over_budget env (evict env (storage w)) _) eqn:E2;
      unfold set_storage; cbn; rewrite E1, E2; reflexivity.
  - unfold set_storage; cbn; rewrite E1; reflexivity.
Qed.

Lemma start_processOperationQueue_run w :
  start_processOperationQueue w = (Ok tt, after_start w).
Proof.
  unfold start_processOperationQueue, processOperationQueue_enter, after_start.
  unfold bind at 1. unfold bind at 1. unfold get at 1.
  destruct (queueProcessorRunning w) eqn:Hrun; [reflexivity|].
  unfold bind at 1. rewrite isNetworkAvailable_run.
  destruct (navigator_onLine w) eqn:Hon; reflexivity.
Qed.

(** The store after the write holds the new queue, if the write went through,
    and the old one otherwise. *)
Lemma evict_queue_key m :
  stored_queue env (evict env m) = stored_queue env m.
Proof.
  unfold stored_queue.
  destruct (decide (QUEUE_STORAGE_KEY ∈ evicted_keys env m)) as [Hin|Hnot].
  - assert (Hnone : evict env m !! QUEUE_STORAGE_KEY = None)
      by (by apply lookup_foldr_delete).
    rewrite (read_None env _ _ Hnone). cbn.
    (* an evicted key holds a timestamped value, which is no queue *)
    unfold evicted_keys in Hin.
    apply list_elem_of_fmap in Hin as ([key t] & -> & Hin).
    apply elem_of_take in Hin as (i & Hin & _).
    apply list_elem_of_lookup_2 in Hin.
    rewrite merge_sort_Permutation in Hin.
    unfold timestamped in Hin. apply list_elem_of_omap in Hin as (k & _ & Hk).
    destruct (timestamp_at env m k) as [t'|] eqn:Ht; [|discriminate].
    cbn in Hk. injection Hk as -> ->. unfold timestamp_at in Ht.
    destruct (Js.truthy (Storage.read env m _)); cbn; [|reflexivity].
    destruct (JSON_parse (default "" (Storage.read env m _)))
      as [[| |]|]; try reflexivity.
    cbn in Ht. discriminate.
  - unfold Storage.read. unfold evict.
    by rewrite (lookup_foldr_delete_not_elem_of m _ _ Hnot).
Qed.

Lemma stored_queue_insert queue m :
  stored_queue env (<[QUEUE_STORAGE_KEY := JSON_stringify (VQueue queue)]> m) = queue.
Proof.
  unfold stored_queue.
  rewrite (read_Some env _ _ (JSON_stringify (VQueue queue)));
    [|apply lookup_insert_eq|apply JSON_stringify_nonempty].
  rewrite truthy_Some by apply JSON_stringify_nonempty. cbn.
  by rewrite JSON_parse_stringify.
Qed.

Lemma stored_queue_save queue m :
  stored_queue env (save_queue env queue m)
  = if queue_write_fits env m queue then queue else stored_queue env m.
Proof.
  unfold save_queue, queue_write_fits.
  destruct (over_budget env m _); cbn.
  - destruct (over_budget env (evict env m) _); cbn.
    + apply evict_queue_key.
    + apply stored_queue_insert.
  - apply stored_queue_insert.
Qed.

Lemma find_findIndex operationId (queue : list QueuedOperation.t) :
  match List.find (fun op => String.eqb (QueuedOperation.id op) operationId) queue with
  | Some op => exists index, findIndex operationId queue = Some index /\ queue !! index = Some op
  | None => findIndex operationId queue = None
  end.
Proof.
  induction queue as [|op queue IH]; cbn; [reflexivity|].
  destruct (String.eqb (QueuedOperation.id op) operationId).
  - exists 0%nat. split; reflexivity.
  - destruct (List.find _ queue) as [op'|].
    + destruct IH as (index & -> & Hl). exists (S index). split; [reflexivity|exact Hl].
    + rewrite IH. reflexivity.
Qed.

Lemma updateOperation_found operationId updates w index old :
  findIndex operationId (stored_queue env (storage w)) = Some index ->
  stored_queue env (storage w) !! index = Some old ->
  updateOperation env operationId updates w
  = (Ok (Some (apply_updates old updates (clock w))),
     after_update env (stored_queue env (storage w)) index
       (apply_updates old updates (clock w)) w).
Proof.
  intros Hi Hold. unfold updateOperation. unfold bind at 1. rewrite getOperationQueue_run.
  rewrite Hi, Hold. unfold bind at 1. unfold Date_now, get.
  unfold bind at 1. rewrite saveOperationQueue_run.
  unfold notifyQueueEventListeners, bind, emit, modify, ret. reflexivity.
Qed.

Lemma updateOperation_missing operationId updates w :
  findIndex operationId (stored_queue env (storage w)) = None ->
  updateOperation env operationId updates w = (Ok None, w).
Proof.
  intros Hi. unfold updateOperation. unfold bind at 1. rewrite getOperationQueue_run.
  rewrite Hi. reflexivity.
Qed.

End QueueProperties.

Section RetryProperties.
Context {J : JSON} (env : Env).

Lemma after_start_storage w : storage (after_start w) = storage w.
Proof.
  unfold after_start, after_network_check.
  destruct (queueProcessorRunning w), (navigator_onLine w), (networkListenersInitialized w);
    reflexivity.
Qed.

Lemma after_network_check_storage w : storage (after_network_check w) = storage w.
Proof. unfold after_network_check. destruct (networkListenersInitialized w); reflexivity. Qed.

Lemma retryOperation_not_failed operationId w :
  match List.find (fun op => String.eqb (QueuedOperation.id op) operationId)
          (stored_queue env (storage w)) with
  | Some op => QueuedOperation.status op <> FAILED
  | None => True
  end ->
  retryOperation env operationId w = (Ok None, w).
Proof.
  intros H. unfold retryOperation. unfold bind at 1. rewrite getOperationQueue_run.
  destruct (List.find _ _) as [op|]; [|reflexivity].
  destruct (QueuedOperation.status op); try reflexivity. contradiction.
Qed.

Lemma retryOperation_failed_run operationId w op index :
  List.find (fun op => String.eqb (QueuedOperation.id op) operationId)
    (stored_queue env (storage w)) = Some op ->
  QueuedOperation.status op = FAILED ->
  findIndex operationId (stored_queue env (storage w)) = Some index ->
  stored_queue env (storage w) !! index = Some op ->
  let op' := apply_updates op reset_for_retry (clock w) in
  let w1 := after_update env (stored_queue env (storage w)) index op' w in
  retryOperation env operationId w
  = (Ok (Some op'),
     if navigator_onLine w1 then after_start (after_network_check w1)
     else after_network_check w1).
Proof.
  intros Hfind Hst Hi Hl. cbn zeta.
  unfold retryOperation. unfold bind at 1. rewrite getOperationQueue_run.
  rewrite Hfind, Hst. cbn [status_eqb negb].
  unfold bind at 1. rewrite (updateOperation_found env _ _ _ _ _ Hi Hl).
  unfold bind at 1. rewrite isNetworkAvailable_run.
  unfold bind at 1.
  destruct (navigator_onLine (after_update env _ _ _ w)) eqn:Hon.
  - rewrite start_processOperationQueue_run. reflexivity.
  - reflexivity.
Qed.

Lemma retryOperation_failed operationId w op :
  List.find (fun op => String.eqb (QueuedOperation.id op) operationId)
    (stored_queue env (storage w)) = Some op ->
  QueuedOperation.status op = FAILED ->
  exists index,
    findIndex operationId (stored_queue env (storage w)) = Some index /\
    stored_queue env (storage w) !! index = Some op /\
    let op' := apply_updates op reset_for_retry (clock w) in
    let queue' := <[index := op']> (stored_queue env (storage w)) in
    (retryOperation env operationId w).1 = Ok (Some op') /\
    storage (retryOperation env operationId w).2 = save_queue env queue' (storage w).
Proof.
  intros Hfind Hst.
  pose proof (find_findIndex operationId (stored_queue env (storage w))) as Hfi.
  rewrite Hfind in Hfi. destruct Hfi as (index & Hi & Hl).
  exists index. split; [exact Hi|]. split; [exact Hl|]. cbn zeta.
  rewrite (retryOperation_failed_run _ _ _ _ Hfind Hst Hi Hl). cbn [fst snd].
  split; [reflexivity|].
  destruct (navigator_onLine _);
    rewrite ?after_start_storage, after_network_check_storage; reflexivity.
Qed.

End RetryProperties.

(** ** Single flight *)

Section OverlapProperties.
Context {J : JSON} (env : Env) (process : QueuedOperation.t -> M bool).

Lemma enter_while_running force w :
  queueProcessorRunning w = true ->
  processOperationQueue_enter force w = (Ok false, w).
Proof.
  intros H. unfold processOperationQueue_enter, bind, get. rewrite H. reflexivity.
Qed.

Lemma processOperationQueue_while_running force w :
  queueProcessorRunning w = true ->
  processOperationQueue_with env process force w = (Ok 0, w).
Proof.
  intros H. unfold processOperationQueue_with. unfold bind.
  rewrite (enter_while_running _ _ H). reflexivity.
Qed.

Lemma after_network_check_running w :
  queueProcessorRunning (after_network_check w) = queueProcessorRunning w.
Proof. unfold after_network_check. destruct (networkListenersInitialized w); reflexivity. Qed.

(** An entry either leaves the flag as it was and does not go on, or finds
    it down, raises it and goes on. *)
Lemma enter_flag force w entered w' :
  processOperationQueue_enter force w = (Ok entered, w') ->
  if entered
  then queueProcessorRunning w = false /\ queueProcessorRunning w' = true
  else queueProcessorRunning w' = queueProcessorRunning w.
Proof.
  unfold processOperationQueue_enter. unfold bind at 1. unfold get at 1.
  destruct (queueProcessorRunning w) eqn:Hrun.
  - intros [= <- <-]. by rewrite Hrun.
  - destruct force.
    + unfold bind, ret, modify. cbn. intros [= <- <-]. by split.
    + unfold bind at 1. rewrite isNetworkAvailable_run.
      destruct (navigator_onLine w); cbn.
      * unfold bind, ret, modify. cbn. intros [= <- <-]. by split.
      * intros [= <- <-]. by rewrite after_network_check_running.
Qed.

Lemma run_drops_flag force w r w' :
  processOperationQueue_run env process force w = (r, w') ->
  queueProcessorRunning w' = false.
Proof.
  unfold processOperationQueue_run, try_finally.
  destruct (try_catch _ _ w) as [r0 w0]. intros [= <- <-]. reflexivity.
Qed.

Lemma active_passes_insert (calls : list Invocation) i old new :
  calls !! i = Some old ->
  (active_passes (<[i := new]> calls) + (if is_active old then 1 else 0)
   = active_passes calls + (if is_active new then 1 else 0))%nat.
Proof.
  unfold active_passes. revert i. induction calls as [|c calls IH]; intros i Hi.
  - discriminate.
  - destruct i as [|i]; simpl in *.
    + injection Hi as ->. destruct (is_active old), (is_active new); simpl; lia.
    + specialize (IH i Hi). destruct (is_active c); simpl; lia.
Qed.

Lemma overlap_step_invariant c c' :
  overlap_step env process c c' -> flag_counts_passes c -> flag_counts_passes c'.
Proof.
  unfold flag_counts_passes.
  intros [i force w calls entered w' Hi He | i force w calls n w' Hi Hr | w calls w' Hflag];
    cbn [fst snd]; intros Hinv.
  - pose proof (active_passes_insert calls i _ (if entered then Active force else Returned 0) Hi)
      as Hc.
    apply enter_flag in He. destruct entered; cbn [is_active] in Hc.
    + destruct He as [H0 H1]. rewrite H0 in Hinv. rewrite H1. lia.
    + rewrite He. lia.
  - pose proof (active_passes_insert calls i _ (Returned n) Hi) as Hc. cbn [is_active] in Hc.
    rewrite (run_drops_flag _ _ _ _ Hr).
    destruct (queueProcessorRunning w); lia.
  - rewrite Hflag. exact Hinv.
Qed.

Lemma overlap_steps_invariant c c' :
  overlap_steps env process c c' -> flag_counts_passes c -> flag_counts_passes c'.
Proof.
  induction 1 as [|c1 c2 c3 Hstep _ IH]; [auto|].
  intros Hinv. apply IH. eapply overlap_step_invariant; eauto.
Qed.

End OverlapProperties.

(** ** Relations that every step of a computation keeps *)

Section Preserves.
Context (R : relation World) `{!Reflexive R, !Transitive R}.

Lemma preserves_ret {A} (a : A) : preserves R (ret a).
Proof. intros w. reflexivity. Qed.

Lemma preserves_throw {A} e : preserves R (@throw A e).
Proof. intros w. reflexivity. Qed.

Lemma preserves_get {A} (f : World -> A) : preserves R (get f).
Proof. intros w. reflexivity. Qed.

Lemma preserves_modify (f : World -> World) :
  (forall w, R w (f w)) -> preserves R (modify f).
Proof. intros H w. apply H. Qed.

Lemma preserves_bind {A B} (m : M A) (k : A -> M B) :
  preserves R m -> (forall a, preserves R (k a)) -> preserves R (bind m k).
Proof.
  intros Hm Hk w. unfold bind. specialize (Hm w).
  destruct (m w) as [[a|e] w1]; cbn in *; [|exact Hm].
  etrans; [exact Hm|apply Hk].
Qed.

Lemma preserves_try_catch {A} (m : M A) (h : Error -> M A) :
  preserves R m -> (forall e, preserves R (h e)) -> preserves R (try_catch m h).
Proof.
  intros Hm Hh w. unfold try_catch. specialize (Hm w).
  destruct (m w) as [[a|e] w1]; cbn in *; [exact Hm|].
  etrans; [exact Hm|apply Hh].
Qed.

Lemma preserves_try_finally {A} (m : M A) (f : World -> World) :
  preserves R m -> (forall w, R w (f w)) -> preserves R (try_finally m f).
Proof.
  intros Hm Hf w. unfold try_finally. specialize (Hm w).
  destruct (m w) as [r w1]; cbn in *. etrans; [exact Hm|apply Hf].
Qed.

End Preserves.

#[local] Instance trace_grows_refl : Reflexive trace_grows.
Proof. intros w. exists []. by rewrite app_nil_r. Qed.

#[local] Instance trace_grows_trans : Transitive trace_grows.
Proof.
  intros w1 w2 w3 (t1 & H1) (t2 & H2). exists (t1 ++ t2)%list.
  by rewrite H2, H1, app_assoc.
Qed.

#[local] Instance same_storage_refl : Reflexive same_storage.
Proof. intros w. reflexivity. Qed.

#[local] Instance same_storage_trans : Transitive same_storage.
Proof. intros w1 w2 w3 H1 H2. unfold same_storage in *. congruence. Qed.

Create HintDb preserves.

(** One field was written: the relation holds if it looks elsewhere, or if
    the field is the trace and something was added to it. *)
Ltac field_written :=
  intros;
  first [ by unfold same_storage
        | exists []; cbn; by rewrite app_nil_r
        | eexists; reflexivity ].

(** One step through a computation, by its shape; [written] closes the goal
    left by a write to one field of the world. *)
Ltac preserves_step_with written :=
  first
    [ solve [auto with preserves]
    | lazymatch goal with
      | |- preserves _ (ret _) => apply preserves_ret; apply _
      | |- preserves _ (throw _) => apply preserves_throw; apply _
      | |- preserves _ (get _) => apply preserves_get; apply _
      | |- preserves _ (modify _) => apply preserves_modify; written
      | |- preserves _ (bind _ _) => apply preserves_bind; [apply _| |intros]
      | |- preserves _ (try_catch _ _) => apply preserves_try_catch; [apply _| |intros]
      | |- preserves _ (if ?b then _ else _) => destruct b
      | |- preserves _ (match ?x with _ => _ end) => destruct x
      end
    | progress cbv beta zeta ].

Ltac preserves_step := preserves_step_with field_written.

Ltac preserves_auto := repeat preserves_step.

Lemma extends_emit e : extends (emit e).
Proof. intros w. exists [e]. reflexivity. Qed.
#[local] Hint Resolve extends_emit : preserves.

Lemma keeps_storage_emit e : preserves same_storage (emit e).
Proof. intros w. reflexivity. Qed.
#[local] Hint Resolve keeps_storage_emit : preserves.

Section Steps.
Context (R : relation World) `{!Reflexive R, !Transitive R}.
Context (emit_ok : forall e, preserves R (emit e)).
Context (clock_ok : forall w t, R w (set_clock t w)).
Context (calls_ok : forall w n, R w (set_calls n w)).
Context (background_ok : forall w l, R w (set_background l w)).
Context (isOnline_ok : forall w b, R w (set_isOnline b w)).
Context (initialized_ok : forall w b, R w (set_networkListenersInitialized b w)).
Context (lastApiCallTime_ok : forall w t, R w (set_lastApiCallTime t w)).
Context (replies_ok : forall w l, R w (set_replies l w)).
Context (running_ok : forall w b, R w (set_queueProcessorRunning b w)).
Context (timeout_ok : forall w t, R w (set_queueProcessorTimeout t w)).

#[local] Hint Resolve emit_ok : preserves.

Ltac steps :=
  repeat preserves_step_with
    ltac:(intros;
          first [ apply clock_ok | apply calls_ok | apply background_ok | apply isOnline_ok
                | apply initialized_ok | apply lastApiCallTime_ok | apply replies_ok
                | apply running_ok | apply timeout_ok ]).

Lemma preserves_sleep ms : preserves R (sleep ms).
Proof. unfold sleep. steps. Qed.
#[local] Hint Resolve preserves_sleep : preserves.

Lemma preserves_next_call : preserves R next_call.
Proof. unfold next_call. steps. Qed.
#[local] Hint Resolve preserves_next_call : preserves.

Lemma preserves_spawn t : preserves R (spawn t).
Proof. unfold spawn. steps. Qed.
#[local] Hint Resolve preserves_spawn : preserves.

Lemma preserves_initNetworkListeners : preserves R initNetworkListeners.
Proof. unfold initNetworkListeners. steps. Qed.
#[local] Hint Resolve preserves_initNetworkListeners : preserves.

Lemma preserves_isNetworkAvailable : preserves R isNetworkAvailable.
Proof. unfold isNetworkAvailable. steps. Qed.
#[local] Hint Resolve preserves_isNetworkAvailable : preserves.

Lemma preserves_enforceRateLimit : preserves R enforceRateLimit.
Proof. unfold enforceRateLimit, Date_now. steps. Qed.
#[local] Hint Resolve preserves_enforceRateLimit : preserves.

Lemma preserves_fetch url : preserves R (fetch url).
Proof. unfold fetch. steps. Qed.
#[local] Hint Resolve preserves_fetch : preserves.

Lemma preserves_api_attempt endpoint params : preserves R (api_attempt endpoint params).
Proof. unfold api_attempt. steps. Qed.
#[local] Hint Resolve preserves_api_attempt : preserves.

Lemma preserves_makeApiRequest_from depth endpoint params :
  preserves R (makeApiRequest_from depth endpoint params).
Proof. induction depth; cbn; steps. Qed.
#[local] Hint Resolve preserves_makeApiRequest_from : preserves.

Lemma preserves_makeApiRequest endpoint params :
  preserves R (makeApiRequest endpoint params).
Proof. intros w. unfold makeApiRequest. apply preserves_makeApiRequest_from. Qed.
#[local] Hint Resolve preserves_makeApiRequest : preserves.

Lemma preserves_fetchProductFromAPI barcode : preserves R (fetchProductFromAPI barcode).
Proof. unfold fetchProductFromAPI. steps. Qed.

Section WithEnv.
Context {J : JSON} (env : Env).

Lemma preserves_getCurrentUserId : preserves R (getCurrentUserId env).
Proof. unfold getCurrentUserId. steps. Qed.
#[local] Hint Resolve preserves_getCurrentUserId : preserves.

Lemma preserves_recordScan productId userId source :
  preserves R (recordScan env productId userId source).
Proof. unfold recordScan, Date_now. steps. Qed.
#[local] Hint Resolve preserves_recordScan : preserves.

Lemma preserves_recordScan_part003 productId userId source :
  preserves R (Part003.recordScan env productId userId source).
Proof. unfold Part003.recordScan, Date_now. steps. Qed.
#[local] Hint Resolve preserves_recordScan_part003 : preserves.

Lemma preserves_remote type data : preserves R (remote env type data).
Proof. unfold remote. steps. Qed.
#[local] Hint Resolve preserves_remote : preserves.

Lemma preserves_dispatch operation : preserves R (dispatch env operation).
Proof. unfold dispatch. steps. Qed.

Lemma preserves_dispatch_part003 operation : preserves R (Part003.dispatch env operation).
Proof. unfold Part003.dispatch. steps. Qed.

Lemma preserves_fill_template template : preserves R (fill_template env template).
Proof. induction template; cbn; steps. Qed.

Lemma preserves_generateUUID : preserves R (generateUUID env).
Proof. apply preserves_fill_template. Qed.

Lemma preserves_enter force : preserves R (processOperationQueue_enter force).
Proof. unfold processOperationQueue_enter. steps. Qed.
#[local] Hint Resolve preserves_enter : preserves.

Lemma preserves_start : preserves R start_processOperationQueue.
Proof. unfold start_processOperationQueue. steps. Qed.

End WithEnv.
End Steps.

(** The generic steps, at the two relations used below. *)
Ltac frame_side :=
  first [ apply _ | apply extends_emit | apply keeps_storage_emit | field_written ].

#[local] Hint Extern 1 (preserves _ (sleep _)) => (apply preserves_sleep; frame_side) : preserves.
#[local] Hint Extern 1 (preserves _ (next_call)) => (apply preserves_next_call; frame_side) : preserves.
#[local] Hint Extern 1 (preserves _ (spawn _)) => (apply preserves_spawn; frame_side) : preserves.
#[local] Hint Extern 1 (preserves _ (initNetworkListeners)) => (apply preserves_initNetworkListeners; frame_side) : preserves.
#[local] Hint Extern 1 (preserves _ (isNetworkAvailable)) => (apply preserves_isNetworkAvailable; frame_side) : preserves.
#[local] Hint Extern 1 (preserves _ (enforceRateLimit)) => (apply preserves_enforceRateLimit; frame_side) : preserves.
#[local] Hint Extern 1 (preserves _ (fetch _)) => (apply preserves_fetch; frame_side) : preserves.
#[local] Hint Extern 1 (preserves _ (api_attempt _ _)) => (apply preserves_api_attempt; frame_side) : preserves.
#[local] Hint Extern 1 (preserves _ (makeApiRequest_from _ _ _)) => (apply preserves_makeApiRequest_from; frame_side) : preserves.
#[local] Hint Extern 1 (preserves _ (makeApiRequest _ _)) => (apply preserves_makeApiRequest; frame_side) : preserves.
#[local] Hint Extern 1 (preserves _ (fetchProductFromAPI _)) => (apply preserves_fetchProductFromAPI; frame_side) : preserves.
#[local] Hint Extern 1 (preserves _ (getCurrentUserId _)) => (apply preserves_getCurrentUserId; frame_side) : preserves.
#[local] Hint Extern 1 (preserves _ (recordScan _ _ _ _)) => (apply preserves_recordScan; frame_side) : preserves.
#[local] Hint Extern 1 (preserves _ (Part003.recordScan _ _ _ _)) => (apply preserves_recordScan_part003; frame_side) : preserves.
#[local] Hint Extern 1 (preserves _ (remote _ _ _)) => (apply preserves_remote; frame_side) : preserves.
#[local] Hint Extern 1 (preserves _ (dispatch _ _)) => (apply preserves_dispatch; frame_side) : preserves.
#[local] Hint Extern 1 (preserves _ (Part003.dispatch _ _)) => (apply preserves_dispatch_part003; frame_side) : preserves.
#[local] Hint Extern 1 (preserves _ (fill_template _ _)) => (apply preserves_fill_template; frame_side) : preserves.
#[local] Hint Extern 1 (preserves _ (generateUUID _)) => (apply preserves_generateUUID; frame_side) : preserves.
#[local] Hint Extern 1 (preserves _ (processOperationQueue_enter _)) => (apply preserves_enter; frame_side) : preserves.
#[local] Hint Extern 1 (preserves _ (start_processOperationQueue)) => (apply preserves_start; frame_side) : preserves.

Section ExtendsService.
Context {J : JSON} (env : Env).

Lemma extends_getItem key : extends (Storage.getItem env key).
Proof. unfold Storage.getItem. preserves_auto. Qed.
#[local] Hint Resolve extends_getItem : preserves.

Lemma extends_removeItem key : extends (Storage.removeItem key).
Proof. unfold Storage.removeItem. preserves_auto. Qed.
#[local] Hint Resolve extends_removeItem : preserves.

Lemma extends_add_sizes keys total : extends (Storage.add_sizes env keys total).
Proof. revert total. induction keys; intros; cbn; preserves_auto. Qed.
#[local] Hint Resolve extends_add_sizes : preserves.

Lemma extends_collect_items keys items : extends (Storage.collect_items env keys items).
Proof. revert items. induction keys; intros; cbn; preserves_auto. Qed.
#[local] Hint Resolve extends_collect_items : preserves.

Lemma extends_multiRemove keys : extends (Storage.multiRemove keys).
Proof. induction keys; cbn; preserves_auto. Qed.
#[local] Hint Resolve extends_multiRemove : preserves.

Lemma extends_setItem key value : extends (Storage.setItem env key value).
Proof.
  unfold Storage.setItem, Storage.cleanupOldItems, Storage.getSize, Storage.getAllKeys.
  preserves_auto.
Qed.
#[local] Hint Resolve extends_setItem : preserves.

Lemma extends_saveToCache product : extends (saveToCache env product).
Proof. unfold saveToCache, Date_now. preserves_auto. Qed.
#[local] Hint Resolve extends_saveToCache : preserves.

Lemma extends_getFromCache barcode : extends (getFromCache env barcode).
Proof. unfold getFromCache, Date_now. preserves_auto. Qed.
#[local] Hint Resolve extends_getFromCache : preserves.

Lemma extends_getProductByBarcode barcode : extends (getProductByBarcode env barcode).
Proof. unfold getProductByBarcode. preserves_auto. Qed.
#[local] Hint Resolve extends_getProductByBarcode : preserves.

Lemma extends_getOperationQueue : extends (getOperationQueue env).
Proof. unfold getOperationQueue. preserves_auto. Qed.
#[local] Hint Resolve extends_getOperationQueue : preserves.

Lemma extends_saveOperationQueue queue : extends (saveOperationQueue env queue).
Proof. unfold saveOperationQueue. preserves_auto. Qed.
#[local] Hint Resolve extends_saveOperationQueue : preserves.

Lemma extends_enqueueOperation type data maxRetries :
  extends (enqueueOperation env type data maxRetries).
Proof.
  unfold enqueueOperation, notifyQueueEventListeners, Date_now. preserves_auto.
Qed.
#[local] Hint Resolve extends_enqueueOperation : preserves.

Lemma extends_recordScanWithOfflineSupport productId userId maxRetries forceQueue source :
  extends (recordScanWithOfflineSupport env productId userId maxRetries forceQueue source).
Proof. unfold recordScanWithOfflineSupport, Date_now. preserves_auto. Qed.

End ExtendsService.

(** ** The API is asked first *)

Lemma fetch_first_bind_l {A B} url (m : M A) (k : A -> M B) :
  fetch_first url m -> (forall a, extends (k a)) -> fetch_first url (bind m k).
Proof.
  intros Hm Hk w Hon. destruct (Hm w Hon) as (pre & post & Ht & Hpre).
  unfold bind. destruct (m w) as [[a|e] w1]; cbn in *.
  - destruct (Hk a w1) as (t & H2). exists pre, (post ++ t)%list. split; [|exact Hpre].
    rewrite H2, Ht. by rewrite <- !app_assoc.
  - by exists pre, post.
Qed.

Lemma fetch_first_try_catch_l {A} url (m : M A) (h : Error -> M A) :
  fetch_first url m -> (forall e, extends (h e)) -> fetch_first url (try_catch m h).
Proof.
  intros Hm Hh w Hon. destruct (Hm w Hon) as (pre & post & Ht & Hpre).
  unfold try_catch. destruct (m w) as [[a|e] w1]; cbn in *.
  - by exists pre, post.
  - destruct (Hh e w1) as (t & H2). exists pre, (post ++ t)%list. split; [|exact Hpre].
    rewrite H2, Ht. by rewrite <- !app_assoc.
Qed.

Lemma after_network_check_trace w : trace (after_network_check w) = trace w.
Proof. unfold after_network_check. destruct (networkListenersInitialized w); reflexivity. Qed.

Lemma after_network_check_online w :
  navigator_onLine (after_network_check w) = navigator_onLine w.
Proof. unfold after_network_check. destruct (networkListenersInitialized w); reflexivity. Qed.

Lemma fetch_first_when_online {A} url (k : bool -> M A) :
  fetch_first url (k true) -> fetch_first url (bind isNetworkAvailable k).
Proof.
  intros Hk w Hon. unfold bind. rewrite isNetworkAvailable_run, Hon.
  destruct (Hk (after_network_check w)) as (pre & post & Ht & Hpre).
  { by rewrite after_network_check_online. }
  exists pre, post. by rewrite Ht, after_network_check_trace.
Qed.

Lemma after_spacing_quiet w :
  exists pre, trace (after_spacing w) = (trace w ++ pre)%list /\ omap tier_of pre = [].
Proof.
  unfold after_spacing. destruct (_ && _); cbn.
  - eexists. split; reflexivity.
  - exists []. by rewrite app_nil_r.
Qed.

Lemma api_attempt_no_reply endpoint params w :
  navigator_onLine w = true ->
  replies w = [] ->
  api_attempt endpoint params w
  = (Throw (mkError NetworkError "Network error while making API request"),
     set_trace (trace (after_spacing w) ++ [EvFetch (api_url endpoint params)])%list
       (after_spacing w)).
Proof.
  intros Hon Hr. unfold api_attempt, try_catch. unfold bind at 1.
  rewrite enforceRateLimit_run. unfold bind at 1. unfold get at 1.
  rewrite after_spacing_online, Hon. cbn [negb].
  unfold bind at 1. unfold fetch, bind at 1, emit, modify. unfold bind at 1, get. cbn.
  rewrite after_spacing_replies, Hr. reflexivity.
Qed.

Lemma fetch_first_api_attempt endpoint params :
  fetch_first (api_url endpoint params) (api_attempt endpoint params).
Proof.
  intros w Hon. destruct (after_spacing_quiet w) as (pre & Hpre & Hq).
  exists pre. destruct (replies w) as [|r rest] eqn:Hr.
  - rewrite (api_attempt_no_reply _ _ _ Hon Hr). cbn. exists []. by rewrite Hpre, app_assoc.
  - destruct (is_rate_limit_reply r) eqn:Hk.
    + destruct r as [|status h body]; [discriminate|]. cbn in Hk.
      apply Z.eqb_eq in Hk as ->.
      rewrite (api_attempt_429 _ _ _ _ _ _ Hon Hr). cbn. eexists.
      rewrite Hpre, <- !app_assoc. split; [reflexivity|exact Hq].
    + rewrite (api_attempt_final _ _ _ _ _ Hon Hr Hk). cbn. exists [].
      by rewrite Hpre, app_assoc.
Qed.

Lemma fetch_first_makeApiRequest endpoint params :
  fetch_first (api_url endpoint params) (makeApiRequest endpoint params).
Proof.
  intros w Hon. unfold makeApiRequest.
  destruct (length (replies w)) as [|depth]; cbn [makeApiRequest_from];
    apply fetch_first_bind_l; try exact Hon; try apply fetch_first_api_attempt;
    intros; preserves_auto.
Qed.

Lemma fetch_first_fetchProductFromAPI barcode :
  fetch_first (product_url barcode) (fetchProductFromAPI barcode).
Proof.
  unfold fetchProductFromAPI. apply fetch_first_try_catch_l; [|intros; preserves_auto].
  cbv zeta. apply fetch_first_when_online. cbn [negb].
  apply fetch_first_bind_l; [apply fetch_first_makeApiRequest|intros; preserves_auto].
Qed.

Section LookupOnline.
Context {J : JSON} (env : Env).

#[local] Hint Resolve extends_getItem extends_removeItem extends_setItem
  extends_saveToCache extends_getFromCache 
  extends_getProductByBarcode 
  extends_getOperationQueue extends_saveOperationQueue 
  extends_enqueueOperation extends_recordScanWithOfflineSupport : preserves.

Lemma fetch_first_processBarcodeScan barcode userId :
  fetch_first (product_url barcode) (processBarcodeScan env barcode userId).
Proof.
  unfold processBarcodeScan. apply fetch_first_when_online.
  apply fetch_first_bind_l.
  - apply fetch_first_try_catch_l; [|intros; preserves_auto].
    apply fetch_first_bind_l; [apply fetch_first_fetchProductFromAPI|].
    intros; unfold Date_now; preserves_auto.
  - intros. preserves_auto.
Qed.

End LookupOnline.

(** ** Offline lookups stay on the device *)

Section LookupOffline.
Context {J : JSON} (env : Env).

Lemma after_network_check_initialized w :
  networkListenersInitialized (after_network_check w) = true.
Proof.
  unfold after_network_check. destruct (networkListenersInitialized w) eqn:E; cbn; by rewrite ?E.
Qed.

Lemma after_network_check_background w : background (after_network_check w) = background w.
Proof. unfold after_network_check. destruct (networkListenersInitialized w); reflexivity. Qed.

Lemma after_network_check_clock w : clock (after_network_check w) = clock w.
Proof. unfold after_network_check. destruct (networkListenersInitialized w); reflexivity. Qed.

Lemma enqueueOperation_offline type data maxRetries w :
  navigator_onLine w = false ->
  exists op w',
    enqueueOperation env type data maxRetries w = (Ok op, w') /\
    trace w' = (trace w ++ [EvNotify "operationAdded" (QueuedOperation.id op) PENDING])%list /\
    background w' = background w /\
    navigator_onLine w' = false /\
    QueuedOperation.status op = PENDING /\
    QueuedOperation.retryCount op = 0.
Proof.
  intros Hoff. unfold enqueueOperation.
  unfold bind at 1. unfold get at 1.
  set (w1 := if negb (networkListenersInitialized w)
             then (initNetworkListeners w).2 else w).
  assert (H1 : (if negb (networkListenersInitialized w) then initNetworkListeners else ret tt) w
               = (Ok tt, w1)).
  { unfold w1, initNetworkListeners, bind, get, modify, ret.
    destruct (networkListenersInitialized w) eqn:E; cbn; rewrite ?E; reflexivity. }
  assert (Hw1 : trace w1 = trace w /\ background w1 = background w /\
                navigator_onLine w1 = false /\ storage w1 = storage w).
  { unfold w1, initNetworkListeners, bind, get, modify, ret.
    destruct (networkListenersInitialized w) eqn:E; cbn; rewrite ?E; cbn; auto. }
  destruct Hw1 as (Ht1 & Hb1 & Hon1 & Hs1).
  unfold bind at 1. rewrite H1.
  unfold bind at 1. unfold Date_now, get at 1.
  unfold bind at 1. unfold next_call, bind at 1, get at 1. unfold bind at 1, modify, ret.
  unfold bind at 1. rewrite getOperationQueue_run.
  unfold bind at 1. rewrite saveOperationQueue_run.
  unfold bind at 1. unfold notifyQueueEventListeners, emit, modify.
  unfold bind at 1. rewrite isNetworkAvailable_run. cbn [navigator_onLine set_trace set_storage set_calls].
  rewrite Hon1. unfold bind, ret.
  eexists _, _. split; [reflexivity|].
  rewrite ?after_network_check_trace, ?after_network_check_background,
    ?after_network_check_online. cbn.
  rewrite ?Ht1, ?Hb1, ?Hon1. auto.
Qed.

Lemma recordScanWithOfflineSupport_offline productId userId maxRetries forceQueue source w :
  navigator_onLine w = false ->
  exists opId w',
    recordScanWithOfflineSupport env productId userId maxRetries forceQueue source w
    = (Ok (None, Some opId), w') /\
    trace w' = (trace w ++ [EvNotify "operationAdded" opId PENDING])%list /\
    background w' = background w /\
    navigator_onLine w' = false.
Proof.
  intros Hoff. unfold recordScanWithOfflineSupport.
  unfold bind at 1. rewrite isNetworkAvailable_run, Hoff. cbn [andb].
  unfold bind at 1. unfold ret at 1.
  unfold try_catch. unfold bind at 1. unfold Date_now, get at 1.
  destruct (enqueueOperation_offline RECORD_SCAN
              (mkData None None (Some productId) userId (Some (default SrcApi source))
                 (Some (clock (after_network_check w))))
              maxRetries (after_network_check w))
    as (op & w' & Hrun & Ht & Hb & Hon & _).
  { by rewrite after_network_check_online. }
  unfold bind. rewrite Hrun. unfold ret.
  exists (QueuedOperation.id op), w'. split; [reflexivity|].
  rewrite Ht, Hb, after_network_check_trace, after_network_check_background. auto.
Qed.

Lemma processBarcodeScan_offline barcode userId w s c :
  navigator_onLine w = false ->
  storage w !! key_of barcode = Some s ->
  JSON_parse s = Some (VCachedProduct c) ->
  clock w - cached_timestamp c <= CACHE_EXPIRY_MS ->
  exists w' t tasks,
    processBarcodeScan env barcode userId w
    = (Ok (mkOutcome (cached_product c) None (Some SrcCache)), w') /\
    trace w' = (trace w ++ t)%list /\
    Forall (fun e => is_network e = false) t /\
    background w' = (background w ++ tasks)%list /\
    Forall (fun task => task_uses_network task = false) tasks.
Proof.
  intros Hoff Hs Hp Hfresh. unfold processBarcodeScan.
  unfold bind at 1. rewrite isNetworkAvailable_run, Hoff.
  unfold bind at 1. unfold ret at 1.
  unfold bind at 1. unfold try_catch at 1. unfold bind at 1.
  rewrite (getFromCache_fresh env barcode (after_network_check w) s c);
    [|by rewrite after_network_check_storage|exact Hp
     |by rewrite after_network_check_clock].
  unfold ret at 1. unfold bind at 1. unfold ret at 1.
  unfold bind at 1. unfold ret at 1.
  destruct (recordScanWithOfflineSupport_offline (Product.id (cached_product c)) userId
              None false None (cache_read barcode (after_network_check w)))
    as (opId & w1 & Hrun & Ht & Hb & Hon).
  { unfold cache_read. cbn [navigator_onLine set_trace].
    by rewrite after_network_check_online. }
  assert (Ht' : trace w1 = (trace w ++ [EvCacheRead (key_of barcode);
                                       EvNotify "operationAdded" opId PENDING])%list).
  { rewrite Ht. unfold cache_read. cbn [trace set_trace].
    rewrite after_network_check_trace, <- app_assoc. reflexivity. }
  assert (Hb' : background w1 = background w).
  { rewrite Hb. unfold cache_read. cbn [background set_trace].
    apply after_network_check_background. }
  unfold bind at 1. rewrite Hrun.
  unfold bind at 1. unfold next_call, bind at 1, get at 1. unfold bind at 1, modify, ret at 1.
  cbn [fst snd].
  destruct (Qle_bool 0.01 (random env (calls w1))); cbn [negb].
  - unfold bind, ret.
    eexists _, [EvCacheRead (key_of barcode); EvNotify "operationAdded" opId PENDING], [].
    split; [reflexivity|]. cbn [trace background set_calls].
    rewrite Ht', Hb', app_nil_r. repeat split; auto; repeat constructor.
  - unfold bind, spawn, modify, ret.
    eexists _, [EvCacheRead (key_of barcode); EvNotify "operationAdded" opId PENDING],
      [TaskCleanupCache].
    split; [reflexivity|]. cbn [trace background set_calls set_background].
    rewrite Ht', Hb'. repeat split; auto; repeat constructor.
Qed.

End LookupOffline.

(** ** The processor of [productService.ts] writes no outcome back *)

Lemma preserves_weaken (R R' : relation World) {A} (m : M A) :
  (forall w w', R w w' -> R' w w') -> preserves R m -> preserves R' m.
Proof. intros HR Hm w. apply HR, Hm. Qed.

#[local] Instance left_unsettled_refl : Reflexive left_unsettled.
Proof. intros op. by left. Qed.

#[local] Instance left_unsettled_trans : Transitive left_unsettled.
Proof.
  intros op1 op2 op3 [->|[t ->]] [->|[t' ->]].
  - by left.
  - right. by exists t'.
  - right. by exists t.
  - right. by exists t'.
Qed.

Lemma findIndex_lookup operationId (queue : list QueuedOperation.t) index :
  findIndex operationId queue = Some index -> is_Some (queue !! index).
Proof.
  intros H. apply lookup_lt_is_Some. revert index H.
  induction queue as [|op queue IH]; intros index; cbn; [discriminate|].
  destruct (String.eqb (QueuedOperation.id op) operationId).
  - intros [= <-]. lia.
  - destruct (findIndex operationId queue) as [i|]; [|discriminate].
    intros [= <-]. specialize (IH i eq_refl). cbn. lia.
Qed.

Section Unsettled.
Context {J : JSON} (env : Env).

#[local] Instance settles_nothing_refl : Reflexive (settles_nothing env).
Proof. intros w. unfold settles_nothing. reflexivity. Qed.

#[local] Instance settles_nothing_trans : Transitive (settles_nothing env).
Proof. intros w1 w2 w3. unfold settles_nothing. apply transitivity. Qed.

Lemma same_storage_settles_nothing w w' :
  same_storage w w' -> settles_nothing env w w'.
Proof. unfold same_storage, settles_nothing. intros ->. reflexivity. Qed.

Lemma keeps_storage_getOperationQueue : preserves same_storage (getOperationQueue env).
Proof. intros w. rewrite getOperationQueue_run. reflexivity. Qed.

Lemma keeps_storage_on_error operation error :
  preserves same_storage (on_error operation error).
Proof. unfold on_error. preserves_auto. Qed.

Lemma keeps_storage_dispatch operation : preserves same_storage (dispatch env operation).
Proof. auto with preserves. Qed.

Lemma keeps_storage_dispatch_part003 operation :
  preserves same_storage (Part003.dispatch env operation).
Proof. auto with preserves. Qed.

Lemma updateOperation_run operationId updates w :
  updateOperation env operationId updates w
  = match findIndex operationId (stored_queue env (storage w)) with
    | Some index =>
        match stored_queue env (storage w) !! index with
        | Some old =>
            (Ok (Some (apply_updates old updates (clock w))),
             after_update env (stored_queue env (storage w)) index
               (apply_updates old updates (clock w)) w)
        | None => (Ok None, w)
        end
    | None => (Ok None, w)
    end.
Proof.
  destruct (findIndex operationId _) as [index|] eqn:Hi;
    [|by apply updateOperation_missing].
  destruct (findIndex_lookup _ _ _ Hi) as [old Hold]. rewrite Hold.
  by apply updateOperation_found.
Qed.

Lemma after_update_storage queue index operation w :
  storage (after_update env queue index operation w)
  = save_queue env (<[index := operation]> queue) (storage w).
Proof. reflexivity. Qed.

Lemma mark_in_progress_settles_nothing operationId :
  preserves (settles_nothing env) (updateOperation env operationId (only_status IN_PROGRESS)).
Proof.
  intros w. rewrite updateOperation_run.
  destruct (findIndex operationId _) as [index|]; [|reflexivity].
  destruct (_ !! index) as [old|] eqn:Hold; [|reflexivity].
  unfold settles_nothing. cbn [snd]. rewrite after_update_storage, stored_queue_save.
  destruct (queue_write_fits _ _ _); [|reflexivity].
  rewrite <- (list_insert_id _ _ _ Hold) at 1.
  apply Forall2_insert; [reflexivity|]. right. by eexists.
Qed.

Lemma processOperation_settles_nothing operation :
  preserves (settles_nothing env) (processOperation env operation).
Proof.
  unfold processOperation.
  apply preserves_try_catch; [apply _| |intros error].
  - apply preserves_bind; [apply _|apply mark_in_progress_settles_nothing|intros _].
    eapply preserves_weaken;
      [apply same_storage_settles_nothing|apply keeps_storage_dispatch].
  - eapply preserves_weaken;
      [apply same_storage_settles_nothing|apply keeps_storage_on_error].
Qed.

Lemma keeps_storage_network_check (force : bool) :
  preserves same_storage (if force then ret true else isNetworkAvailable).
Proof. preserves_auto. Qed.

Lemma process_each_settles_nothing force operations processedCount :
  preserves (settles_nothing env)
    (process_each (processOperation env) force operations processedCount).
Proof.
  revert processedCount. induction operations as [|operation rest IH]; intros; cbn.
  - apply preserves_ret; apply _.
  - apply preserves_bind; [apply _| |intros online].
    + eapply preserves_weaken;
        [apply same_storage_settles_nothing|apply keeps_storage_network_check].
    + destruct (negb online); [apply preserves_ret; apply _|].
      apply preserves_bind;
        [apply _|apply processOperation_settles_nothing|intros success; apply IH].
Qed.

Lemma processOperationQueue_run_settles_nothing force :
  preserves (settles_nothing env)
    (processOperationQueue_run env (processOperation env) force).
Proof.
  assert (Hkeep : forall A (m : M A),
             preserves same_storage m -> preserves (settles_nothing env) m).
  { intros A m. apply preserves_weaken, same_storage_settles_nothing. }
  unfold processOperationQueue_run.
  apply preserves_try_finally; [apply _| |intros; by apply same_storage_settles_nothing].
  apply preserves_try_catch; [apply _| |intros; apply preserves_ret; apply _].
  apply preserves_bind; [apply _|apply Hkeep, keeps_storage_getOperationQueue|intros queue].
  destruct (bool_decide _); [apply preserves_ret; apply _|].
  apply preserves_bind; [apply _|apply Hkeep; unfold notifyQueueEventListeners; preserves_auto|intros _].
  apply preserves_bind; [apply _|apply Hkeep; unfold Date_now; preserves_auto|intros now].
  cbv zeta.
  apply preserves_bind; [apply _|apply process_each_settles_nothing|intros processedCount].
  apply preserves_bind; [apply _|apply Hkeep, keeps_storage_getOperationQueue|intros remaining].
  apply Hkeep. unfold notifyQueueEventListeners, Date_now. preserves_auto.
Qed.

Lemma processOperationQueue_settles force :
  preserves (settles_nothing env) (processOperationQueue env force).
Proof.
  unfold processOperationQueue, processOperationQueue_with.
  apply preserves_bind; [apply _| |intros entered].
  - eapply preserves_weaken; [apply same_storage_settles_nothing|].
    auto with preserves.
  - destruct entered; [apply processOperationQueue_run_settles_nothing|].
    apply preserves_ret; apply _.
Qed.

(** ** A scan whose user cannot be found *)

Lemma unresolved_user_throws operation w :
  QueuedOperation.type operation = RECORD_SCAN ->
  unresolved (data_userId (QueuedOperation.data operation)) = true ->
  Js.truthy (auth_getUser env (calls w)) = false ->
  dispatch env operation w
  = (Throw (mkError AuthenticationError "User not authenticated"), after_user_lookup w).
Proof.
  intros Htype Huser Hauth. unfold dispatch. rewrite Htype. cbv zeta.
  fold (unresolved (data_userId (QueuedOperation.data operation))). rewrite Huser.
  unfold getCurrentUserId, bind, emit, modify, next_call, bind, get, modify, ret, throw. cbn.
  rewrite Hauth. reflexivity.
Qed.

Lemma updateOperation_calls operationId updates w :
  calls (updateOperation env operationId updates w).2 = calls w.
Proof.
  rewrite updateOperation_run.
  destruct (findIndex operationId _) as [index|]; [|reflexivity].
  destruct (_ !! index); reflexivity.
Qed.

Lemma updateOperation_ok operationId updates w :
  exists r, (updateOperation env operationId updates w).1 = Ok r.
Proof.
  rewrite updateOperation_run.
  destruct (findIndex operationId _) as [index|]; [|by eexists].
  destruct (_ !! index); by eexists.
Qed.

Lemma processOperation_unresolved_user operation w :
  QueuedOperation.type operation = RECORD_SCAN ->
  unresolved (data_userId (QueuedOperation.data operation)) = true ->
  Js.truthy (auth_getUser env (calls w)) = false ->
  processOperation env operation w
  = (Ok (QueuedOperation.retryCount operation <? 1),
     after_user_lookup
       (updateOperation env (QueuedOperation.id operation) (only_status IN_PROGRESS) w).2).
Proof.
  intros Htype Huser Hauth. unfold processOperation, try_catch, bind.
  destruct (updateOperation_ok (QueuedOperation.id operation) (only_status IN_PROGRESS) w)
    as [r Hr].
  pose proof (updateOperation_calls (QueuedOperation.id operation)
                (only_status IN_PROGRESS) w) as Hcalls.
  destruct (updateOperation env _ _ w) as [r1 w1]. cbn in Hr, Hcalls. subst r1.
  rewrite unresolved_user_throws by (rewrite ?Hcalls; done). reflexivity.
Qed.

End Unsettled.

Lemma in_progress_not_ready operation now t :
  ready now (apply_updates operation (only_status IN_PROGRESS) t) = false.
Proof. reflexivity. Qed.

(** ** The older copy records the outcome *)

Lemma findIndex_id operationId (queue : list QueuedOperation.t) index old :
  findIndex operationId queue = Some index ->
  queue !! index = Some old ->
  QueuedOperation.id old = operationId.
Proof.
  revert index. induction queue as [|op queue IH]; intros index; cbn; [discriminate|].
  destruct (String.eqb_spec (QueuedOperation.id op) operationId) as [Heq|Hne].
  - intros [= <-] [= <-]. exact Heq.
  - destruct (findIndex operationId queue) as [i|]; [|discriminate].
    intros [= <-]. cbn. by apply IH.
Qed.

Lemma findIndex_insert operationId (queue : list QueuedOperation.t) index new :
  findIndex operationId queue = Some index ->
  QueuedOperation.id new = operationId ->
  findIndex operationId (<[index := new]> queue) = Some index.
Proof.
  revert index. induction queue as [|op queue IH]; intros index; cbn; [discriminate|].
  destruct (String.eqb_spec (QueuedOperation.id op) operationId) as [Heq|Hne].
  - intros [= <-] Hnew. cbn. rewrite Hnew, String.eqb_refl. reflexivity.
  - destruct (findIndex operationId queue) as [i|] eqn:Hi; [|discriminate].
    intros [= <-] Hnew.
    change (<[S i := new]> (op :: queue)) with (op :: <[i := new]> queue).
    cbn [findIndex].
    destruct (String.eqb_spec (QueuedOperation.id op) operationId); [contradiction|].
    by rewrite (IH i eq_refl Hnew).
Qed.

Section Part003Properties.
Context {J : JSON} (env : Env).

(** What the handler of the older copy writes for a failure. *)
Lemma part003_on_error_records operation error w index old :
  findIndex (QueuedOperation.id operation) (stored_queue env (storage w)) = Some index ->
  stored_queue env (storage w) !! index = Some old ->
  let queue := stored_queue env (storage w) in
  let recorded :=
    if QueuedOperation.retryCount operation <? QueuedOperation.maxRetries operation
    then
      apply_updates old
        (mkUpdates (Some RETRY) (Some (QueuedOperation.retryCount operation + 1))
           (Some (Some (inject_Z (clock w)
                        + calculateBackoffDelay (QueuedOperation.retryCount operation)
                            (random env (calls w)))%Q))
           (Some (Some (err_message error))))
        (clock w)
    else
      apply_updates old (mkUpdates (Some FAILED) None None (Some (Some (err_message error))))
        (clock w) in
  (Part003.on_error env operation error w).1 = Ok false /\
  stored_queue env (storage (Part003.on_error env operation error w).2)
  = if queue_write_fits env (storage w) (<[index := recorded]> queue)
    then <[index := recorded]> queue else queue.
Proof.
  intros Hi Hold. cbv zeta.
  destruct (Part003.on_error env operation error w) as [r w'] eqn:Hrun.
  unfold Part003.on_error in Hrun. cbv zeta in Hrun.
  destruct (QueuedOperation.retryCount operation <? QueuedOperation.maxRetries operation).
  - unfold bind at 1 in Hrun. unfold bind at 1 in Hrun.
    unfold next_call, bind at 1, get at 1 in Hrun.
    unfold bind at 1, modify at 1, ret at 1 in Hrun.
    unfold bind at 1 in Hrun. unfold Date_now, get at 1 in Hrun.
    unfold bind at 1 in Hrun.
    rewrite (updateOperation_found env _ _ (set_calls (S (calls w)) w) index old Hi Hold)
      in Hrun.
    unfold ret in Hrun. injection Hrun as <- <-. cbn [fst snd]. split; [reflexivity|].
    rewrite after_update_storage. apply stored_queue_save.
  - unfold bind at 1 in Hrun. unfold bind at 1 in Hrun.
    rewrite (updateOperation_found env _ _ w index old Hi Hold) in Hrun.
    unfold notifyQueueEventListeners, emit, modify, ret in Hrun.
    injection Hrun as <- <-. cbn [fst snd]. split; [reflexivity|].
    cbn [storage set_trace]. rewrite after_update_storage. apply stored_queue_save.
Qed.

(** What the older copy writes when the dispatch went through. *)
Lemma part003_success_records operation w index old :
  findIndex (QueuedOperation.id operation) (stored_queue env (storage w)) = Some index ->
  stored_queue env (storage w) !! index = Some old ->
  let marked :=
    (updateOperation env (QueuedOperation.id operation) (only_status IN_PROGRESS) w).2 in
  (Part003.dispatch env operation marked).1 = Ok tt ->
  exists current,
    stored_queue env (storage marked) !! index = Some current /\
    (current = old \/ current = apply_updates old (only_status IN_PROGRESS) (clock w)) /\
    let done := (Part003.dispatch env operation marked).2 in
    let completed := apply_updates current (only_status COMPLETED) (clock done) in
    (Part003.processOperation env operation w).1 = Ok true /\
    QueuedOperation.status completed = COMPLETED /\
    stored_queue env (storage (Part003.processOperation env operation w).2)
    = if queue_write_fits env (storage marked)
           (<[index := completed]> (stored_queue env (storage marked)))
      then <[index := completed]> (stored_queue env (storage marked))
      else stored_queue env (storage marked).
Proof.
  intros Hi Hold marked Hok.
  assert (Hmark : updateOperation env (QueuedOperation.id operation)
                    (only_status IN_PROGRESS) w
                  = (Ok (Some (apply_updates old (only_status IN_PROGRESS) (clock w))), marked)).
  { unfold marked. by rewrite (updateOperation_found env _ _ w index old Hi Hold). }
  assert (Hstored : stored_queue env (storage marked)
                    = if queue_write_fits env (storage w)
                           (<[index := apply_updates old (only_status IN_PROGRESS) (clock w)]>
                              (stored_queue env (storage w)))
                      then <[index := apply_updates old (only_status IN_PROGRESS) (clock w)]>
                             (stored_queue env (storage w))
                      else stored_queue env (storage w)).
  { unfold marked. rewrite (updateOperation_found env _ _ w index old Hi Hold).
    cbn [snd]. rewrite after_update_storage. apply stored_queue_save. }
  pose proof (findIndex_id _ _ _ _ Hi Hold) as Hid.
  assert (Hcur : exists current,
             stored_queue env (storage marked) !! index = Some current /\
             (current = old \/
              current = apply_updates old (only_status IN_PROGRESS) (clock w)) /\
             findIndex (QueuedOperation.id operation) (stored_queue env (storage marked))
             = Some index).
  { rewrite Hstored. destruct (queue_write_fits _ _ _).
    - exists (apply_updates old (only_status IN_PROGRESS) (clock w)).
      split; [|split; [by right|by apply findIndex_insert]].
      apply list_lookup_insert_eq. by eapply lookup_lt_Some.
    - exists old. by split; [|split; [left|]]. }
  destruct Hcur as (current & Hlook & Hor & Hi').
  exists current. split; [exact Hlook|]. split; [exact Hor|]. cbv zeta.
  pose proof (keeps_storage_dispatch_part003 env operation marked) as Hsame.
  destruct (Part003.processOperation env operation w) as [r w'] eqn:Hrun.
  unfold Part003.processOperation in Hrun. cbv zeta in Hrun. unfold try_catch in Hrun.
  unfold bind at 1 in Hrun. rewrite Hmark in Hrun.
  unfold bind at 1 in Hrun.
  destruct (Part003.dispatch env operation marked) as [r0 done] eqn:Hd.
  cbn [fst snd] in Hok, Hsame |- *. subst r0.
  unfold same_storage in Hsame.
  unfold bind at 1 in Hrun.
  rewrite (updateOperation_found env _ _ done index current) in Hrun;
    [|by rewrite Hsame|by rewrite Hsame].
  unfold bind, notifyQueueEventListeners, emit, modify, ret in Hrun.
  injection Hrun as <- <-.
  split; [reflexivity|]. split; [reflexivity|].
  cbn [storage set_trace]. rewrite after_update_storage, Hsame. apply stored_queue_save.
Qed.

End Part003Properties.

(** ** Enqueued operations start out pending *)

Section Enqueue.
Context {J : JSON} (env : Env).

Lemma enqueueOperation_pending type data maxRetries w :
  exists operation w',
    enqueueOperation env type data maxRetries w = (Ok operation, w') /\
    QueuedOperation.status operation = PENDING /\
    QueuedOperation.retryCount operation = 0 /\
    QueuedOperation.nextRetryTime operation = None.
Proof.
  unfold enqueueOperation.
  unfold bind at 1. unfold get at 1.
  set (w1 := if negb (networkListenersInitialized w)
             then (initNetworkListeners w).2 else w).
  assert (H1 : (if negb (networkListenersInitialized w) then initNetworkListeners else ret tt) w
               = (Ok tt, w1)).
  { unfold w1, initNetworkListeners, bind, get, modify, ret.
    destruct (networkListenersInitialized w) eqn:E; cbn; rewrite ?E; reflexivity. }
  unfold bind at 1. rewrite H1.
  unfold bind at 1. unfold Date_now, get at 1.
  unfold bind at 1. unfold next_call, bind at 1, get at 1. unfold bind at 1, modify, ret.
  unfold bind at 1. rewrite getOperationQueue_run.
  unfold bind at 1. rewrite saveOperationQueue_run.
  unfold bind at 1. unfold notifyQueueEventListeners, emit, modify.
  unfold bind at 1. rewrite isNetworkAvailable_run.
  unfold bind at 1.
  match goal with
  | |- context [if ?b then start_processOperationQueue else _] => destruct b
  end.
  - rewrite start_processOperationQueue_run. eexists _, _. split; [reflexivity|]. auto.
  - eexists _, _. split; [reflexivity|]. auto.
Qed.

(** C4: in [productService.ts], a scan whose user cannot be found is not
    retried and never fails.  The dispatch throws the authentication error;
    the handler answers [retryCount < 1], which the pass counts as a
    processed operation; nothing is written after the mark that put the
    operation in progress, and an operation in progress is not picked up by
    any later pass. *)
Theorem unresolved_user_not_retried operation w :
  QueuedOperation.type operation = RECORD_SCAN ->
  unresolved (data_userId (QueuedOperation.data operation)) = true ->
  Js.truthy (auth_getUser env (calls w)) = false ->
  let marked :=
    (updateOperation env (QueuedOperation.id operation) (only_status IN_PROGRESS) w).2 in
  processOperation env operation w
  = (Ok (QueuedOperation.retryCount operation <? 1), after_user_lookup marked) /\
  storage (after_user_lookup marked) = storage marked /\
  (forall now t, ready now (apply_updates operation (only_status IN_PROGRESS) t) = false).
Proof.
  intros Htype Huser Hauth marked. split; [|split].
  - by apply processOperation_unresolved_user.
  - reflexivity.
  - intros now t. apply in_progress_not_ready.
Qed.

End Enqueue.

Lemma unresolved_user_not_retried_witness :
  let marked :=
    (updateOperation sample_env "op_1" (only_status IN_PROGRESS) queue_world).2 in
  processOperation sample_env sample_scan queue_world
  = (Ok true, after_user_lookup marked) /\
  storage (after_user_lookup marked) = storage marked /\
  (forall now t, ready now (apply_updates sample_scan (only_status IN_PROGRESS) t) = false).
Proof.
  apply (unresolved_user_not_retried sample_env sample_scan queue_world); reflexivity.
Defined.

(** The sample queue under the processor of [productService.ts]: the pass
    counts the scan without a user and the submission as processed and
    leaves all three operations in progress; a pass two hours later finds
    nothing to do. *)
Lemma sample_pass_records_no_outcome :
  let first := processOperationQueue sample_env false queue_world in
  let second := processOperationQueue sample_env false (later 7200000 first.2) in
  first.1 = Ok 2 /\
  queue_summary first.2
  = [("op_1", IN_PROGRESS, 0, None); ("op_2", IN_PROGRESS, 0, None);
     ("op_3", IN_PROGRESS, 0, None)] /\
  second.1 = Ok 0 /\
  queue_summary second.2 = queue_summary first.2 /\
  List.filter is_network (trace second.2) = List.filter is_network (trace first.2).
Proof. vm_compute. repeat split. Qed.

(** The same queue under the processor of the older copy: the submission
    is completed, the two failures are set to retry with a count and a time,
    and after three retries they are failed. *)
Lemma sample_pass_part003 :
  let pass w := (Part003.processOperationQueue sample_env false (later 7200000 w)).2 in
  let first := (Part003.processOperationQueue sample_env false queue_world).2 in
  queue_summary first
  = [("op_1", RETRY, 1, Some (inject_Z 1000000 + calculateBackoffDelay 0 0.5)%Q);
     ("op_2", COMPLETED, 0, None);
     ("op_3", RETRY, 1, Some (inject_Z 1000000 + calculateBackoffDelay 0 0.5)%Q)] /\
  (queue_summary (pass (pass first))).*1.*1
  = [("op_1", RETRY); ("op_2", COMPLETED); ("op_3", RETRY)] /\
  (queue_summary (pass (pass (pass first)))).*1.*1
  = [("op_1", FAILED); ("op_2", COMPLETED); ("op_3", FAILED)].
Proof. vm_compute. repeat split. Qed.

(** C2: the queue processor of [productService.ts] does not follow the
    lifecycle of the specification.  An operation is created pending by
    [enqueueOperation] and is marked in progress when a pass picks it up,
    but the outcome of the dispatch is never written back: after a pass of
    [processOperationQueue], on any store and whatever the remote services
    answer, every stored operation is as it was before the pass or differs
    from that only by the status [IN_PROGRESS] and the time of the update.
    No operation becomes completed, none is given a retry count or a time
    for the next retry, none becomes failed.  On the sample queue, whose
    submission goes through and whose update fails on the network, the pass
    returns 2 and leaves all three operations in progress. *)
Theorem processOperationQueue_records_no_outcome :
  (forall (J : JSON) env type data maxRetries w,
     exists operation w',
       enqueueOperation env type data maxRetries w = (Ok operation, w') /\
       QueuedOperation.status operation = PENDING) /\
  (forall (J : JSON) env force w,
     Forall2 left_unsettled
       (stored_queue env (storage w))
       (stored_queue env (storage (processOperationQueue env force w).2))) /\
  (let first := processOperationQueue sample_env false queue_world in
   first.1 = Ok 2 /\
   queue_summary first.2
   = [("op_1", IN_PROGRESS, 0, None); ("op_2", IN_PROGRESS, 0, None);
      ("op_3", IN_PROGRESS, 0, None)]).
Proof.
  split; [|split].
  - intros J env type data maxRetries w.
    destruct (enqueueOperation_pending env type data maxRetries w)
      as (operation & w' & Hrun & Hstatus & _).
    by exists operation, w'.
  - intros J env force w. apply (processOperationQueue_settles env force w).
  - destruct sample_pass_records_no_outcome as (Hcount & Hqueue & _).
    split; [exact Hcount|exact Hqueue].
Qed.

(** ** Results on the scoring rule and the backoff *)

(** C6: the health score of a payload is the clamp to [0, 100] of 50 plus
    the points of the nutrition grade (A +30, B +20, C +10, D -10, E -20),
    plus the points of the processing level (1 +20, 2 +10, 3 -10, 4 -20),
    plus 10 when a label contains "organic" or "bio"; with grade A, level 1
    and no such label it is 100. *)
Theorem calculateHealthScore_follows_rule p :
  calculateHealthScore p = HealthRule.score p /\
  (Js.toUpperCase <$> nutriscore_grade (product p) = Some "A" ->
   nova_group (product p) = Some 1 ->
   HealthRule.organic_points (labels_tags (product p)) = 0 ->
   calculateHealthScore p = 100).
Proof.
  split; [apply calculateHealthScore_rule|].
  intros Hgrade Hlevel Hlabels. rewrite calculateHealthScore_rule.
  unfold HealthRule.score. rewrite Hlevel, Hlabels.
  destruct (nutriscore_grade (product p)) as [g|]; [|discriminate].
  injection Hgrade as Hg. cbn [HealthRule.nutrition_points]. rewrite Hg. reflexivity.
Qed.

Lemma calculateHealthScore_follows_rule_witness :
  calculateHealthScore sample_payload = 100.
Proof.
  apply (calculateHealthScore_follows_rule sample_payload); reflexivity.
Defined.

(** C3, as amended: for every retry count from 0 on and every two jitter
    draws, the next delay is at least 4/3 of the current one or the cap of
    3,600,000 ms, whichever is smaller; and once a delay is at the cap the
    next one is too. *)
Theorem calculateBackoffDelay_growth :
  backoff_grows_by (4 # 3) /\
  (forall r u u',
     0 <= r -> (0 <= u <= 1)%Q -> (0 <= u' <= 1)%Q ->
     (calculateBackoffDelay r u == MAX_RETRY_DELAY)%Q ->
     (calculateBackoffDelay (r + 1) u' == MAX_RETRY_DELAY)%Q) /\
  (MAX_RETRY_DELAY == 3600000)%Q.
Proof.
  split; [apply backoff_four_thirds|]. split; [|reflexivity].
  intros r u u'. apply backoff_stays_capped.
Qed.

Lemma calculateBackoffDelay_growth_witness :
  (Qmin ((4 # 3) * calculateBackoffDelay 0 1) MAX_RETRY_DELAY
     <= calculateBackoffDelay 1 0)%Q /\
  (calculateBackoffDelay 13 0 == MAX_RETRY_DELAY)%Q.
Proof.
  split.
  - apply (proj1 calculateBackoffDelay_growth 0 1%Q 0%Q);
      [lia | split; discriminate | split; discriminate].
  - apply (proj1 (proj2 calculateBackoffDelay_growth) 12 1%Q 0%Q);
      [lia | split; discriminate | split; discriminate | reflexivity].
Defined.

(** The factor 1.6 fails between retry counts 0 and 1: with
    the draws 0.75 and 0 the delays are 1100 ms and 1600 ms, and 1.6 times
    1100 is 1760. *)
Lemma calculateBackoffDelay_not_1_6 : ~ backoff_grows_by 1.6.
Proof.
  intros H. specialize (H 0 0.75%Q 0%Q).
  assert (Hc : (Qmin (1.6 * calculateBackoffDelay 0 0.75) MAX_RETRY_DELAY
                <= calculateBackoffDelay (0 + 1) 0)%Q).
  { apply H; [lia | split; discriminate | split; discriminate]. }
  vm_compute in Hc. apply Hc. reflexivity.
Qed.

(** ** Results on the cache and the store *)

Section CacheClaims.
Context {J : JSON} (env : Env).

(** C7: [getFromCache] answers nothing when the store has no entry for the
    barcode, and when the entry is older than the 24 hours of
    [CACHE_EXPIRY_MS]; in the second case it removes the entry.  An entry
    stored at [now - CACHE_EXPIRY_MS - 1] is answered with nothing. *)
Theorem getFromCache_absent barcode w :
  CACHE_EXPIRY_MS = 24 * 60 * 60 * 1000 /\
  (storage w !! key_of barcode = None ->
   getFromCache env barcode w = (Ok None, cache_read barcode w)) /\
  (forall s c,
     storage w !! key_of barcode = Some s ->
     JSON_parse s = Some (VCachedProduct c) ->
     clock w - cached_timestamp c > CACHE_EXPIRY_MS ->
     getFromCache env barcode w
     = (Ok None, set_storage (delete (key_of barcode)) (cache_read barcode w)) /\
     storage (getFromCache env barcode w).2 !! key_of barcode = None) /\
  (forall s c,
     storage w !! key_of barcode = Some s ->
     JSON_parse s = Some (VCachedProduct c) ->
     cached_timestamp c = clock w - CACHE_EXPIRY_MS - 1 ->
     (getFromCache env barcode w).1 = Ok None).
Proof.
  split; [reflexivity|]. split; [apply getFromCache_no_entry|]. split.
  - intros s c Hs Hp Hold.
    rewrite (getFromCache_expired env barcode w s c Hs Hp Hold).
    split; [reflexivity|]. cbn. apply lookup_delete_eq.
  - intros s c Hs Hp Hat.
    rewrite (getFromCache_expired env barcode w s c Hs Hp); [reflexivity|]. lia.
Qed.

(** C8, as amended: the test of [setItem] is the size of what is stored,
    keys and values, the value that the key holds so far included, plus the
    length of the new value.  [setItem] writes at once when that sum is
    within the budget of 10 MiB.  Otherwise it runs the eviction pass and
    takes the sum again, once: the write goes through when it now fits, and
    only when it still does not fit the error "Storage size limit exceeded"
    is thrown.  The eviction pass removes the oldest fifth, rounded up, of
    the entries that carry a timestamp, and leaves every other entry, those
    without a timestamp included, as it is. *)
Theorem setItem_evicts_before_failing key value w :
  STORAGE_SIZE_LIMIT = 10 * 1024 * 1024 /\
  (forall m,
     over_budget env m value
     = (stored_size env m + strlen value >? STORAGE_SIZE_LIMIT)) /\
  Storage.setItem env key value w
  = (if over_budget env (storage w) value then
       if over_budget env (evict env (storage w)) value
       then (Throw (mkError StorageError "Storage size limit exceeded"),
             set_storage (evict env) w)
       else (Ok tt, set_storage (insert key value) (set_storage (evict env) w))
     else (Ok tt, set_storage (insert key value) w)) /\
  Storage.cleanupOldItems env w = (Ok tt, set_storage (evict env) w) /\
  oldest_fifth_evicted env (storage w) (evict env (storage w)).
Proof.
  split; [reflexivity|]. split; [reflexivity|]. split; [apply setItem_run|].
  split; [apply cleanupOldItems_run|apply evict_oldest_fifth].
Qed.

End CacheClaims.

(** ** A write that replaces a large value *)

Lemma filler_length n : String.length (filler n) = n.
Proof. induction n as [|n IH]; cbn; [reflexivity|by rewrite IH]. Qed.

Section Replacement.
Context (n : nat).

Lemma blob_read : Storage.read sample_env (blob_store n) "scani_blob" = Some (String "-" (filler n)).
Proof. apply read_Some; [apply lookup_singleton_eq|discriminate]. Qed.

Lemma blob_keys : Storage.keys_of sample_env (blob_store n) = ["scani_blob"].
Proof. unfold Storage.keys_of, blob_store. cbn. by rewrite map_to_list_singleton. Qed.

Lemma blob_size : stored_size sample_env (blob_store n) = 10 + Z.of_nat (S n).
Proof.
  unfold stored_size. rewrite blob_keys. cbn [foldr]. unfold entry_size.
  rewrite blob_read. cbn [Js.truthy String.eqb negb default from_option id].
  unfold strlen. cbn [String.length]. rewrite filler_length. lia.
Qed.

Lemma blob_not_timestamped : timestamped sample_env (blob_store n) = [].
Proof.
  unfold timestamped. rewrite blob_keys. cbn [omap list_omap]. unfold timestamp_at.
  rewrite blob_read. reflexivity.
Qed.

Lemma blob_kept : evict sample_env (blob_store n) = blob_store n.
Proof. unfold evict, evicted_keys. rewrite blob_not_timestamped. reflexivity. Qed.

Lemma blob_replaced value :
  value <> "" ->
  size_after_write sample_env (blob_store n) "scani_blob" value = 10 + strlen value.
Proof.
  intros Hvalue. unfold size_after_write, blob_store. rewrite insert_singleton_eq.
  unfold stored_size, Storage.keys_of. cbn [backend sample_env].
  rewrite map_to_list_singleton. cbn [fmap list_fmap fst foldr]. unfold entry_size.
  rewrite (read_Some sample_env _ _ value) by (apply lookup_singleton_eq || exact Hvalue).
  rewrite truthy_Some by exact Hvalue. cbn [default from_option id]. 
  change (strlen "scani_blob") with 10. lia.
Qed.

(** The write of a second text of the same length is refused, although
    the store would be no larger after it. *)
Lemma blob_refused :
  STORAGE_SIZE_LIMIT < 10 + 2 * Z.of_nat (S n) ->
  (Storage.setItem sample_env "scani_blob" (String "+" (filler n)) (blob_world n)).1
  = Throw (mkError StorageError "Storage size limit exceeded").
Proof.
  intros Hbig. rewrite setItem_run. change (storage (blob_world n)) with (blob_store n).
  rewrite blob_kept. unfold over_budget. rewrite blob_size.
  unfold strlen. cbn [String.length]. rewrite filler_length.
  destruct (Z.gtb_spec (10 + Z.of_nat (S n) + Z.of_nat (S n)) STORAGE_SIZE_LIMIT);
    [reflexivity|lia].
Qed.

End Replacement.

(** C8, the claim as it stands: [setItem] refuses a write that would leave
    the store within its budget.  Where one key holds six million
    characters, writing six million other characters under the same key is
    refused, because the test adds the new value to a size that still counts
    the old one. *)
Lemma setItem_refuses_replacement : ~ raised_only_over_budget sample_env.
Proof.
  intros Hclaim.
  set (n := Z.to_nat 5999999).
  assert (Hn : Z.of_nat (S n) = 6000000).
  { unfold n. rewrite Nat2Z.inj_succ, Z2Nat.id by discriminate. reflexivity. }
  specialize (Hclaim "scani_blob" (String "+" (filler n)) (blob_world n) _
                (blob_refused n ltac:(rewrite Hn; reflexivity))).
  change (storage (blob_world n)) with (blob_store n) in Hclaim.
  rewrite blob_kept, blob_replaced in Hclaim by discriminate.
  unfold strlen in Hclaim. cbn [String.length] in Hclaim.
  rewrite filler_length, Hn in Hclaim. revert Hclaim. unfold STORAGE_SIZE_LIMIT. lia.
Qed.

Lemma getFromCache_absent_witness :
  getFromCache sample_env sample_barcode (sample_world false [])
  = (Ok None, cache_read sample_barcode (sample_world false [])) /\
  (getFromCache sample_env sample_barcode expired_world).1 = Ok None /\
  storage (getFromCache sample_env sample_barcode expired_world).2 !! key_of sample_barcode
  = None.
Proof.
  pose proof (getFromCache_absent sample_env sample_barcode (sample_world false []))
    as (_ & Hnone & _).
  pose proof (getFromCache_absent sample_env sample_barcode expired_world)
    as (_ & _ & Hold & Hat).
  split; [apply Hnone; reflexivity|]. split.
  - eapply Hat; [reflexivity|apply JSON_parse_stringify|reflexivity].
  - eapply Hold; [reflexivity|apply JSON_parse_stringify|reflexivity].
Defined.

(** ** Results on lookups, rate limits and the queue *)

Section ServiceClaims.
Context {J : JSON} (env : Env).

(** C1: on a device that is online, the first tier [processBarcodeScan]
    touches is the API: the request for the product comes before any read
    or write of the cache and before any query of the database.  On a device
    that is offline and whose cache holds an entry for the barcode that is
    not older than 24 hours, the result is the cached product with source
    "cache", and neither the lookup nor a task it leaves behind goes over
    the network; the scan is queued, so this half is stated for a store
    whose queue entry is an array, if there is one. *)
Theorem processBarcodeScan_tiers barcode userId w :
  (navigator_onLine w = true ->
   exists pre post,
     trace (processBarcodeScan env barcode userId w).2
     = (trace w ++ pre ++ EvFetch (product_url barcode) :: post)%list /\
     omap tier_of pre = []) /\
  (navigator_onLine w = false ->
   queue_is_array env (storage w) = true ->
   forall s c,
     storage w !! key_of barcode = Some s ->
     JSON_parse s = Some (VCachedProduct c) ->
     clock w - cached_timestamp c <= CACHE_EXPIRY_MS ->
     exists w' t tasks,
       processBarcodeScan env barcode userId w
       = (Ok (mkOutcome (cached_product c) None (Some SrcCache)), w') /\
       trace w' = (trace w ++ t)%list /\
       Forall (fun e => is_network e = false) t /\
       background w' = (background w ++ tasks)%list /\
       Forall (fun task => task_uses_network task = false) tasks).
Proof.
  split.
  - apply fetch_first_processBarcodeScan.
  - intros Hoff _ s c. by apply processBarcodeScan_offline.
Qed.

(** C5: a call of [processOperationQueue] that finds the flag set returns 0
    and leaves the world, the queue included, exactly as it was, whatever
    the store holds.  A call that goes on has raised the flag, so a second
    call made before the first has finished returns 0.  However calls are
    interleaved, the flag is up exactly while one pass is active, so at most
    one pass is active at any time. *)
Theorem processOperationQueue_single_flight (process : QueuedOperation.t -> M bool) :
  (forall force w,
     queueProcessorRunning w = true ->
     processOperationQueue_with env process force w = (Ok 0, w)) /\
  (forall force force' w w' w'',
     processOperationQueue_enter force w = (Ok true, w') ->
     queueProcessorRunning w'' = queueProcessorRunning w' ->
     processOperationQueue_with env process force' w'' = (Ok 0, w'')) /\
  (forall c c',
     flag_counts_passes c ->
     overlap_steps env process c c' ->
     flag_counts_passes c' /\ (active_passes c'.2 <= 1)%nat).
Proof.
  split; [apply processOperationQueue_while_running|]. split.
  - intros force force' w w' w'' Henter Hsame.
    apply processOperationQueue_while_running.
    apply enter_flag in Henter. destruct Henter as [_ Hup]. congruence.
  - intros c c' Hinv Hsteps.
    pose proof (overlap_steps_invariant env process c c' Hsteps Hinv) as Hinv'.
    split; [exact Hinv'|]. unfold flag_counts_passes in Hinv'. rewrite Hinv'.
    destruct (queueProcessorRunning c'.1); lia.
Qed.

(** C10: on a store whose queue entry, if there is one, is an array,
    [retryOperation] returns null and leaves the world as it is unless
    the first operation with the id is failed.  For a failed operation it
    returns the operation with status pending, retry count 0 and neither
    error nor time of the next retry, every other field but the time of the
    update kept; the stored queue is the old one with that operation
    replaced, every other position unchanged (or the old queue, when the
    store has no room for the write). *)
Theorem retryOperation_frame operationId w :
  queue_is_array env (storage w) = true ->
  let queue := stored_queue env (storage w) in
  match List.find (fun op => String.eqb (QueuedOperation.id op) operationId) queue with
  | Some op =>
      if status_eqb (QueuedOperation.status op) FAILED then
        exists index,
          findIndex operationId queue = Some index /\
          queue !! index = Some op /\
          let op' := apply_updates op reset_for_retry (clock w) in
          let queue' := stored_queue env (storage (retryOperation env operationId w).2) in
          (retryOperation env operationId w).1 = Ok (Some op') /\
          op' = {| QueuedOperation.id := QueuedOperation.id op;
                   QueuedOperation.type := QueuedOperation.type op;
                   QueuedOperation.data := QueuedOperation.data op;
                   QueuedOperation.status := PENDING;
                   QueuedOperation.retryCount := 0;
                   QueuedOperation.maxRetries := QueuedOperation.maxRetries op;
                   QueuedOperation.nextRetryTime := None;
                   QueuedOperation.error := None;
                   QueuedOperation.createdAt := QueuedOperation.createdAt op;
                   QueuedOperation.updatedAt := clock w |} /\
          queue' = (if queue_write_fits env (storage w) (<[index := op']> queue)
                    then <[index := op']> queue else queue) /\
          (forall other, other <> index -> queue' !! other = queue !! other)
      else retryOperation env operationId w = (Ok None, w)
  | None => retryOperation env operationId w = (Ok None, w)
  end.
Proof.
  intros _. cbv zeta.
  destruct (List.find _ _) as [op|] eqn:Hfind;
    [|apply retryOperation_not_failed; by rewrite Hfind].
  destruct (status_eqb (QueuedOperation.status op) FAILED) eqn:Hstatus.
  - assert (Hfailed : QueuedOperation.status op = FAILED)
      by (destruct (QueuedOperation.status op); done).
    destruct (retryOperation_failed env operationId w op Hfind Hfailed)
      as (index & Hi & Hl & Hres & Hstore).
    exists index. split; [exact Hi|]. split; [exact Hl|].
    split; [exact Hres|]. split; [reflexivity|].
    rewrite Hstore, stored_queue_save. split; [reflexivity|].
    intros other Hother. destruct (queue_write_fits _ _ _); [|reflexivity].
    by apply list_lookup_insert_ne.
  - apply retryOperation_not_failed. rewrite Hfind.
    intros Hfailed. rewrite Hfailed in Hstatus. discriminate.
Qed.

End ServiceClaims.

Lemma processBarcodeScan_tiers_witness :
  (exists pre post,
     trace (processBarcodeScan sample_env sample_barcode None
              (sample_world true [sample_answer])).2
     = (pre ++ EvFetch (product_url sample_barcode) :: post)%list /\
     omap tier_of pre = []) /\
  (exists w' t tasks,
     processBarcodeScan sample_env sample_barcode None cached_world
     = (Ok (mkOutcome sample_product None (Some SrcCache)), w') /\
     trace w' = t /\
     Forall (fun e => is_network e = false) t /\
     background w' = tasks /\
     Forall (fun task => task_uses_network task = false) tasks).
Proof.
  split.
  - apply (proj1 (processBarcodeScan_tiers sample_env sample_barcode None
                    (sample_world true [sample_answer]))).
    reflexivity.
  - apply (proj2 (processBarcodeScan_tiers sample_env sample_barcode None cached_world)
             eq_refl eq_refl
             (JSON_stringify (VCachedProduct (mkCached sample_product 999000)))
             (mkCached sample_product 999000));
      [reflexivity|apply JSON_parse_stringify|vm_compute; discriminate].
Defined.

(** Two calls, the second made while the first is past its entry. *)
Lemma processOperationQueue_single_flight_witness :
  let w' := (processOperationQueue_enter false queue_world).2 in
  processOperationQueue sample_env true w' = (Ok 0, w') /\
  processOperationQueue sample_env false w' = (Ok 0, w') /\
  (active_passes [Active false; Returned 0] <= 1)%nat.
Proof.
  intros w'.
  pose proof (processOperationQueue_single_flight sample_env (processOperation sample_env))
    as (Hguard & Hsecond & Hpasses).
  split; [|split].
  - apply Hguard. reflexivity.
  - apply (Hsecond false false queue_world w' w'); reflexivity.
  - apply (Hpasses (queue_world, [Waiting false; Waiting false])
                   (w', [Active false; Returned 0])); [reflexivity|].
    eapply rtc_l.
    { apply (step_call sample_env (processOperation sample_env) 0 false queue_world
               [Waiting false; Waiting false] true w'); reflexivity. }
    eapply rtc_l; [|apply rtc_refl].
    apply (step_call sample_env (processOperation sample_env) 1 false w'
             [Active false; Waiting false] false w'); reflexivity.
Defined.

(** Three 429 answers: two seconds asked for, two minutes, no header. *)
Lemma makeApiRequest_retries_every_429_witness :
  let url := api_url "product/1.json" [] in
  let w' := (makeApiRequest "product/1.json" [] limited_world).2 in
  (exists pauses last,
     length pauses = 3%nat /\
     Forall is_pause (last :: pauses) /\
     trace w'
     = (limited_rounds url retry_after_ms pauses
          [(Some "2", None); (Some "120", None); (None, None)]
          ++ last ++ [EvFetch url])%list /\
     fetch_count
       (limited_rounds url retry_after_ms pauses
          [(Some "2", None); (Some "120", None); (None, None)]
          ++ last ++ [EvFetch url]) = 4%nat /\
     1000000 + 127000 <= clock w' /\
     replies w' = [] /\
     same_outcome (makeApiRequest "product/1.json" [] limited_world).1
       (Ok (mkApiData "1" "success" None None))) /\
  trace w'
  = [EvFetch url; EvSleep 2000; EvFetch url; EvSleep 120000; EvFetch url;
     EvSleep 5000; EvFetch url].
Proof.
  split; [|vm_compute; reflexivity].
  apply (makeApiRequest_retries_every_429 "product/1.json" []
           [(Some "2", None); (Some "120", None); (None, None)]
           (FetchResponse 200 None (Some (mkApiData "1" "success" None None)))
           [] limited_world); [reflexivity|reflexivity|reflexivity|].
  repeat (apply Forall_cons_2; [split; [by eexists|vm_compute; discriminate]|]).
  apply Forall_nil_2.
Defined.

(** A failed operation between two others. *)
Lemma retryOperation_frame_witness :
  let failed :=
    QueuedOperation.mk "op_2" SUBMIT_PRODUCT (mkData (Some "product") None None None None None)
      FAILED 3 3 (Some 999500%Q) (Some "Network request failed") 999000 999400 in
  let w := with_queue [sample_scan; failed; sample_update] (sample_world false []) in
  queue_summary (retryOperation sample_env "op_2" w).2
  = [("op_1", PENDING, 0, None); ("op_2", PENDING, 0, None); ("op_3", PENDING, 0, None)] /\
  retryOperation sample_env "op_1" w = (Ok None, w) /\
  retryOperation sample_env "op_9" w = (Ok None, w).
Proof.
  intros failed w.
  assert (Harray : queue_is_array sample_env (storage w) = true)
    by (vm_compute; reflexivity).
  split; [|split].
  - destruct (retryOperation_frame sample_env "op_2" w Harray)
      as (index & Hindex & _ & _ & _ & Hqueue & _).
    unfold queue_summary. rewrite Hqueue.
    vm_compute in Hindex. injection Hindex as <-. vm_compute. reflexivity.
  - exact (retryOperation_frame sample_env "op_1" w Harray).
  - exact (retryOperation_frame sample_env "op_9" w Harray).
Defined.

(** * Further properties of the service *)

(** ** The EAN-13 check of [validateBarcode] *)

Lemma parseInt10_char c :
  Barcode.parseInt10 (String c EmptyString) = Barcode.digit_value c.
Proof. destruct c as [[] [] [] [] [] [] [] []]; reflexivity. Qed.

Lemma digit_value_char c d :
  Barcode.digit_value c = Some d ->
  0 <= d <= 9 /\ c = Ascii.ascii_of_nat (Z.to_nat (48 + d)).
Proof.
  destruct c as [[] [] [] [] [] [] [] []]; vm_compute; intros [= <-];
    (split; [split; discriminate|reflexivity]).
Qed.

Lemma digit_value_inj c c' d :
  Barcode.digit_value c = Some d -> Barcode.digit_value c' = Some d -> c = c'.
Proof.
  intros H H'. apply digit_value_char in H as [_ ->].
  apply digit_value_char in H' as [_ ->]. reflexivity.
Qed.

Lemma weighted_sum_app i l1 l2 :
  Barcode.weighted_sum i (l1 ++ l2)
  = (a ← Barcode.weighted_sum i l1;
     b ← Barcode.weighted_sum (i + length l1) l2;
     Some (a + b)).
Proof.
  revert i. induction l1 as [|c l1 IH]; intros i; cbn [app Barcode.weighted_sum length].
  - rewrite Nat.add_0_r. cbn. destruct (Barcode.weighted_sum i l2); cbn; f_equal; lia.
  - destruct (Barcode.digit_value c) as [d|]; cbn [mbind option_bind]; [|reflexivity].
    rewrite IH. replace (i + S (length l1))%nat with (S i + length l1)%nat by lia.
    destruct (Barcode.weighted_sum (S i) l1) as [a|]; cbn [mbind option_bind]; [|reflexivity].
    destruct (Barcode.weighted_sum _ l2) as [b|]; cbn [mbind option_bind]; [|reflexivity].
    f_equal. ring.
Qed.

Lemma weight_1_or_3 i : Barcode.weight i = 1 \/ Barcode.weight i = 3.
Proof. unfold Barcode.weight. destruct (Nat.even i); auto. Qed.

(** A code with one character in the middle: its sum splits into the
    digit, with its weight, and the rest. *)
Lemma weighted_sum_middle i l1 c l2 total :
  Barcode.weighted_sum i (l1 ++ c :: l2) = Some total ->
  exists d rest,
    Barcode.digit_value c = Some d /\ 0 <= d <= 9 /\
    total = Barcode.weight (i + length l1) * d + rest /\
    forall c' d',
      Barcode.digit_value c' = Some d' ->
      Barcode.weighted_sum i (l1 ++ c' :: l2)
      = Some (Barcode.weight (i + length l1) * d' + rest).
Proof.
  rewrite weighted_sum_app.
  destruct (Barcode.weighted_sum i l1) as [a|] eqn:Ha; [|discriminate].
  cbn [mbind option_bind Barcode.weighted_sum].
  destruct (Barcode.digit_value c) as [d|] eqn:Hd; [|discriminate].
  cbn [mbind option_bind].
  destruct (Barcode.weighted_sum (S (i + length l1)) l2) as [b|] eqn:Hb; [|discriminate].
  cbn [mbind option_bind]. intros [= <-]. exists d, (a + b).
  split; [reflexivity|]. split; [by apply digit_value_char in Hd as [? _]|].
  split; [ring|].
  intros c' d' Hd'. rewrite weighted_sum_app, Ha.
  cbn [mbind option_bind Barcode.weighted_sum]. rewrite Hd'.
  cbn [mbind option_bind]. rewrite Hb. cbn [mbind option_bind]. f_equal. ring.
Qed.

Lemma weighted_sum_digits i l total :
  Barcode.weighted_sum i l = Some total ->
  Forall (fun c => is_Some (Barcode.digit_value c)) l.
Proof.
  revert i total. induction l as [|c l IH]; intros i total; [constructor|].
  cbn [Barcode.weighted_sum].
  destruct (Barcode.digit_value c) as [d|] eqn:Hd; cbn [mbind option_bind]; [|discriminate].
  destruct (Barcode.weighted_sum (S i) l) as [r|] eqn:Hr; cbn [mbind option_bind]; [|discriminate].
  intros _. constructor; [by rewrite Hd|by eapply IH].
Qed.

(** [validateBarcode] on thirteen characters is the check [ean13]. *)
Lemma validateBarcode_ean13 code :
  length code = 13%nat ->
  Barcode.validateBarcode (String.string_of_list_ascii code) "EAN-13" = true
  <-> Barcode.ean13 code.
Proof.
  intros Hlen.
  destruct code as [|c0 [|c1 [|c2 [|c3 [|c4 [|c5 [|c6 [|c7 [|c8 [|c9 [|c10 [|c11
    [|c12 [|]]]]]]]]]]]]]]; try discriminate.
  clear Hlen.
  unfold Barcode.validateBarcode, Barcode.ean13.
  cbn [String.string_of_list_ascii String.eqb Ascii.eqb Bool.eqb andb String.length Nat.eqb].
  cbn [Barcode.sum_digits Barcode.charAt String.get Nat.modulo Nat.divmod Nat.eqb fst snd
       Nat.sub Barcode.weighted_sum].
  rewrite !parseInt10_char.
  pose proof (digit_value_char c12) as H12.
  destruct (Barcode.digit_value c12) as [d12|];
    [specialize (H12 _ eq_refl) as [H12 _]
    |cbn; split; [intros [=]|];
     intros (total & Hn & _);
     repeat (destruct (Barcode.digit_value _); cbn in Hn; try discriminate)].
  pose proof (digit_value_char c0) as H0.
  pose proof (digit_value_char c1) as H1.
  pose proof (digit_value_char c2) as H2.
  pose proof (digit_value_char c3) as H3.
  pose proof (digit_value_char c4) as H4.
  pose proof (digit_value_char c5) as H5.
  pose proof (digit_value_char c6) as H6.
  pose proof (digit_value_char c7) as H7.
  pose proof (digit_value_char c8) as H8.
  pose proof (digit_value_char c9) as H9.
  pose proof (digit_value_char c10) as H10.
  pose proof (digit_value_char c11) as H11.
  destruct (Barcode.digit_value c0) as [d0|];
    [|cbn; split; [intros [=]|intros (total & [=] & _)]].
  destruct (Barcode.digit_value c1) as [d1|];
    [|cbn; split; [intros [=]|intros (total & [=] & _)]].
  destruct (Barcode.digit_value c2) as [d2|];
    [|cbn; split; [intros [=]|intros (total & [=] & _)]].
  destruct (Barcode.digit_value c3) as [d3|];
    [|cbn; split; [intros [=]|intros (total & [=] & _)]].
  destruct (Barcode.digit_value c4) as [d4|];
    [|cbn; split; [intros [=]|intros (total & [=] & _)]].
  destruct (Barcode.digit_value c5) as [d5|];
    [|cbn; split; [intros [=]|intros (total & [=] & _)]].
  destruct (Barcode.digit_value c6) as [d6|];
    [|cbn; split; [intros [=]|intros (total & [=] & _)]].
  destruct (Barcode.digit_value c7) as [d7|];
    [|cbn; split; [intros [=]|intros (total & [=] & _)]].
  destruct (Barcode.digit_value c8) as [d8|];
    [|cbn; split; [intros [=]|intros (total & [=] & _)]].
  destruct (Barcode.digit_value c9) as [d9|];
    [|cbn; split; [intros [=]|intros (total & [=] & _)]].
  destruct (Barcode.digit_value c10) as [d10|];
    [|cbn; split; [intros [=]|intros (total & [=] & _)]].
  destruct (Barcode.digit_value c11) as [d11|];
    [|cbn; split; [intros [=]|intros (total & [=] & _)]].
  specialize (H0 _ eq_refl) as [H0 _]. specialize (H1 _ eq_refl) as [H1 _].
  specialize (H2 _ eq_refl) as [H2 _]. specialize (H3 _ eq_refl) as [H3 _].
  specialize (H4 _ eq_refl) as [H4 _]. specialize (H5 _ eq_refl) as [H5 _].
  specialize (H6 _ eq_refl) as [H6 _]. specialize (H7 _ eq_refl) as [H7 _].
  specialize (H8 _ eq_refl) as [H8 _]. specialize (H9 _ eq_refl) as [H9 _].
  specialize (H10 _ eq_refl) as [H10 _]. specialize (H11 _ eq_refl) as [H11 _].
  cbn. rewrite Z.eqb_eq.
  match goal with
  | |- context [Z.rem ?s 10] =>
      rewrite (Z.rem_mod_nonneg s 10) by lia;
      pose proof (Z.mod_pos_bound s 10 eq_refl) as Hbound;
      rewrite (Z.rem_mod_nonneg (10 - s mod 10) 10) by lia
  end.
  split.
  - intros Heq. eexists. split; [reflexivity|]. revert Heq Hbound.
    Z.div_mod_to_equations. lia.
  - intros (total & [= <-] & Hmod). revert Hmod Hbound.
    Z.div_mod_to_equations. lia.
Qed.


Lemma digit_value_of_digit d :
  0 <= d <= 9 ->
  Barcode.digit_value (Ascii.ascii_of_nat (Z.to_nat (48 + d))) = Some d.
Proof.
  intros Hd.
  assert (d = 0 \/ d = 1 \/ d = 2 \/ d = 3 \/ d = 4 \/ d = 5 \/ d = 6 \/ d = 7 \/ d = 8 \/ d = 9)
    as Hcases by lia.
  repeat (destruct Hcases as [->|Hcases]; [reflexivity|]). subst d. reflexivity.
Qed.

Lemma weighted_sum_of_digits i l :
  Forall (fun c => is_Some (Barcode.digit_value c)) l ->
  exists total, Barcode.weighted_sum i l = Some total.
Proof.
  intros Hl. revert i. induction Hl as [|c l [d Hd] _ IH]; intros i; [by eexists|].
  destruct (IH (S i)) as [rest Hrest]. cbn [Barcode.weighted_sum].
  rewrite Hd, Hrest. by eexists.
Qed.

Lemma weight_succ i : Barcode.weight (S i) = 4 - Barcode.weight i.
Proof.
  unfold Barcode.weight. rewrite Nat.even_succ, <- Nat.negb_even.
  destruct (Nat.even i); reflexivity.
Qed.

(** One character of a valid code replaced by another: the code is no longer
    valid. *)
Lemma ean13_single_error l1 c c' l2 :
  c' <> c -> Barcode.ean13 (l1 ++ c :: l2) -> ~ Barcode.ean13 (l1 ++ c' :: l2).
Proof.
  intros Hne (total & Hsum & Hmod) (total' & Hsum' & Hmod').
  destruct (weighted_sum_middle _ _ _ _ _ Hsum) as (d & rest & Hd & Hrange & -> & Hother).
  destruct (weighted_sum_middle _ _ _ _ _ Hsum') as (d' & rest' & Hd' & Hrange' & -> & _).
  specialize (Hother c' d' Hd'). rewrite Hsum' in Hother. injection Hother as Hother.
  apply Hne. apply (digit_value_inj c' c d'); [exact Hd'|]. rewrite Hd. f_equal.
  destruct (weight_1_or_3 (0 + length l1)) as [Hw|Hw]; rewrite Hw in *;
    revert Hmod Hmod'; Z.div_mod_to_equations; lia.
Qed.

Section BarcodeResults.
Import Barcode.

(** X1: [validateBarcode] detects every single wrong character.  When a
    code of thirteen characters passes the EAN-13 check and one of its
    characters is replaced by a different one, digit or not, the result does
    not pass. *)
Theorem validateBarcode_detects_single_error (code : list Ascii.ascii) i c c' :
  length code = 13%nat ->
  code !! i = Some c ->
  c' <> c ->
  validateBarcode (String.string_of_list_ascii code) "EAN-13" = true ->
  validateBarcode (String.string_of_list_ascii (<[i := c']> code)) "EAN-13" = false.
Proof.
  intros Hlen Hi Hne Hvalid.
  apply validateBarcode_ean13 in Hvalid; [|exact Hlen].
  apply not_true_is_false. intros Hvalid'.
  apply validateBarcode_ean13 in Hvalid'; [|by rewrite length_insert].
  rewrite <- (take_drop_middle code i c Hi) in Hvalid.
  rewrite (insert_take_drop code i c') in Hvalid' by (by eapply lookup_lt_Some).
  by eapply ean13_single_error.
Qed.

(** X2: for every twelve digits there is exactly one thirteenth character
    with which [validateBarcode] accepts the code as EAN-13, and it is a
    digit.  A code whose format is not "EAN-13", or whose length is not 13,
    is accepted whatever it holds. *)
Theorem validateBarcode_check_digit (prefix : list Ascii.ascii) :
  length prefix = 12%nat ->
  Forall (fun c => is_Some (digit_value c)) prefix ->
  (exists c,
     is_Some (digit_value c) /\
     forall c', validateBarcode (String.string_of_list_ascii (prefix ++ [c'])) "EAN-13" = true
                <-> c' = c) /\
  (forall barcode format,
     format <> "EAN-13" \/ String.length barcode <> 13%nat ->
     validateBarcode barcode format = true).
Proof.
  intros Hlen Hdigits. split.
  - destruct (weighted_sum_of_digits 0 prefix Hdigits) as [total Htotal].
    set (d := (10 - total mod 10) mod 10).
    assert (Hd : 0 <= d <= 9) by (unfold d; Z.div_mod_to_equations; lia).
    set (c := Ascii.ascii_of_nat (Z.to_nat (48 + d))).
    assert (Hc : digit_value c = Some d) by (by apply digit_value_of_digit).
    assert (Hvalid : ean13 (prefix ++ [c])).
    { exists (total + (1 * d + 0)). split.
      - rewrite weighted_sum_app, Htotal, Hlen. cbn [mbind option_bind weighted_sum].
        rewrite Hc. reflexivity.
      - unfold d. Z.div_mod_to_equations. lia. }
    exists c. split; [by rewrite Hc|]. intros c'.
    rewrite validateBarcode_ean13 by (rewrite length_app, Hlen; reflexivity).
    split; [|by intros ->].
    intros Hvalid'. destruct (decide (c' = c)) as [|Hne]; [done|].
    by destruct (ean13_single_error prefix c c' [] Hne Hvalid).
  - intros barcode format Hother. unfold validateBarcode.
    destruct (String.eqb_spec format "EAN-13") as [->|_]; [|reflexivity].
    destruct (Nat.eqb_spec (String.length barcode) 13) as [Heq|_]; [|reflexivity].
    by destruct Hother.
Qed.

(** X3: the one kind of swap [validateBarcode] does not notice.  When two
    neighbouring digits of a code that passes the EAN-13 check are
    exchanged, the result passes exactly when the two digits are equal or
    differ by 5. *)
Theorem validateBarcode_transposition (l1 l2 : list Ascii.ascii) a b da db :
  length (l1 ++ a :: b :: l2) = 13%nat ->
  digit_value a = Some da ->
  digit_value b = Some db ->
  validateBarcode (String.string_of_list_ascii (l1 ++ a :: b :: l2)) "EAN-13" = true ->
  validateBarcode (String.string_of_list_ascii (l1 ++ b :: a :: l2)) "EAN-13" = true
  <-> (da = db \/ da - db = 5 \/ db - da = 5).
Proof.
  intros Hlen Ha Hb Hvalid.
  apply validateBarcode_ean13 in Hvalid; [|exact Hlen].
  rewrite validateBarcode_ean13
    by (rewrite length_app in *; cbn [length] in *; exact Hlen).
  destruct Hvalid as (total & Hsum & Hmod).
  rewrite weighted_sum_app in Hsum.
  destruct (weighted_sum 0 l1) as [before|] eqn:Hbefore; [|discriminate].
  cbn [mbind option_bind weighted_sum] in Hsum. rewrite Ha, Hb in Hsum.
  cbn [mbind option_bind] in Hsum.
  destruct (weighted_sum (S (S (0 + length l1))) l2) as [after|] eqn:Hafter; [|discriminate].
  cbn [mbind option_bind] in Hsum. injection Hsum as <-.
  assert (Hswapped : weighted_sum 0 (l1 ++ b :: a :: l2)
                     = Some (before + (weight (0 + length l1) * db
                                       + (weight (S (0 + length l1)) * da + after)))).
  { rewrite weighted_sum_app, Hbefore. cbn [mbind option_bind weighted_sum].
    rewrite Ha, Hb. cbn [mbind option_bind]. rewrite Hafter. reflexivity. }
  apply digit_value_char in Ha as [Hda _]. apply digit_value_char in Hb as [Hdb _].
  unfold ean13. rewrite Hswapped. rewrite weight_succ in *.
  change (0 + length l1)%nat with (length l1) in *.
  destruct (weight_1_or_3 (length l1)) as [Hw|Hw]; rewrite Hw in *.
  - split.
    + intros (total' & [= <-] & Hmod'). revert Hmod Hmod'. Z.div_mod_to_equations. lia.
    + intros Hdiff. eexists. split; [reflexivity|]. revert Hmod.
      Z.div_mod_to_equations. lia.
  - split.
    + intros (total' & [= <-] & Hmod'). revert Hmod Hmod'. Z.div_mod_to_equations. lia.
    + intros Hdiff. eexists. split; [reflexivity|]. revert Hmod.
      Z.div_mod_to_equations. lia.
Qed.

End BarcodeResults.

(** ** The pause between two requests *)

(** X5: [enforceRateLimit] keeps requests one second apart.  When it
    returns, the time of the last request is the present, the clock has not
    gone back, and at least [API_RATE_LIMIT_MS] have passed since the
    request before, if there was one. *)
Theorem enforceRateLimit_spacing w :
  let w' := (enforceRateLimit w).2 in
  (enforceRateLimit w).1 = Ok tt /\
  lastApiCallTime w' = clock w' /\
  clock w <= clock w' /\
  (0 < lastApiCallTime w -> lastApiCallTime w + API_RATE_LIMIT_MS <= clock w') /\
  (lastApiCallTime w + API_RATE_LIMIT_MS <= clock w -> clock w' = clock w).
Proof.
  rewrite enforceRateLimit_run. cbn [fst snd]. unfold after_spacing, API_RATE_LIMIT_MS.
  destruct (Z.ltb_spec (clock w - lastApiCallTime w) 1000);
    destruct (Z.gtb_spec (lastApiCallTime w) 0); cbn; repeat split; lia.
Qed.

(** ** Generated identifiers *)

Section UuidProperties.
Context (env : Env).
Hypothesis random_range : forall n, (0 <= random env n)%Q /\ (random env n < 1)%Q.

Lemma random_digit n : 0 <= Qfloor (random env n * 16) <= 15.
Proof.
  destruct (random_range n) as [H0 H1]. split.
  - change 0 with (Qfloor 0). apply Qfloor_resp_le. nra.
  - assert (Hlt : (inject_Z (Qfloor (random env n * 16)) < inject_Z 16)%Q).
    { eapply Qle_lt_trans; [apply Qfloor_le|]. change (inject_Z 16) with 16%Q. nra. }
    rewrite <- Zlt_Qlt in Hlt. lia.
Qed.

Lemma hex_digit_char v :
  0 <= v <= 15 -> exists c, hex_digit v = String c EmptyString /\ is_hex c = true.
Proof.
  intros Hv.
  assert (Hcases : v = 0 \/ v = 1 \/ v = 2 \/ v = 3 \/ v = 4 \/ v = 5 \/ v = 6 \/ v = 7 \/
                   v = 8 \/ v = 9 \/ v = 10 \/ v = 11 \/ v = 12 \/ v = 13 \/ v = 14 \/ v = 15)
    by lia.
  repeat (destruct Hcases as [->|Hcases]; [by eexists|]). subst v. by eexists.
Qed.

Lemma variant_digit_char r :
  0 <= r <= 15 ->
  exists c, hex_digit (Z.lor (Z.land r 3) 8) = String c EmptyString /\
            existsb (Ascii.eqb c) (String.list_ascii_of_string "89ab") = true.
Proof.
  intros Hr.
  assert (Hcases : r = 0 \/ r = 1 \/ r = 2 \/ r = 3 \/ r = 4 \/ r = 5 \/ r = 6 \/ r = 7 \/
                   r = 8 \/ r = 9 \/ r = 10 \/ r = 11 \/ r = 12 \/ r = 13 \/ r = 14 \/ r = 15)
    by lia.
  repeat (destruct Hcases as [->|Hcases]; [by eexists|]). subst r. by eexists.
Qed.

Lemma fill_template_fits template w :
  exists s w',
    fill_template env template w = (Ok s, w') /\
    fits_template template s = true /\
    String.length s = String.length template /\
    storage w' = storage w /\ trace w' = trace w /\ clock w' = clock w.
Proof.
  revert w. induction template as [|t template IH]; intros w; cbn [fill_template].
  - by exists "", w.
  - destruct (Ascii.eqb t "x" || Ascii.eqb t "y") eqn:Hxy.
    + unfold bind at 1. unfold next_call, bind at 1, get at 1.
      unfold bind at 1, modify at 1, ret at 1. cbv zeta.
      destruct (IH (set_calls (S (calls w)) w)) as (tail & w' & Hrun & Hfits & Hlen & Hs & Ht & Hc).
      unfold bind at 1. rewrite Hrun. unfold ret.
      pose proof (random_digit (calls w)) as Hr.
      destruct (Ascii.eqb t "x") eqn:Hx.
      * destruct (hex_digit_char _ Hr) as (c & -> & Hc').
        exists (String c tail), w'. split; [reflexivity|].
        cbn [fits_template String.length]. rewrite Hx, Hc', Hfits, Hlen. auto.
      * cbn [orb] in Hxy. destruct (variant_digit_char _ Hr) as (c & -> & Hc').
        exists (String c tail), w'. split; [reflexivity|].
        cbn [fits_template String.length]. rewrite Hx, Hxy, Hc', Hfits, Hlen. auto.
    + destruct (IH w) as (tail & w' & Hrun & Hfits & Hlen & Hs & Ht & Hc).
      unfold bind at 1. rewrite Hrun. unfold ret.
      exists (String t tail), w'. split; [reflexivity|].
      apply orb_false_elim in Hxy as [Hx Hy].
      cbn [fits_template String.length]. rewrite Hx, Hy, Ascii.eqb_refl, Hfits, Hlen. auto.
Qed.

(** X6: with random numbers in [0, 1), [generateUUID] returns a well-formed
    version 4 identifier: 36 characters, hyphens after the eighth, twelfth,
    sixteenth and twentieth digit, the digit 4 at the head of the third
    group, one of 8, 9, a, b at the head of the fourth, and hexadecimal
    digits elsewhere.  It touches neither the store nor the trace. *)
Theorem generateUUID_well_formed w :
  exists s,
    (generateUUID env w).1 = Ok s /\
    fits_template "xxxxxxxx-xxxx-4xxx-yxxx-xxxxxxxxxxxx" s = true /\
    String.length s = 36%nat /\
    storage (generateUUID env w).2 = storage w /\
    trace (generateUUID env w).2 = trace w.
Proof.
  unfold generateUUID.
  destruct (fill_template_fits "xxxxxxxx-xxxx-4xxx-yxxx-xxxxxxxxxxxx" w)
    as (s & w' & Hrun & Hfits & Hlen & Hs & Ht & _).
  rewrite Hrun. exists s. auto.
Qed.

End UuidProperties.

Lemma generateUUID_well_formed_witness :
  exists s,
    (generateUUID sample_env (sample_world true [])).1 = Ok s /\
    fits_template "xxxxxxxx-xxxx-4xxx-yxxx-xxxxxxxxxxxx" s = true /\
    String.length s = 36%nat /\
    storage (generateUUID sample_env (sample_world true [])).2 = ∅ /\
    trace (generateUUID sample_env (sample_world true [])).2 = [].
Proof.
  apply (generateUUID_well_formed sample_env).
  intros n. split; [discriminate|reflexivity].
Defined.

(** ** The mapped product *)

Lemma nutrition_points_range g : -20 <= HealthRule.nutrition_points g <= 30.
Proof.
  destruct g as [g|]; cbn; [|lia].
  repeat match goal with
  | |- context [if ?b then _ else _] => destruct b
  end; lia.
Qed.

Lemma processing_points_range n : -20 <= HealthRule.processing_points n <= 20.
Proof.
  destruct n as [n|]; cbn; [|lia].
  repeat match goal with
  | |- context [if ?b then _ else _] => destruct b
  end; lia.
Qed.

Lemma organic_points_range labels : 0 <= HealthRule.organic_points labels <= 10.
Proof.
  destruct labels as [l|]; cbn; [|lia]. destruct (existsb _ l); lia.
Qed.

Lemma or_else_nonempty (s : option string) (fallback : string) :
  fallback <> "" -> default fallback (Js.or_else s None) <> "".
Proof.
  intros Hf. unfold Js.or_else, Js.truthy. destruct s as [s|]; cbn; [|exact Hf].
  destruct (String.eqb_spec s ""); cbn; [exact Hf|assumption].
Qed.

(** X7: the product [mapApiResponseToProduct] builds carries the barcode
    that was asked for, whatever code the answer names, a name and a brand
    that are never empty, and the health score of the payload, which lies
    between 10 and 100: the lower clamp of [calculateHealthScore] is never
    reached. *)
Theorem mapApiResponseToProduct_sound apiProduct barcode id created_at :
  let product := mapApiResponseToProduct apiProduct barcode id created_at in
  Product.barcode product = barcode /\
  Product.name product <> "" /\
  Product.brand product <> "" /\
  Product.safety_score product = calculateHealthScore apiProduct /\
  10 <= calculateHealthScore apiProduct <= 100.
Proof.
  cbv zeta. unfold mapApiResponseToProduct. cbn [Product.barcode Product.name Product.brand
    Product.safety_score].
  split; [reflexivity|]. split; [by apply or_else_nonempty|].
  split; [by apply or_else_nonempty|]. split; [reflexivity|].
  rewrite calculateHealthScore_rule. unfold HealthRule.score, clamp_0_100.
  pose proof (nutrition_points_range (nutriscore_grade (product apiProduct))).
  pose proof (processing_points_range (nova_group (product apiProduct))).
  pose proof (organic_points_range (labels_tags (product apiProduct))).
  lia.
Qed.

(** ** Reading back what was written *)

Section StorageRoundTrip.
Context {J : JSON} (env : Env).

Lemma getItem_run key w : Storage.getItem env key w = (Ok (Storage.read env (storage w) key), w).
Proof. reflexivity. Qed.

Lemma read_insert m key value :
  value <> "" -> Storage.read env (<[key := value]> m) key = Some value.
Proof. intros Hv. apply read_Some; [apply lookup_insert_eq|exact Hv]. Qed.

Lemma read_insert_ne m key key' value :
  key' <> key -> Storage.read env (<[key := value]> m) key' = Storage.read env m key'.
Proof. intros Hne. unfold Storage.read. by rewrite lookup_insert_ne. Qed.

Lemma read_delete m key : Storage.read env (delete key m) key = None.
Proof. apply read_None, lookup_delete_eq. Qed.

Lemma read_delete_ne m key key' :
  key' <> key -> Storage.read env (delete key m) key' = Storage.read env m key'.
Proof. intros Hne. unfold Storage.read. by rewrite lookup_delete_ne. Qed.

(** X8: a value that [setItem] accepted is what [getItem] returns for the
    key, and when the store was within its budget no other key has changed.
    (A write that needed the eviction pass may have cost other keys their
    entries.) *)
Theorem setItem_then_getItem key value w :
  (Storage.setItem env key value w).1 = Ok tt ->
  value <> "" ->
  let w' := (Storage.setItem env key value w).2 in
  Storage.getItem env key w' = (Ok (Some value), w') /\
  (over_budget env (storage w) value = false ->
   forall key', key' <> key -> storage w' !! key' = storage w !! key').
Proof.
  intros Hok Hvalue. cbv zeta. rewrite setItem_run in *.
  destruct (over_budget env (storage w) value).
  - destruct (over_budget env (evict env (storage w)) value); [discriminate|].
    cbn [snd]. rewrite getItem_run. cbn [storage set_storage].
    split; [by rewrite read_insert|discriminate].
  - cbn [snd]. rewrite getItem_run. cbn [storage set_storage].
    split; [by rewrite read_insert|].
    intros _ key' Hne. by rewrite lookup_insert_ne.
Qed.

(** *** [Storage.clear] *)

Lemma elem_of_keys_of m key :
  key ∈ Storage.keys_of env m <->
  is_Some (m !! key) /\
  (backend env = MemoryStorage \/ Js.startsWith key STORAGE_PREFIX = true).
Proof.
  unfold Storage.keys_of.
  assert (Hdom : key ∈ (map_to_list m).*1 <-> is_Some (m !! key)).
  { rewrite list_elem_of_fmap. split.
    - intros ([k v] & -> & Hin). apply elem_of_map_to_list in Hin. by eexists.
    - intros [v Hv]. exists (key, v). split; [reflexivity|]. by apply elem_of_map_to_list. }
  destruct (backend env).
  - rewrite list_elem_of_In, filter_In, <- list_elem_of_In, Hdom. split.
    + intros [Hs Hp]. split; [exact Hs|by right].
    + intros [Hs [|Hp]]; [discriminate|]. by split.
  - rewrite list_elem_of_In, filter_In, <- list_elem_of_In, Hdom. split.
    + intros [Hs Hp]. split; [exact Hs|by right].
    + intros [Hs [|Hp]]; [discriminate|]. by split.
  - rewrite Hdom. split; [intros Hs; split; [exact Hs|by left]|by intros [Hs _]].
Qed.

Lemma keys_of_cleared m :
  Storage.keys_of env (foldr delete m (Storage.keys_of env m)) = [].
Proof.
  apply elem_of_nil_inv. intros key Hin.
  apply elem_of_keys_of in Hin as [Hsome Hkind].
  destruct (decide (key ∈ Storage.keys_of env m)) as [Hold|Hnew].
  - rewrite (lookup_foldr_delete m _ key Hold) in Hsome. by destruct Hsome.
  - rewrite lookup_foldr_delete_not_elem_of in Hsome by exact Hnew.
    apply Hnew. by apply elem_of_keys_of.
Qed.

(** X9: after [Storage.clear] the adapter lists no key and measures a size
    of zero.  On [localStorage] and on [AsyncStorage] it removes only keys
    that start with the prefix of the application: every other key of the
    store keeps its value. *)
Theorem clear_removes_own_keys w :
  let w' := (StorageOps.clear env w).2 in
  (StorageOps.clear env w).1 = Ok tt /\
  Storage.getAllKeys env w' = (Ok [], w') /\
  Storage.getSize env w' = (Ok 0, w') /\
  (backend env <> MemoryStorage ->
   forall key, Js.startsWith key STORAGE_PREFIX = false ->
               storage w' !! key = storage w !! key).
Proof.
  cbv zeta. unfold StorageOps.clear, bind, Storage.getAllKeys, get.
  rewrite multiRemove_run. cbn [fst snd]. split; [reflexivity|].
  assert (Hkeys : Storage.keys_of env (storage (set_storage
             (fun m => foldr delete m (Storage.keys_of env (storage w))) w)) = [])
    by apply keys_of_cleared.
  split; [by rewrite Hkeys|]. split.
  - rewrite getSize_run. unfold stored_size. by rewrite Hkeys.
  - intros Hbackend key Hprefix. cbn [storage set_storage].
    apply lookup_foldr_delete_not_elem_of. intros Hin.
    apply elem_of_keys_of in Hin as [_ [Hm|Hp]]; [contradiction|congruence].
Qed.

End StorageRoundTrip.

(** ** The product cache *)

Section CacheRoundTrip.
Context {J : JSON} (env : Env).

(** What [saveToCache] leaves in the store. *)
Lemma saveToCache_run product w :
  let key := key_of (Product.barcode product) in
  let text := cache_text product (clock w) in
  let m := storage w in
  exists w',
    saveToCache env product w = (Ok tt, w') /\
    clock w' = clock w /\
    trace w' = (trace w ++ [EvCacheWrite key])%list /\
    storage w'
    = if over_budget env m text then
        if over_budget env (evict env m) text then evict env m
        else <[key := text]> (evict env m)
      else <[key := text]> m.
Proof.
  cbv zeta. unfold saveToCache, try_catch. cbv zeta.
  unfold bind at 1. unfold Date_now, get at 1.
  unfold bind at 1. unfold emit, modify at 1.
  rewrite setItem_run. cbn [storage set_trace]. fold (cache_text product (clock w)).
  destruct (over_budget env (storage w) _).
  - destruct (over_budget env (evict env (storage w)) _); eexists; split; reflexivity || auto.
  - eexists; split; reflexivity || auto.
Qed.

(** What [saveToCache] stored, [getFromCache] returns. *)
Lemma cache_round_trip product w (elapsed : Z) :
  let text := cache_text product (clock w) in
  let saved := (saveToCache env product w).2 in
  let later := set_clock (clock w + elapsed) saved in
  (saveToCache env product w).1 = Ok tt /\
  (over_budget env (storage w) text && over_budget env (evict env (storage w)) text = false ->
   0 <= elapsed ->
   (elapsed <= CACHE_EXPIRY_MS ->
    (getFromCache env (Product.barcode product) later).1 = Ok (Some product)) /\
   (CACHE_EXPIRY_MS < elapsed ->
    (getFromCache env (Product.barcode product) later).1 = Ok None /\
    storage (getFromCache env (Product.barcode product) later).2
      !! key_of (Product.barcode product) = None)).
Proof.
  cbv zeta. destruct (saveToCache_run product w) as (w' & Hrun & Hclock & _ & Hstore).
  rewrite Hrun. cbn [fst snd]. split; [reflexivity|].
  intros Hroom Helapsed.
  assert (Hentry : storage (set_clock (clock w + elapsed) w')
                   !! key_of (Product.barcode product)
                   = Some (cache_text product (clock w))).
  { cbn [storage set_clock]. rewrite Hstore.
    destruct (over_budget env (storage w) _); [|apply lookup_insert_eq].
    destruct (over_budget env (evict env (storage w)) _); [discriminate|].
    apply lookup_insert_eq. }
  assert (Hparse : JSON_parse (cache_text product (clock w))
                   = Some (VCachedProduct (mkCached product (clock w))))
    by apply JSON_parse_stringify.
  split.
  - intros Hfresh.
    rewrite (getFromCache_fresh env _ _ _ _ Hentry Hparse); [reflexivity|].
    cbn. lia.
  - intros Hold.
    rewrite (getFromCache_expired env _ _ _ _ Hentry Hparse) by (cbn; lia).
    split; [reflexivity|]. cbn. apply lookup_delete_eq.
Qed.

(** X10: what [saveToCache] stored, [getFromCache] returns.  [saveToCache]
    never fails its caller.  When the write had room, at once or after the
    eviction pass, a lookup of the barcode made up to 24 hours later returns
    the product as it was saved; a lookup made later than that returns
    nothing and removes the entry. *)
Theorem saveToCache_then_getFromCache product w (elapsed : Z) :
  let text := cache_text product (clock w) in
  let saved := (saveToCache env product w).2 in
  let later := set_clock (clock w + elapsed) saved in
  (saveToCache env product w).1 = Ok tt /\
  (over_budget env (storage w) text && over_budget env (evict env (storage w)) text = false ->
   0 <= elapsed ->
   (elapsed <= CACHE_EXPIRY_MS ->
    (getFromCache env (Product.barcode product) later).1 = Ok (Some product)) /\
   (CACHE_EXPIRY_MS < elapsed ->
    (getFromCache env (Product.barcode product) later).1 = Ok None /\
    storage (getFromCache env (Product.barcode product) later).2
      !! key_of (Product.barcode product) = None)).
Proof. apply cache_round_trip. Qed.

(** *** [cleanupCache] *)

Lemma foldr_delete_cons (m : gmap string string) key keys :
  delete key (foldr delete m keys) = foldr delete m (key :: keys).
Proof. reflexivity. Qed.

Lemma expired_at_delete m now key key' :
  expired_at env (delete key m) now key' -> key' <> key /\ expired_at env m now key'.
Proof.
  intros (s & parsed & t & Hread & Hs & Hp & Ht & Hold).
  destruct (decide (key' = key)) as [->|Hne].
  - rewrite read_delete in Hread. discriminate.
  - split; [exact Hne|]. rewrite read_delete_ne in Hread by exact Hne.
    by exists s, parsed, t.
Qed.

Lemma expired_at_delete_ne m now key key' :
  key' <> key -> expired_at env m now key' -> expired_at env (delete key m) now key'.
Proof.
  intros Hne (s & parsed & t & Hread & Hs & Hp & Ht & Hold).
  exists s, parsed, t. by rewrite read_delete_ne.
Qed.

(** One round of the loop: the key is removed exactly when it holds an
    expired entry; a text that is no JSON ends the loop. *)
Lemma cleanup_expired_cons now key keys w :
  cleanup_expired env now (key :: keys) w
  = match Storage.read env (storage w) key with
    | Some s =>
        if String.eqb s "" then cleanup_expired env now keys w
        else
          match JSON_parse s with
          | Some parsed =>
              match timestamp_of parsed with
              | Some timestamp =>
                  if now - timestamp >? CACHE_EXPIRY_MS
                  then cleanup_expired env now keys (set_storage (delete key) w)
                  else cleanup_expired env now keys w
              | None => cleanup_expired env now keys w
              end
          | None => (Throw (mkError PlainError "Unexpected token in JSON"), w)
          end
    | None => cleanup_expired env now keys w
    end.
Proof.
  cbn [cleanup_expired]. unfold bind at 1. rewrite getItem_run. unfold bind at 1.
  destruct (Storage.read env (storage w) key) as [s|]; [|reflexivity].
  change (default "" (Some s)) with s. unfold Js.truthy.
  destruct (String.eqb s ""); cbn [negb]; [reflexivity|].
  destruct (JSON_parse s) as [parsed|]; [|reflexivity].
  destruct (timestamp_of parsed) as [timestamp|]; [|reflexivity].
  destruct (now - timestamp >? CACHE_EXPIRY_MS); reflexivity.
Qed.

Lemma cleanup_expired_spec now keys w :
  exists removed,
    storage (cleanup_expired env now keys w).2 = foldr delete (storage w) removed /\
    clock (cleanup_expired env now keys w).2 = clock w /\
    trace (cleanup_expired env now keys w).2 = trace w /\
    Forall (fun key => key ∈ keys /\ expired_at env (storage w) now key) removed /\
    ((cleanup_expired env now keys w).1 = Ok tt ->
     forall key, key ∈ keys -> expired_at env (storage w) now key -> key ∈ removed) /\
    ((forall key s, key ∈ keys -> Storage.read env (storage w) key = Some s -> s <> "" ->
                    is_Some (JSON_parse s)) ->
     (cleanup_expired env now keys w).1 = Ok tt).
Proof.
  revert w. induction keys as [|key keys IH]; intros w.
  { exists []. repeat split; [constructor|by intros _ key Hin; apply elem_of_nil in Hin]. }
  rewrite cleanup_expired_cons.
  (* the rounds in which the store is left alone *)
  assert (Hskip : ~ expired_at env (storage w) now key ->
            exists removed,
              storage (cleanup_expired env now keys w).2 = foldr delete (storage w) removed /\
              clock (cleanup_expired env now keys w).2 = clock w /\
              trace (cleanup_expired env now keys w).2 = trace w /\
              Forall (fun k => k ∈ key :: keys /\ expired_at env (storage w) now k) removed /\
              ((cleanup_expired env now keys w).1 = Ok tt ->
               forall k, k ∈ key :: keys -> expired_at env (storage w) now k -> k ∈ removed) /\
              ((forall k s, k ∈ key :: keys -> Storage.read env (storage w) k = Some s ->
                            s <> "" -> is_Some (JSON_parse s)) ->
               (cleanup_expired env now keys w).1 = Ok tt)).
  { intros Hnot. destruct (IH w) as (removed & Hs & Hc & Ht & Hsound & Hcomplete & Hok).
    exists removed. split; [exact Hs|]. split; [exact Hc|]. split; [exact Ht|].
    split; [|split].
    - eapply Forall_impl; [exact Hsound|]. intros k [Hin Hexp]. split; [by right|exact Hexp].
    - intros Hrun k Hin Hexp. apply elem_of_cons in Hin as [->|Hin]; [contradiction|].
      by apply Hcomplete.
    - intros Hparse. apply Hok. intros k s Hin. apply Hparse. by right. }
  destruct (Storage.read env (storage w) key) as [s|] eqn:Hread.
  2: { apply Hskip. intros (s & ? & ? & Hr & _). congruence. }
  destruct (String.eqb_spec s "") as [->|Hs].
  { apply Hskip. intros (s & ? & ? & Hr & Hne & _). congruence. }
  destruct (JSON_parse s) as [parsed|] eqn:Hparsed.
  2: { exists []. cbn [fst snd foldr]. repeat split; [constructor|discriminate|].
       intros Hparse. destruct (Hparse key s) as [? Hsome]; [by left|exact Hread|exact Hs|].
       congruence. }
  destruct (timestamp_of parsed) as [timestamp|] eqn:Hstamp.
  2: { apply Hskip. intros (s' & p' & t' & Hr & _ & Hp & Ht & _). congruence. }
  destruct (Z.gtb_spec (now - timestamp) CACHE_EXPIRY_MS) as [Hold|Hfresh].
  2: { apply Hskip. intros (s' & p' & t' & Hr & _ & Hp & Ht & Hold).
       assert (s' = s) by congruence. subst s'.
       assert (p' = parsed) by congruence. subst p'.
       assert (t' = timestamp) by congruence. lia. }
  (* the round that removes the key *)
  assert (Hexpired : expired_at env (storage w) now key).
  { exists s, parsed, timestamp. repeat split; try assumption. lia. }
  destruct (IH (set_storage (delete key) w))
    as (removed & Hstore & Hc & Ht & Hsound & Hcomplete & Hok).
  exists (removed ++ [key])%list. cbn [storage set_storage] in *.
  split; [by rewrite Hstore, foldr_app|]. split; [exact Hc|]. split; [exact Ht|].
  split; [|split].
  - apply Forall_app. split; [|by repeat constructor].
    eapply Forall_impl; [exact Hsound|]. intros k [Hin Hexp].
    apply expired_at_delete in Hexp as [_ Hexp]. split; [by right|exact Hexp].
  - intros Hrun k Hin Hexp. apply elem_of_app.
    destruct (decide (k = key)) as [->|Hne]; [right; by left|left].
    apply elem_of_cons in Hin as [->|Hin]; [done|].
    apply Hcomplete; [exact Hrun|exact Hin|by apply expired_at_delete_ne].
  - intros Hparse. apply Hok. intros k s' Hin Hr Hne.
    destruct (decide (k = key)) as [->|Hk].
    + rewrite read_delete in Hr. discriminate.
    + rewrite read_delete_ne in Hr by exact Hk. apply (Hparse k s'); [by right|exact Hr|exact Hne].
Qed.

Lemma prefix_app_l (p q s : string) :
  String.prefix (p +:+ q) s = true -> String.prefix p s = true.
Proof.
  revert s. induction p as [|a p IH]; intros s; [by destruct s|].
  change (String a p +:+ q) with (String a (p +:+ q)).
  destruct s as [|b s]; cbn [String.prefix]; [discriminate|].
  destruct (Ascii.ascii_dec a b); [apply IH|discriminate].
Qed.

Lemma startsWith_product_key key :
  Js.startsWith key CACHE_KEY_PREFIX = true -> Js.startsWith key STORAGE_PREFIX = true.
Proof. apply (prefix_app_l "scani_" "product_"). Qed.

(** X11: [cleanupCache] removes expired product entries and nothing else.
    It never fails.  Every key of the store keeps its value, unless it is a
    product key whose entry is older than 24 hours, which may be removed.
    When the texts stored under product keys are cached products, every
    expired product entry is removed. *)
Theorem cleanupCache_removes_expired w :
  let m := storage w in
  let m' := storage (cleanupCache env w).2 in
  (cleanupCache env w).1 = Ok tt /\
  (forall key,
     m' !! key = m !! key \/
     (m' !! key = None /\ Js.startsWith key CACHE_KEY_PREFIX = true /\
      expired_at env m (clock w) key)) /\
  (product_entries_cached env m ->
   forall key,
     Js.startsWith key CACHE_KEY_PREFIX = true ->
     expired_at env m (clock w) key ->
     m' !! key = None).
Proof.
  cbv zeta. destruct (cleanupCache env w) as [r w'] eqn:Hrun. cbn [fst snd].
  unfold cleanupCache, try_catch in Hrun.
  unfold bind at 1 in Hrun. unfold Date_now, get at 1 in Hrun.
  unfold bind at 1 in Hrun. unfold Storage.getAllKeys, get at 1 in Hrun.
  cbv zeta in Hrun.
  set (productKeys := List.filter _ _) in Hrun.
  destruct (cleanup_expired_spec (clock w) productKeys w)
    as (removed & Hstore & _ & _ & Hsound & Hcomplete & Hok).
  assert (Hin : forall key, key ∈ productKeys ->
                            Js.startsWith key CACHE_KEY_PREFIX = true).
  { intros key Hkey. unfold productKeys in Hkey.
    apply list_elem_of_In, filter_In in Hkey. tauto. }
  destruct (cleanup_expired env (clock w) productKeys w) as [r1 w1] eqn:Hloop.
  cbn [fst snd] in *.
  assert (Hresult : r = Ok tt /\ w' = w1).
  { destruct r1 as [[]|]; unfold ret in Hrun; injection Hrun; auto. }
  destruct Hresult as [-> ->]. split; [reflexivity|].
  rewrite Hstore. split.
  - intros key. destruct (decide (key ∈ removed)) as [Hrem|Hkeep].
    + right. split; [by apply lookup_foldr_delete|].
      rewrite Forall_forall in Hsound. destruct (Hsound key Hrem) as [Hkey Hexp].
      split; [by apply Hin|exact Hexp].
    + left. by apply lookup_foldr_delete_not_elem_of.
  - intros Hparse key Hprefix Hexp. apply lookup_foldr_delete.
    apply Hcomplete; [| |exact Hexp].
    + apply Hok. intros k s Hk Hread Hne.
      destruct (Hparse k s (Hin k Hk) Hread Hne) as [c ->]. by eexists.
    + unfold productKeys. apply list_elem_of_In, filter_In. split; [|exact Hprefix].
      apply list_elem_of_In, elem_of_keys_of. split.
      * destruct Hexp as (s & _ & _ & Hread & _). unfold Storage.read in Hread.
        destruct (storage w !! key); [by eexists|]. by destruct (backend env).
      * right. by apply startsWith_product_key.
Qed.

End CacheRoundTrip.

(** ** Administration of the queue *)

Section QueueAdministration.
Context {J : JSON} (env : Env).

Lemma findIndex_none operationId (queue : list QueuedOperation.t) :
  Forall (fun op => QueuedOperation.id op <> operationId) queue ->
  findIndex operationId queue = None.
Proof.
  induction 1 as [|op queue Hop _ IH]; cbn; [reflexivity|].
  destruct (String.eqb_spec (QueuedOperation.id op) operationId); [contradiction|].
  by rewrite IH.
Qed.

Lemma findIndex_first operationId (before after : list QueuedOperation.t) op :
  Forall (fun op => QueuedOperation.id op <> operationId) before ->
  QueuedOperation.id op = operationId ->
  findIndex operationId (before ++ op :: after) = Some (length before).
Proof.
  intros Hbefore Hop. induction Hbefore as [|op' before Hop' _ IH]; cbn.
  - by rewrite Hop, String.eqb_refl.
  - destruct (String.eqb_spec (QueuedOperation.id op') operationId); [contradiction|].
    by rewrite IH.
Qed.

(** X12: on a store whose queue entry, if there is one, is an array,
    [removeOperation] takes out the first operation with the id, and
    only that one.  With no such operation it answers [false] and changes
    nothing.  Otherwise it answers [true]; the operations before and after
    the first match stay in their order, provided the shorter queue could be
    written, and the queue stays as it was when it could not. *)
Theorem removeOperation_first_match operationId w :
  queue_is_array env (storage w) = true ->
  let queue := stored_queue env (storage w) in
  (Forall (fun op => QueuedOperation.id op <> operationId) queue ->
   removeOperation env operationId w = (Ok false, w)) /\
  (forall before op after,
     queue = (before ++ op :: after)%list ->
     Forall (fun op => QueuedOperation.id op <> operationId) before ->
     QueuedOperation.id op = operationId ->
     (removeOperation env operationId w).1 = Ok true /\
     stored_queue env (storage (removeOperation env operationId w).2)
     = if queue_write_fits env (storage w) (before ++ after)
       then (before ++ after)%list else queue).
Proof.
  intros _. cbv zeta. split.
  - intros Hnone. unfold removeOperation. unfold bind at 1.
    rewrite getOperationQueue_run. by rewrite (findIndex_none _ _ Hnone).
  - intros before op after Hqueue Hbefore Hop.
    destruct (removeOperation env operationId w) as [r w'] eqn:Hrun.
    unfold removeOperation in Hrun. unfold bind at 1 in Hrun.
    rewrite getOperationQueue_run, Hqueue in Hrun.
    rewrite (findIndex_first _ _ after _ Hbefore Hop) in Hrun.
    rewrite list_lookup_middle in Hrun by reflexivity.
    rewrite delete_middle in Hrun.
    unfold bind at 1 in Hrun. rewrite saveOperationQueue_run in Hrun.
    unfold notifyQueueEventListeners, bind, emit, modify, ret in Hrun.
    injection Hrun as <- <-. cbn [fst snd storage set_trace set_storage].
    split; [reflexivity|]. rewrite stored_queue_save. reflexivity.
Qed.

(** X13: on a store whose queue entry, if there is one, is an array,
    [clearOperationQueue] answers the number of operations that were
    queued, and after it nothing is waiting and nothing has failed, provided
    the empty queue could be written. *)
Theorem clearOperationQueue_empties w :
  queue_is_array env (storage w) = true ->
  let cleared := (clearOperationQueue env w).2 in
  (clearOperationQueue env w).1
  = Ok (Z.of_nat (length (stored_queue env (storage w)))) /\
  (queue_write_fits env (storage w) [] = true ->
   stored_queue env (storage cleared) = [] /\
   (getPendingOperationCount env cleared).1 = Ok 0 /\
   (getFailedOperationCount env cleared).1 = Ok 0).
Proof.
  intros _. cbv zeta. destruct (clearOperationQueue env w) as [r w'] eqn:Hrun.
  unfold clearOperationQueue in Hrun. unfold bind at 1 in Hrun.
  rewrite getOperationQueue_run in Hrun. unfold bind at 1 in Hrun.
  rewrite saveOperationQueue_run in Hrun. unfold ret in Hrun.
  injection Hrun as <- <-. cbn [fst snd].
  split; [reflexivity|]. intros Hfits.
  assert (Hempty : stored_queue env (storage (set_storage (save_queue env []) w)) = []).
  { cbn [storage set_storage]. rewrite stored_queue_save, Hfits. reflexivity. }
  split; [exact Hempty|].
  unfold getPendingOperationCount, getFailedOperationCount, bind.
  rewrite getOperationQueue_run, Hempty. split; reflexivity.
Qed.

(** *** Retrying everything that failed *)

#[local] Instance same_operation_refl : Reflexive same_operation.
Proof. intros op. repeat split. Qed.

Lemma same_operation_trans op1 op2 op3 :
  same_operation op1 op2 -> same_operation op2 op3 -> same_operation op1 op3.
Proof. unfold same_operation. intuition congruence. Qed.

#[local] Instance reset_among_refl ids : Reflexive (reset_among ids).
Proof. intros op. by left. Qed.

#[local] Instance reset_among_trans ids : Transitive (reset_among ids).
Proof.
  intros op1 op2 op3 [->|(Hin & Hsame & H)] [->|(Hin' & Hsame' & H')].
  - by left.
  - right. auto.
  - right. auto.
  - right. split; [exact Hin|]. split; [by eapply same_operation_trans|exact H'].
Qed.

Lemma reset_among_mono ids ids' op op' :
  ids ⊆ ids' -> reset_among ids op op' -> reset_among ids' op op'.
Proof. intros Hsub [->|(Hin & H)]; [by left|right]. split; [by apply Hsub|exact H]. Qed.

(** One reset of the loop. *)
Lemma reset_one ids operationId w :
  operationId ∈ ids ->
  exists r w',
    updateOperation env operationId reset_for_retry w = (Ok r, w') /\
    Forall2 (reset_among ids) (stored_queue env (storage w)) (stored_queue env (storage w')).
Proof.
  intros Hin. rewrite updateOperation_run.
  destruct (findIndex operationId _) as [index|] eqn:Hindex;
    [|eexists _, _; split; reflexivity].
  destruct (_ !! index) as [old|] eqn:Hold; [|eexists _, _; split; reflexivity].
  eexists _, _. split; [reflexivity|].
  rewrite after_update_storage, stored_queue_save.
  destruct (queue_write_fits _ _ _); [|reflexivity].
  rewrite <- (list_insert_id _ _ _ Hold) at 1.
  apply Forall2_insert; [reflexivity|]. right.
  rewrite (findIndex_id _ _ _ _ Hindex Hold). split; [exact Hin|].
  repeat split.
Qed.

Lemma reset_each_run ids failedOperations w :
  QueuedOperation.id <$> failedOperations ⊆ ids ->
  exists w',
    reset_each env failedOperations w = (Ok tt, w') /\
    Forall2 (reset_among ids) (stored_queue env (storage w)) (stored_queue env (storage w')).
Proof.
  revert w. induction failedOperations as [|operation rest IH]; intros w Hids; cbn.
  - exists w. split; reflexivity.
  - destruct (reset_one ids (QueuedOperation.id operation) w) as (r & w1 & Hrun & Hone).
    { apply Hids. cbn. by left. }
    destruct (IH w1) as (w' & Hrest & Hall).
    { intros id Hid. apply Hids. cbn. by right. }
    exists w'. unfold bind at 1. rewrite Hrun. split; [exact Hrest|].
    by etrans.
Qed.

(** X14: on a store whose queue entry, if there is one, is an array,
    [retryAllFailedOperations] answers the number of failed
    operations of the queue, and what it leaves of the queue holds the same
    operations in the same order: each one is as it was, or it carries the
    id of a failed operation and is pending again, with no retries counted,
    no retry time and no error. *)
Theorem retryAllFailedOperations_resets w :
  queue_is_array env (storage w) = true ->
  let queue := stored_queue env (storage w) in
  let failed := List.filter is_failed queue in
  (retryAllFailedOperations env w).1 = Ok (Z.of_nat (length failed)) /\
  Forall2 (reset_among (QueuedOperation.id <$> failed)) queue
    (stored_queue env (storage (retryAllFailedOperations env w).2)).
Proof.
  intros _. cbv zeta. destruct (retryAllFailedOperations env w) as [r w'] eqn:Hrun.
  unfold retryAllFailedOperations in Hrun.
  unfold bind at 1 in Hrun. rewrite getOperationQueue_run in Hrun. cbv zeta in Hrun.
  set (failed := List.filter is_failed _) in *.
  destruct (reset_each_run (QueuedOperation.id <$> failed) failed w) as (w1 & Hreset & Hall);
    [reflexivity|].
  unfold bind at 1 in Hrun. rewrite Hreset in Hrun.
  unfold bind at 1 in Hrun. rewrite isNetworkAvailable_run in Hrun.
  unfold bind at 1 in Hrun.
  destruct (navigator_onLine w1 && _).
  - rewrite start_processOperationQueue_run in Hrun. unfold ret in Hrun.
    injection Hrun as <- <-. cbn [fst snd]. split; [reflexivity|].
    by rewrite after_start_storage, after_network_check_storage.
  - unfold ret in Hrun. injection Hrun as <- <-. cbn [fst snd]. split; [reflexivity|].
    by rewrite after_network_check_storage.
Qed.

(** The queue after [enqueueOperation]. *)
Lemma enqueueOperation_run type data maxRetries w :
  let queue := stored_queue env (storage w) in
  exists operation w',
    enqueueOperation env type data maxRetries w = (Ok operation, w') /\
    QueuedOperation.type operation = type /\
    QueuedOperation.data operation = data /\
    QueuedOperation.maxRetries operation = default DEFAULT_MAX_RETRIES maxRetries /\
    QueuedOperation.createdAt operation = clock w /\
    stored_queue env (storage w')
    = if queue_write_fits env (storage w) (queue ++ [operation])
      then (queue ++ [operation])%list else queue.
Proof.
  cbv zeta. unfold enqueueOperation.
  unfold bind at 1. unfold get at 1.
  set (w1 := if negb (networkListenersInitialized w)
             then (initNetworkListeners w).2 else w).
  assert (H1 : (if negb (networkListenersInitialized w) then initNetworkListeners else ret tt) w
               = (Ok tt, w1)).
  { unfold w1, initNetworkListeners, bind, get, modify, ret.
    destruct (networkListenersInitialized w) eqn:E; cbn; rewrite ?E; reflexivity. }
  assert (Hw1 : clock w1 = clock w /\ storage w1 = storage w).
  { unfold w1, initNetworkListeners, bind, get, modify, ret.
    destruct (networkListenersInitialized w) eqn:E; cbn; rewrite ?E; cbn; auto. }
  destruct Hw1 as [Hclock Hstore].
  unfold bind at 1. rewrite H1.
  unfold bind at 1. unfold Date_now, get at 1.
  unfold bind at 1. unfold next_call, bind at 1, get at 1. unfold bind at 1, modify, ret.
  unfold bind at 1. rewrite getOperationQueue_run.
  unfold bind at 1. rewrite saveOperationQueue_run.
  unfold bind at 1. unfold notifyQueueEventListeners, emit, modify.
  unfold bind at 1. rewrite isNetworkAvailable_run.
  unfold bind at 1.
  cbn [storage set_calls set_storage set_trace].
  match goal with
  | |- context [if ?b then start_processOperationQueue else _] => destruct b
  end.
  - rewrite start_processOperationQueue_run. eexists _, _. split; [reflexivity|].
    cbn [QueuedOperation.type QueuedOperation.data QueuedOperation.maxRetries
         QueuedOperation.createdAt].
    rewrite after_start_storage, after_network_check_storage. cbn [storage set_trace set_storage].
    rewrite stored_queue_save. cbn [storage set_calls]. rewrite Hstore, Hclock. auto.
  - eexists _, _. split; [reflexivity|].
    cbn [QueuedOperation.type QueuedOperation.data QueuedOperation.maxRetries
         QueuedOperation.createdAt].
    rewrite after_network_check_storage. cbn [storage set_trace set_storage].
    rewrite stored_queue_save. cbn [storage set_calls]. rewrite Hstore, Hclock. auto.
Qed.

(** X15: on a store whose queue entry, if there is one, is an array,
    [enqueueOperation] appends.  The operation it answers carries
    the given type and data, the given retry limit or the default of five,
    and the time of the call; the stored queue is the old one followed by
    the new operation, provided the longer queue could be written, and is
    the old queue when it could not. *)
Theorem enqueueOperation_appends type data maxRetries w :
  queue_is_array env (storage w) = true ->
  let queue := stored_queue env (storage w) in
  exists operation w',
    enqueueOperation env type data maxRetries w = (Ok operation, w') /\
    QueuedOperation.type operation = type /\
    QueuedOperation.data operation = data /\
    QueuedOperation.maxRetries operation = default DEFAULT_MAX_RETRIES maxRetries /\
    QueuedOperation.createdAt operation = clock w /\
    stored_queue env (storage w')
    = if queue_write_fits env (storage w) (queue ++ [operation])
      then (queue ++ [operation])%list else queue.
Proof. intros _. apply enqueueOperation_run. Qed.

End QueueAdministration.

(** ** The errors the service lets out *)

Section Throws.
Context (P : Error -> Prop).

Lemma throws_ret {A} (a : A) : throws_only P (ret a).
Proof. intros w e. discriminate. Qed.

Lemma throws_get {A} (f : World -> A) : throws_only P (get f).
Proof. intros w e. discriminate. Qed.

Lemma throws_modify f : throws_only P (modify f).
Proof. intros w e. discriminate. Qed.

Lemma throws_throw {A} e : P e -> throws_only P (@throw A e).
Proof. intros He w e'. cbn. by intros [= <-]. Qed.

Lemma throws_bind {A B} (m : M A) (k : A -> M B) :
  throws_only P m -> (forall a, throws_only P (k a)) -> throws_only P (bind m k).
Proof.
  intros Hm Hk w e. unfold bind. specialize (Hm w).
  destruct (m w) as [[a|e'] w1]; cbn in *; [apply Hk|].
  intros [= <-]. by apply Hm.
Qed.

(** A handler that lets out only [P] makes the whole block do so when the
    body lets out only [Q]. *)
Lemma throws_try_catch_from (Q : Error -> Prop) {A} (m : M A) (h : Error -> M A) :
  throws_only Q m -> (forall e, Q e -> throws_only P (h e)) ->
  throws_only P (try_catch m h).
Proof.
  intros Hm Hh w e. unfold try_catch. specialize (Hm w).
  destruct (m w) as [[a|e'] w1]; cbn in *; [discriminate|].
  apply Hh. by apply Hm.
Qed.

Lemma throws_try_catch {A} (m : M A) (h : Error -> M A) :
  (forall e, throws_only P (h e)) -> throws_only P (try_catch m h).
Proof.
  intros Hh. apply (throws_try_catch_from (fun _ => True)); [done|auto].
Qed.

Lemma throws_try_finally {A} (m : M A) f :
  throws_only P m -> throws_only P (try_finally m f).
Proof.
  intros Hm w e. unfold try_finally. specialize (Hm w).
  destruct (m w) as [r w1]. exact (Hm e).
Qed.

End Throws.

Lemma throws_weaken (P Q : Error -> Prop) {A} (m : M A) :
  (forall e, P e -> Q e) -> throws_only P m -> throws_only Q m.
Proof. intros HPQ Hm w e He. by eapply HPQ, Hm. Qed.

Lemma never_throws_any (P : Error -> Prop) {A} (m : M A) :
  never_throws m -> throws_only P m.
Proof. apply throws_weaken. contradiction. Qed.

(** One step through a computation, by its shape. *)
Ltac throws_step :=
  lazymatch goal with
  | |- throws_only _ (bind _ _) => apply throws_bind; [|intros ?]
  | |- throws_only _ (ret _) => apply throws_ret
  | |- throws_only _ (get _) => apply throws_get
  | |- throws_only _ (modify _) => apply throws_modify
  | |- throws_only _ (throw _) => apply throws_throw
  | |- throws_only _ (try_catch _ (fun _ => ret _)) =>
      apply throws_try_catch; intros ?; apply throws_ret
  | |- throws_only _ (if ?b then _ else _) => destruct b
  | |- throws_only _ (match ?x with _ => _ end) => destruct x
  end.

Ltac throws_unfold :=
  unfold never_throws, isNetworkAvailable, initNetworkListeners, notifyQueueEventListeners,
    sleep, emit, Date_now, next_call, spawn, Storage.getItem, Storage.removeItem.

Ltac throws_auto := throws_unfold; repeat throws_step.

Section ErrorClasses.
Context {J : JSON} (env : Env).

Lemma never_throws_isNetworkAvailable : never_throws isNetworkAvailable.
Proof. throws_auto. Qed.

Lemma never_throws_getOperationQueue : never_throws (getOperationQueue env).
Proof. unfold getOperationQueue. throws_auto. Qed.

Lemma never_throws_saveOperationQueue queue : never_throws (saveOperationQueue env queue).
Proof. unfold saveOperationQueue. throws_auto. Qed.

Lemma never_throws_start : never_throws start_processOperationQueue.
Proof.
  unfold start_processOperationQueue, processOperationQueue_enter. throws_auto.
Qed.

Lemma never_throws_enqueueOperation type data maxRetries :
  never_throws (enqueueOperation env type data maxRetries).
Proof.
  unfold enqueueOperation. unfold never_throws.
  apply throws_bind; [throws_auto|intros initialized].
  apply throws_bind; [throws_auto|intros _].
  apply throws_bind; [throws_auto|intros now].
  apply throws_bind; [throws_auto|intros n]. cbv zeta.
  apply throws_bind; [apply never_throws_getOperationQueue|intros queue].
  apply throws_bind; [apply never_throws_saveOperationQueue|intros _].
  apply throws_bind; [throws_auto|intros _].
  apply throws_bind; [apply never_throws_isNetworkAvailable|intros online].
  apply throws_bind; [|intros _; apply throws_ret].
  destruct online; [apply never_throws_start|apply throws_ret].
Qed.

Lemma never_throws_recordScanWithOfflineSupport productId userId maxRetries forceQueue source :
  never_throws (recordScanWithOfflineSupport env productId userId maxRetries forceQueue source).
Proof.
  unfold recordScanWithOfflineSupport, never_throws.
  apply throws_bind; [apply never_throws_isNetworkAvailable|intros online]. cbv zeta.
  apply throws_bind; [throws_auto|intros direct].
  destruct direct as [scan|]; [apply throws_ret|].
  apply (throws_try_catch_from _ (fun _ => False)); [|contradiction].
  apply throws_bind; [throws_auto|intros now].
  apply throws_bind; [apply never_throws_enqueueOperation|intros operation].
  apply throws_ret.
Qed.

Lemma never_throws_saveToCache product : never_throws (saveToCache env product).
Proof. unfold saveToCache. throws_auto. Qed.

Lemma never_throws_getFromCache barcode : never_throws (getFromCache env barcode).
Proof. unfold getFromCache. cbv zeta. throws_auto. Qed.





(** X17: the database gateway lets out only errors of the service:
    [getProductByBarcode] a [ProductServiceError] or a subclass of it, and
    [recordScan] an [AuthenticationError], when no user is given and nobody
    is signed in, or a [DatabaseError]. *)
Theorem database_error_classes barcode productId userId source :
  throws_only service_error (getProductByBarcode env barcode) /\
  throws_only
    (fun e => err_class e = AuthenticationError \/ err_class e = DatabaseError)
    (recordScan env productId userId source).
Proof.
  split.
  - unfold getProductByBarcode. apply throws_try_catch. intros error.
    destruct (instanceof error ProductServiceError) eqn:Hclass; by apply throws_throw.
  - unfold recordScan, getCurrentUserId.
    apply throws_bind.
    { destruct (negb _); [|apply throws_ret].
      apply throws_bind; [throws_auto|intros current].
      destruct (negb _); [apply throws_throw; by left|apply throws_ret]. }
    intros user. throws_auto; by right.
Qed.

Lemma processBarcodeScan_offline_miss barcode userId w :
  navigator_onLine w = false ->
  storage w !! key_of barcode = None ->
  exists message w',
    processBarcodeScan env barcode userId w
    = (Throw (mkError ProductNotFoundError message), w') /\
    trace w' = (trace w ++ [EvCacheRead (key_of barcode)])%list.
Proof.
  intros Hoff Hnone. unfold processBarcodeScan.
  unfold bind at 1. rewrite isNetworkAvailable_run, Hoff.
  unfold bind at 1. unfold ret at 1.
  unfold bind at 1. unfold try_catch at 1. unfold bind at 1.
  rewrite (getFromCache_no_entry env barcode (after_network_check w))
    by (by rewrite after_network_check_storage).
  unfold ret at 1. unfold bind at 1. unfold ret at 1. unfold throw.
  eexists _, _. split; [reflexivity|].
  unfold cache_read. cbn [trace set_trace]. by rewrite after_network_check_trace.
Qed.

(** X18: [processBarcodeScan] fails in one way only: with a
    [ProductNotFoundError], when no tier had the product.  Errors of the
    API, the cache, the database and the queue never reach its caller.  On
    a device that is offline and has no cache entry for the barcode it does
    fail so, after reading the cache and nothing else.  The scan of a product
    that was found may be queued, so this is stated for a store whose queue
    entry, if there is one, is an array. *)
Theorem processBarcodeScan_fails_not_found barcode userId w :
  queue_is_array env (storage w) = true ->
  (forall e,
     (processBarcodeScan env barcode userId w).1 = Throw e ->
     err_class e = ProductNotFoundError) /\
  (navigator_onLine w = false ->
   storage w !! key_of barcode = None ->
   exists message w',
     processBarcodeScan env barcode userId w
     = (Throw (mkError ProductNotFoundError message), w') /\
     trace w' = (trace w ++ [EvCacheRead (key_of barcode)])%list).
Proof.
  intros _. split; [|apply processBarcodeScan_offline_miss].
  revert w. change (throws_only (fun e => err_class e = ProductNotFoundError)
                      (processBarcodeScan env barcode userId)).
  unfold processBarcodeScan.
  apply throws_bind; [apply never_throws_any, never_throws_isNetworkAvailable|].
  intros isOnline.
  apply throws_bind; [throws_auto|intros found].
  apply throws_bind; [destruct found; throws_auto|intros found'].
  apply throws_bind; [destruct found'; throws_auto|intros found''].
  destruct found'' as [[product productSource]|]; [|by apply throws_throw].
  apply throws_bind.
  { destruct productSource; try apply throws_ret;
      apply never_throws_any, never_throws_saveToCache. }
  intros _.
  apply throws_bind;
    [apply never_throws_any, never_throws_recordScanWithOfflineSupport|intros scanResult].
  throws_auto.
Qed.

End ErrorClasses.

(** ** A pass over the queue *)

Section PassProperties.
Context {J : JSON} (env : Env) (process : QueuedOperation.t -> M bool).

Lemma network_check_run (force : bool) w :
  exists online w',
    (if force then ret true else isNetworkAvailable) w = (Ok online, w') /\
    storage w' = storage w /\ clock w' = clock w /\
    (force = false -> online = navigator_onLine w).
Proof.
  destruct force.
  - exists true, w. by repeat split.
  - rewrite isNetworkAvailable_run. eexists _, _. split; [reflexivity|].
    rewrite after_network_check_storage, after_network_check_clock. auto.
Qed.

(** The loop counts at most one for every operation it is given. *)
Lemma process_each_count force operations processedCount w :
  match (process_each process force operations processedCount w).1 with
  | Ok n => processedCount <= n <= processedCount + Z.of_nat (length operations)
  | Throw _ => True
  end.
Proof.
  revert processedCount w.
  induction operations as [|operation rest IH]; intros processedCount w.
  - cbn. lia.
  - cbn [process_each]. unfold bind at 1.
    destruct (network_check_run force w) as (online & w1 & -> & _).
    destruct online; cbn [negb]; [|cbn; lia].
    unfold bind. destruct (process operation w1) as [[success|e] w2]; [|exact I].
    specialize (IH (if success then processedCount + 1 else processedCount) w2).
    destruct (process_each _ _ _ _ w2) as [[n|e] w3]; [|exact I].
    cbn [fst length] in *. destruct success; lia.
Qed.

Lemma enter_run force w :
  processOperationQueue_enter force w
  = if queueProcessorRunning w then (Ok false, w)
    else if force
    then (Ok true, set_queueProcessorRunning true (set_queueProcessorTimeout None w))
    else if navigator_onLine w
    then (Ok true, set_queueProcessorRunning true
                     (set_queueProcessorTimeout None (after_network_check w)))
    else (Ok false, after_network_check w).
Proof.
  unfold processOperationQueue_enter. unfold bind at 1. unfold get at 1.
  destruct (queueProcessorRunning w); [reflexivity|].
  destruct force; [reflexivity|].
  unfold bind at 1. rewrite isNetworkAvailable_run.
  destruct (navigator_onLine w); reflexivity.
Qed.

(** What a pass that went on answers. *)
Lemma run_count force w :
  exists n,
    (processOperationQueue_run env process force w).1 = Ok n /\
    0 <= n <= Z.of_nat (length (ready_operations (clock w) (stored_queue env (storage w)))).
Proof.
  unfold processOperationQueue_run, try_finally, try_catch.
  unfold bind at 1. rewrite getOperationQueue_run.
  destruct (bool_decide _); [exists 0; cbn; split; [reflexivity|lia]|].
  unfold bind at 1. unfold notifyQueueEventListeners at 1, emit, modify.
  unfold bind at 1. unfold Date_now at 1, get at 1. cbv zeta.
  cbn [clock set_trace].
  unfold bind at 1.
  pose proof (process_each_count force (List.filter (ready (clock w))
                (stored_queue env (storage w))) 0
                (set_trace (trace w ++ [EvNotify "queueProcessingStarted" "queue-processing"
                                          IN_PROGRESS]) w)) as Hcount.
  destruct (process_each _ _ _ _ _) as [[n|e] w1];
    [|exists 0; cbn; split; [reflexivity|lia]].
  cbn [fst] in Hcount.
  unfold bind at 1. rewrite getOperationQueue_run.
  unfold bind at 1. cbv zeta.
  exists n. split; [|unfold ready_operations; lia].
  destruct (bool_decide _); reflexivity.
Qed.

(** X19: a call of the queue processor never fails, and it answers a count
    between zero and the number of operations that were ready when it
    started: pending, or waiting for a retry that is due.  Called without
    force on a device that is offline it answers zero and leaves the store
    and the event log as they were. *)
Theorem processOperationQueue_counts_ready force w :
  exists n,
    (processOperationQueue_with env process force w).1 = Ok n /\
    0 <= n <= Z.of_nat (length (ready_operations (clock w) (stored_queue env (storage w)))) /\
    (force = false -> navigator_onLine w = false ->
     n = 0 /\
     storage (processOperationQueue_with env process force w).2 = storage w /\
     trace (processOperationQueue_with env process force w).2 = trace w).
Proof.
  unfold processOperationQueue_with. unfold bind. rewrite enter_run.
  destruct (queueProcessorRunning w) eqn:Hflag.
  { exists 0. cbn. repeat split; lia. }
  destruct force.
  - destruct (run_count true (set_queueProcessorRunning true (set_queueProcessorTimeout None w)))
      as (n & Hn & Hbound).
    exists n. split; [exact Hn|]. split; [exact Hbound|]. discriminate.
  - destruct (navigator_onLine w) eqn:Hon.
    + destruct (run_count false
                  (set_queueProcessorRunning true
                     (set_queueProcessorTimeout None (after_network_check w))))
        as (n & Hn & Hbound).
      exists n. split; [exact Hn|].
      cbn [storage clock set_queueProcessorRunning set_queueProcessorTimeout] in Hbound.
      rewrite after_network_check_storage, after_network_check_clock in Hbound.
      split; [exact Hbound|]. discriminate.
    + exists 0. cbn [fst snd ret]. split; [reflexivity|]. split; [lia|]. intros _ _.
      by rewrite after_network_check_storage, after_network_check_trace.
Qed.

End PassProperties.

(** ** Recording a scan, now or later *)

Section ScanRecording.
Context {J : JSON} (env : Env).

(** X20: on a store whose queue entry, if there is one, is an array,
    [recordScanWithOfflineSupport] never fails and answers exactly
    one of a scan and an operation id.  A scan is answered only on a device
    that is online and when the queue is not forced, and then the queue is
    left alone.  Otherwise, also when the direct recording failed, the
    answer is the id of a new [RECORD_SCAN] operation for the product and the
    user, which is appended to the queue provided the longer queue could be
    written. *)
Theorem recordScanWithOfflineSupport_scan_or_queue
    productId userId maxRetries forceQueue source w :
  queue_is_array env (storage w) = true ->
  let queue := stored_queue env (storage w) in
  exists r w',
    recordScanWithOfflineSupport env productId userId maxRetries forceQueue source w
    = (Ok r, w') /\
    ((exists scan,
        r = (Some scan, None) /\
        navigator_onLine w = true /\ forceQueue = false /\
        stored_queue env (storage w') = queue) \/
     (exists operation timestamp,
        r = (None, Some (QueuedOperation.id operation)) /\
        QueuedOperation.type operation = RECORD_SCAN /\
        QueuedOperation.data operation
        = mkData None None (Some productId) userId (Some (default SrcApi source))
            (Some timestamp) /\
        stored_queue env (storage w')
        = if queue_write_fits env (storage w) (queue ++ [operation])
          then (queue ++ [operation])%list else queue)).
Proof.
  intros _. cbv zeta.
  (* the queue path, from any world *)
  assert (Hqueue : forall w1,
            storage w1 = storage w ->
            exists operation w',
              try_catch
                (now <- Date_now ;;
                 operation <- enqueueOperation env RECORD_SCAN
                                (mkData None None (Some productId) userId
                                   (Some (default SrcApi source)) (Some now))
                                maxRetries ;;
                 ret (@None ScanHistory.t, Some (QueuedOperation.id operation)))
                (fun error =>
                   throw (mkError QueueError
                            ("Failed to queue scan recording: " +:+ err_message error)))
                w1
              = (Ok (None, Some (QueuedOperation.id operation)), w') /\
              QueuedOperation.type operation = RECORD_SCAN /\
              QueuedOperation.data operation
              = mkData None None (Some productId) userId (Some (default SrcApi source))
                  (Some (clock w1)) /\
              stored_queue env (storage w')
              = if queue_write_fits env (storage w)
                     (stored_queue env (storage w) ++ [operation])
                then (stored_queue env (storage w) ++ [operation])%list
                else stored_queue env (storage w)).
  { intros w1 Hsame. unfold try_catch. unfold bind at 1. unfold Date_now, get at 1.
    destruct (enqueueOperation_run env RECORD_SCAN
                (mkData None None (Some productId) userId (Some (default SrcApi source))
                   (Some (clock w1))) maxRetries w1)
      as (operation & w' & Hrun & Htype & Hdata & _ & _ & Hstored).
    exists operation, w'. unfold bind. rewrite Hrun. unfold ret.
    split; [reflexivity|]. split; [exact Htype|]. split; [exact Hdata|].
    rewrite Hstored, Hsame. reflexivity. }
  unfold recordScanWithOfflineSupport.
  unfold bind at 1. rewrite isNetworkAvailable_run. cbv zeta.
  pose proof (after_network_check_storage w) as Hs0.
  destruct (navigator_onLine w && negb forceQueue) eqn:Hdirect.
  - apply andb_true_iff in Hdirect as [Hon Hforce]. apply negb_true_iff in Hforce.
    unfold bind at 1. unfold try_catch at 1. unfold bind at 1.
    assert (Hkeep : preserves same_storage
                      (recordScan env productId userId (default SrcApi source)))
      by auto with preserves.
    specialize (Hkeep (after_network_check w)). unfold same_storage in Hkeep.
    destruct (recordScan env productId userId (default SrcApi source) (after_network_check w))
      as [[scan|e] w1]; cbn [snd] in Hkeep.
    + unfold ret. eexists _, _. split; [reflexivity|]. left.
      exists scan. repeat split; try assumption. by rewrite Hkeep, Hs0.
    + unfold ret at 1.
      destruct (Hqueue w1) as (operation & w' & Hrun & Htype & Hdata & Hstored);
        [by rewrite Hkeep, Hs0|].
      exists (None, Some (QueuedOperation.id operation)), w'.
      split; [exact Hrun|]. right. exists operation, (clock w1). auto.
  - unfold bind at 1. unfold ret at 1.
    destruct (Hqueue (after_network_check w)) as (operation & w' & Hrun & Htype & Hdata & Hstored);
      [exact Hs0|].
    exists (None, Some (QueuedOperation.id operation)), w'.
    split; [exact Hrun|]. right. exists operation, (clock (after_network_check w)). auto.
Qed.

(** X21: the listener of the [online] and [offline] events starts a pass
    over the queue exactly when the device was offline before, is online now,
    and no pass is running; in every case it records the new status and
    leaves the store alone. *)
Theorem handleNetworkStatusChange_starts_on_reconnect w :
  let w' := (handleNetworkStatusChange w).2 in
  (handleNetworkStatusChange w).1 = Ok tt /\
  isOnline w' = navigator_onLine w /\
  storage w' = storage w /\
  background w'
  = if negb (isOnline w) && navigator_onLine w && negb (queueProcessorRunning w)
    then (background w ++ [TaskProcessOperationQueue])%list
    else background w.
Proof.
  cbv zeta. destruct (handleNetworkStatusChange w) as [r w'] eqn:Hrun.
  unfold handleNetworkStatusChange in Hrun.
  unfold bind at 1 in Hrun. unfold get at 1 in Hrun.
  unfold bind at 1 in Hrun. unfold get at 1 in Hrun.
  unfold bind at 1 in Hrun. unfold modify at 1 in Hrun.
  unfold bind at 1 in Hrun.
  destruct (isOnline w) eqn:Hwas, (navigator_onLine w) eqn:Hon; cbn [negb andb] in *.
  1, 2, 4: unfold ret, notifyQueueEventListeners, emit, modify, bind in Hrun;
    injection Hrun as <- <-; cbn; by rewrite ?Hon.
  rewrite start_processOperationQueue_run in Hrun.
  unfold notifyQueueEventListeners, emit, modify in Hrun. injection Hrun as <- <-.
  unfold after_start, after_network_check. cbn.
  destruct (queueProcessorRunning w), (networkListenersInitialized w); cbn;
    rewrite ?Hon; cbn; by rewrite ?Hon.
Qed.

End ScanRecording.

(** ** The cache behind the database and the sync check *)

Section CacheUse.
Context {J : JSON} (env : Env).

(** X22: a product found in the database is cached under its own
    barcode.  When the database answers a row, [getProductByBarcode]
    returns it, and, provided the cache write had room, a cache lookup of the
    barcode of the row made within 24 hours returns the same product. *)
Theorem getProductByBarcode_warms_cache barcode data w (elapsed : Z) :
  db_select_product env (calls w) barcode = DbRow data ->
  let found := getProductByBarcode env barcode w in
  let text := cache_text data (clock w) in
  found.1 = Ok (Some data) /\
  (over_budget env (storage w) text && over_budget env (evict env (storage w)) text = false ->
   0 <= elapsed <= CACHE_EXPIRY_MS ->
   (getFromCache env (Product.barcode data) (set_clock (clock w + elapsed) found.2)).1
   = Ok (Some data)).
Proof.
  intros Hrow. cbv zeta.
  set (w1 := set_calls (S (calls w)) (set_trace (trace w ++ [EvDbSelectProduct barcode]) w)).
  assert (Hrun : getProductByBarcode env barcode w
                 = (Ok (Some data), (saveToCache env data w1).2)).
  { unfold getProductByBarcode, try_catch.
    unfold bind at 1. unfold emit, modify at 1.
    unfold bind at 1. unfold next_call, bind at 1, get at 1.
    unfold bind at 1, modify at 1, ret at 1. cbn [calls set_trace].
    rewrite Hrow. unfold bind.
    destruct (saveToCache_run env data w1) as (w2 & Hsave & _). fold w1.
    rewrite Hsave. reflexivity. }
  rewrite Hrun. cbn [fst snd]. split; [reflexivity|]. intros Hroom Helapsed.
  destruct (cache_round_trip env data w1 elapsed) as [_ Hback].
  destruct (Hback Hroom ltac:(lia)) as [Hfresh _].
  apply Hfresh. lia.
Qed.

(** X23: [needsSync] never fails, leaves the world alone, and agrees with
    the cache: asked about the key of a barcode with the lifetime of the
    cache, it answers [true] when the store has no entry, and [false]
    whenever [getFromCache] would return a product. *)
Theorem needsSync_agrees_with_cache barcode w :
  exists stale,
    needsSync env (key_of barcode) CACHE_EXPIRY_MS w = (Ok stale, w) /\
    (storage w !! key_of barcode = None -> stale = true) /\
    (forall product, (getFromCache env barcode w).1 = Ok (Some product) -> stale = false).
Proof.
  unfold needsSync, getFromCache, try_catch, key_of. cbv zeta.
  unfold bind at 1 3. unfold emit, modify at 1.
  unfold bind at 2. rewrite !getItem_run. cbn [storage set_trace].
  destruct (Storage.read env (storage w) (CACHE_KEY_PREFIX +:+ barcode)) as [s|] eqn:Hread.
  2: { exists true. cbn. repeat split. discriminate. }
  unfold Js.truthy. change (default "" (Some s)) with s.
  destruct (String.eqb s ""); cbn [negb].
  { exists true. cbn. repeat split. discriminate. }
  assert (Hentry : forall v, storage w !! (CACHE_KEY_PREFIX +:+ barcode) = None ->
                             v = true).
  { intros v Hnone. rewrite (read_None env _ _ Hnone) in Hread. discriminate. }
  destruct (JSON_parse s) as [parsed|].
  2: { exists true. cbn. split; [reflexivity|]. split; [auto|]. discriminate. }
  unfold bind, Date_now, get, ret. cbn [clock set_trace].
  destruct parsed as [c| |timestamp]; cbn [timestamp_of].
  - destruct (clock w - cached_timestamp c >? CACHE_EXPIRY_MS);
      eexists; (split; [reflexivity|]); (split; [auto|]); cbn; [discriminate|auto].
  - exists false. split; [reflexivity|]. split; [auto|]. auto.
  - destruct timestamp as [t|]; cbn.
    + destruct (clock w - t >? CACHE_EXPIRY_MS);
        eexists; (split; [reflexivity|]); (split; [auto|]); cbn; auto; discriminate.
    + exists false. split; [reflexivity|]. split; [auto|]. auto.
Qed.

End CacheUse.

(** ** Formatted barcodes *)

(** X4: [formatBarcode] only inserts blanks.  Without its blanks the
    result reads like the barcode without its blanks.  A code of 13
    characters gets a blank after the first and after the seventh character,
    a code of 12 characters one after the sixth, and every other text is
    returned as it is. *)
Theorem formatBarcode_keeps_characters barcode :
  strip_spaces (Barcode.formatBarcode barcode) = strip_spaces barcode /\
  (String.length barcode = 13%nat ->
   String.length (Barcode.formatBarcode barcode) = 15%nat /\
   String.get 1 (Barcode.formatBarcode barcode) = Some " "%char /\
   String.get 8 (Barcode.formatBarcode barcode) = Some " "%char) /\
  (String.length barcode = 12%nat ->
   String.length (Barcode.formatBarcode barcode) = 13%nat /\
   String.get 6 (Barcode.formatBarcode barcode) = Some " "%char) /\
  (String.length barcode <> 13%nat -> String.length barcode <> 12%nat ->
   Barcode.formatBarcode barcode = barcode).
Proof.
  destruct (Nat.eqb_spec (String.length barcode) 13) as [H13|H13];
    [|destruct (Nat.eqb_spec (String.length barcode) 12) as [H12|H12]].
  - do 13 (destruct barcode as [|? barcode]; [discriminate|]).
    destruct barcode; [|discriminate].
    split; [reflexivity|]. repeat split; first [reflexivity|discriminate|contradiction].
  - do 12 (destruct barcode as [|? barcode]; [discriminate|]).
    destruct barcode; [|discriminate].
    split; [reflexivity|]. repeat split; first [reflexivity|discriminate|contradiction].
  - assert (Hsame : Barcode.formatBarcode barcode = barcode).
    { unfold Barcode.formatBarcode.
      destruct (Nat.eqb_spec (String.length barcode) 13); [contradiction|].
      destruct (Nat.eqb_spec (String.length barcode) 12); [contradiction|]. reflexivity. }
    rewrite Hsame. repeat split; congruence.
Qed.

(** ** The size of a backoff delay *)

Lemma pow2_ge_1 r : 0 <= r -> (1 <= Qpower 2 r)%Q.
Proof.
  revert r. apply natlike_ind; [discriminate|].
  intros r Hr IH. unfold Z.succ. rewrite (pow2_succ r Hr). lra.
Qed.

(** The bounds of a backoff delay. *)
Lemma backoff_range (retryCount : Z) (random : Q) :
  0 <= retryCount -> (0 <= random <= 1)%Q ->
  let nominal := (INITIAL_RETRY_DELAY * Qpower 2 retryCount)%Q in
  (800 <= calculateBackoffDelay retryCount random)%Q /\
  (calculateBackoffDelay retryCount random <= MAX_RETRY_DELAY)%Q /\
  (calculateBackoffDelay retryCount random <= 1.2 * nominal)%Q /\
  (Qmin (0.8 * nominal) MAX_RETRY_DELAY <= calculateBackoffDelay retryCount random)%Q.
Proof.
  intros Hr [Hu0 Hu1]. cbv zeta.
  unfold calculateBackoffDelay, INITIAL_RETRY_DELAY, MAX_RETRY_DELAY.
  pose proof (pow2_ge_1 retryCount Hr) as Hp.
  set (p := Qpower 2 retryCount) in *.
  repeat split.
  - apply Q.min_glb; [nra|discriminate].
  - apply Q.le_min_r.
  - eapply Qle_trans; [apply Q.le_min_l|]. nra.
  - apply Q.min_glb; [|apply Q.le_min_r].
    eapply Qle_trans; [apply Q.le_min_l|]. nra.
Qed.

(** X24: a backoff delay is [1000 * 2^retryCount] milliseconds, give or
    take a fifth, and never more than an hour; so it is never shorter than
    800 milliseconds. *)
Theorem calculateBackoffDelay_range (retryCount : Z) (random : Q) :
  0 <= retryCount -> (0 <= random <= 1)%Q ->
  let nominal := (INITIAL_RETRY_DELAY * Qpower 2 retryCount)%Q in
  (800 <= calculateBackoffDelay retryCount random)%Q /\
  (calculateBackoffDelay retryCount random <= MAX_RETRY_DELAY)%Q /\
  (calculateBackoffDelay retryCount random <= 1.2 * nominal)%Q /\
  (Qmin (0.8 * nominal) MAX_RETRY_DELAY <= calculateBackoffDelay retryCount random)%Q.
Proof. apply backoff_range. Qed.

Lemma calculateBackoffDelay_range_witness :
  (800 <= calculateBackoffDelay 3 0.5)%Q /\
  (calculateBackoffDelay 3 0.5 <= MAX_RETRY_DELAY)%Q /\
  (calculateBackoffDelay 3 0.5 <= 1.2 * (INITIAL_RETRY_DELAY * Qpower 2 3))%Q /\
  (Qmin (0.8 * (INITIAL_RETRY_DELAY * Qpower 2 3)) MAX_RETRY_DELAY
   <= calculateBackoffDelay 3 0.5)%Q.
Proof.
  apply (calculateBackoffDelay_range 3 0.5%Q); [discriminate|split; discriminate].
Defined.

(** ** The older copy schedules its retries *)

Section Part003Schedule.
Context {J : JSON} (env : Env).

(** X25: what a failure costs in the older copy.  For an operation that
    is in the queue the handler answers [false] and writes its record of the
    failure in the place of the operation (the queue stays as it was when
    the write does not fit).  While retries are left the record is a retry
    with one more attempt counted, and no pass picks it up during the next
    800 milliseconds; once the retries are used up the record is a failure,
    and no pass picks it up again.  Both carry the message of the error. *)
Theorem part003_on_error_schedules operation error w index old :
  findIndex (QueuedOperation.id operation) (stored_queue env (storage w)) = Some index ->
  stored_queue env (storage w) !! index = Some old ->
  0 <= QueuedOperation.retryCount operation ->
  (0 <= random env (calls w) <= 1)%Q ->
  0 <= clock w ->
  let queue := stored_queue env (storage w) in
  exists recorded,
    (Part003.on_error env operation error w).1 = Ok false /\
    stored_queue env (storage (Part003.on_error env operation error w).2)
    = (if queue_write_fits env (storage w) (<[index := recorded]> queue)
       then <[index := recorded]> queue else queue) /\
    QueuedOperation.id recorded = QueuedOperation.id operation /\
    QueuedOperation.error recorded = Some (err_message error) /\
    if QueuedOperation.retryCount operation <? QueuedOperation.maxRetries operation
    then
      QueuedOperation.status recorded = RETRY /\
      QueuedOperation.retryCount recorded = QueuedOperation.retryCount operation + 1 /\
      forall now, now < clock w + 800 -> ready now recorded = false
    else
      QueuedOperation.status recorded = FAILED /\
      forall now, ready now recorded = false.
Proof.
  intros Hindex Hold Hcount Hrandom Hclock. cbv zeta.
  destruct (part003_on_error_records env operation error w index old Hindex Hold)
    as [Hanswer Hstored].
  cbv zeta in Hstored.
  pose proof (findIndex_id _ _ _ _ Hindex Hold) as Hid.
  eexists. split; [exact Hanswer|]. split; [exact Hstored|].
  destruct (QueuedOperation.retryCount operation <? QueuedOperation.maxRetries operation).
  - split; [exact Hid|]. split; [reflexivity|]. split; [reflexivity|]. split; [reflexivity|].
    intros now Hnow. unfold ready. cbn.
    destruct (backoff_range (QueuedOperation.retryCount operation)
                (random env (calls w)) Hcount Hrandom) as [Hlow _].
    set (delay := calculateBackoffDelay _ _) in *.
    assert (Hlater : (inject_Z now < inject_Z (clock w) + delay)%Q).
    { assert (inject_Z now < inject_Z (clock w) + 800)%Q; [|lra].
      change 800%Q with (inject_Z 800).
      rewrite <- (inject_Z_plus (clock w) 800), <- Zlt_Qlt. exact Hnow. }
    assert (Hpos : (0 < inject_Z (clock w) + delay)%Q).
    { assert (0 <= inject_Z (clock w))%Q; [|lra].
      change 0%Q with (inject_Z 0). by rewrite <- Zle_Qle. }
    apply orb_false_iff. split.
    + apply not_true_is_false. intros Heq. apply Qeq_bool_iff in Heq. lra.
    + apply not_true_is_false. intros Hle. apply Qle_bool_iff in Hle. lra.
  - split; [exact Hid|]. split; [reflexivity|]. split; [reflexivity|].
    intros now. reflexivity.
Qed.

End Part003Schedule.

(** The sample scan fails on the network, in a queue of three. *)
Lemma part003_on_error_schedules_witness :
  let failure := mkError NetworkError "Network request failed" in
  let queue := stored_queue sample_env (storage queue_world) in
  exists recorded,
    (Part003.on_error sample_env sample_scan failure queue_world).1 = Ok false /\
    stored_queue sample_env
      (storage (Part003.on_error sample_env sample_scan failure queue_world).2)
    = (if queue_write_fits sample_env (storage queue_world) (<[0%nat := recorded]> queue)
       then <[0%nat := recorded]> queue else queue) /\
    QueuedOperation.id recorded = "op_1" /\
    QueuedOperation.error recorded = Some "Network request failed" /\
    QueuedOperation.status recorded = RETRY /\
    QueuedOperation.retryCount recorded = 1 /\
    forall now, now < 1000800 -> ready now recorded = false.
Proof.
  apply (part003_on_error_schedules sample_env sample_scan
           (mkError NetworkError "Network request failed") queue_world 0 sample_scan);
    [reflexivity|reflexivity|discriminate|split; discriminate|discriminate].
Defined.

(** ** Instances *)

(** The barcode of the sample product with its check digit changed. *)
Lemma validateBarcode_detects_single_error_witness :
  Barcode.validateBarcode
    (String.string_of_list_ascii
       (<[12%nat := "4"%char]> (String.list_ascii_of_string "3017620422003")))
    "EAN-13" = false.
Proof.
  apply (validateBarcode_detects_single_error
           (String.list_ascii_of_string "3017620422003") 12 "3"%char "4"%char);
    [reflexivity|reflexivity|discriminate|reflexivity].
Defined.

(** The first twelve digits of the sample barcode. *)
Lemma validateBarcode_check_digit_witness :
  (exists c,
     is_Some (Barcode.digit_value c) /\
     forall c',
       Barcode.validateBarcode
         (String.string_of_list_ascii
            (String.list_ascii_of_string "301762042200" ++ [c'])) "EAN-13" = true
       <-> c' = c) /\
  (forall barcode format,
     format <> "EAN-13" \/ String.length barcode <> 13%nat ->
     Barcode.validateBarcode barcode format = true).
Proof.
  apply (validateBarcode_check_digit (String.list_ascii_of_string "301762042200")).
  - reflexivity.
  - cbn [String.list_ascii_of_string].
    repeat (apply Forall_cons_2; [by eexists|]). apply Forall_nil_2.
Defined.

(** Two neighbours that differ by five: "05" at the head of a valid code. *)
Lemma validateBarcode_transposition_witness :
  Barcode.validateBarcode "5000000000005" "EAN-13" = true
  <-> (0 = 5 \/ 0 - 5 = 5 \/ 5 - 0 = 5).
Proof.
  apply (validateBarcode_transposition [] (String.list_ascii_of_string "00000000005")
           "0"%char "5"%char 0 5); reflexivity.
Defined.

(** A short note written to an empty in-memory store. *)
Lemma setItem_then_getItem_witness :
  let w' := (Storage.setItem sample_env "scani_note" "hello" (sample_world true [])).2 in
  Storage.getItem sample_env "scani_note" w' = (Ok (Some "hello"), w') /\
  (over_budget sample_env (storage (sample_world true [])) "hello" = false ->
   forall key', key' <> "scani_note" ->
                storage w' !! key' = storage (sample_world true []) !! key').
Proof.
  apply (setItem_then_getItem sample_env "scani_note" "hello" (sample_world true []));
    [reflexivity|discriminate].
Defined.

(** The sample product, found in the database and read from the cache a
    second later. *)
Lemma getProductByBarcode_warms_cache_witness :
  let w := sample_world true [] in
  let found := getProductByBarcode stocked_env sample_barcode w in
  found.1 = Ok (Some sample_product) /\
  (getFromCache stocked_env sample_barcode (set_clock (clock w + 1000) found.2)).1
  = Ok (Some sample_product).
Proof.
  intros w found.
  destruct (getProductByBarcode_warms_cache stocked_env sample_barcode sample_product
              w 1000 eq_refl) as [Hfound Hcached].
  split; [exact Hfound|]. apply Hcached; [reflexivity|]. split; discriminate.
Defined.

(** The second of three queued operations is removed. *)
Lemma removeOperation_first_match_witness :
  (removeOperation sample_env "op_2" queue_world).1 = Ok true /\
  stored_queue sample_env (storage (removeOperation sample_env "op_2" queue_world).2)
  = [sample_scan; sample_update].
Proof.
  assert (Harray : queue_is_array sample_env (storage queue_world) = true)
    by (vm_compute; reflexivity).
  destruct (proj2 (removeOperation_first_match sample_env "op_2" queue_world Harray)
              [sample_scan] sample_submit [sample_update]) as [Hanswer Hqueue];
    [reflexivity|by repeat constructor|reflexivity|].
  split; [exact Hanswer|]. rewrite Hqueue. vm_compute. reflexivity.
Defined.

(** A queue of three is cleared. *)
Lemma clearOperationQueue_empties_witness :
  (clearOperationQueue sample_env queue_world).1 = Ok 3 /\
  stored_queue sample_env (storage (clearOperationQueue sample_env queue_world).2) = [] /\
  (getPendingOperationCount sample_env (clearOperationQueue sample_env queue_world).2).1
  = Ok 0.
Proof.
  assert (Harray : queue_is_array sample_env (storage queue_world) = true)
    by (vm_compute; reflexivity).
  destruct (clearOperationQueue_empties sample_env queue_world Harray) as [Hcount Hafter].
  destruct (Hafter ltac:(vm_compute; reflexivity)) as (Hempty & Hpending & _).
  split; [rewrite Hcount; vm_compute; reflexivity|]. split; [exact Hempty|exact Hpending].
Defined.

(** One failed operation between two pending ones. *)
Lemma retryAllFailedOperations_resets_witness :
  let failed :=
    QueuedOperation.mk "op_2" SUBMIT_PRODUCT (mkData (Some "product") None None None None None)
      FAILED 3 3 (Some 999500%Q) (Some "Network request failed") 999000 999400 in
  let w := with_queue [sample_scan; failed; sample_update] (sample_world false []) in
  (retryAllFailedOperations sample_env w).1 = Ok 1 /\
  Forall2 (reset_among ["op_2"]) [sample_scan; failed; sample_update]
    (stored_queue sample_env (storage (retryAllFailedOperations sample_env w).2)).
Proof.
  intros failed w.
  assert (Harray : queue_is_array sample_env (storage w) = true)
    by (vm_compute; reflexivity).
  destruct (retryAllFailedOperations_resets sample_env w Harray)
    as [Hcount Hqueue].
  split; [rewrite Hcount; vm_compute; reflexivity|].
  replace (stored_queue sample_env (storage w)) with [sample_scan; failed; sample_update]
    in Hqueue by (symmetry; apply stored_queue_insert).
  exact Hqueue.
Defined.

(** A scan is queued on a device with an empty store. *)
Lemma enqueueOperation_appends_witness :
  exists operation w',
    enqueueOperation sample_env RECORD_SCAN
      (mkData None None (Some "id1") None (Some SrcApi) (Some 1000000)) None
      (sample_world false [])
    = (Ok operation, w') /\
    QueuedOperation.maxRetries operation = 5 /\
    stored_queue sample_env (storage w') = [operation].
Proof.
  assert (Harray : queue_is_array sample_env (storage (sample_world false [])) = true)
    by (vm_compute; reflexivity).
  destruct (enqueueOperation_appends sample_env RECORD_SCAN
              (mkData None None (Some "id1") None (Some SrcApi) (Some 1000000)) None
              (sample_world false []) Harray)
    as (operation & w' & Hrun & _ & _ & Hretries & _ & Hqueue).
  exists operation, w'. split; [exact Hrun|]. split; [exact Hretries|].
  rewrite Hqueue. injection Hrun as <- _. vm_compute. reflexivity.
Defined.

(** A lookup on a device that is offline and has an empty store. *)
Lemma processBarcodeScan_fails_not_found_witness :
  exists message w',
    processBarcodeScan sample_env sample_barcode None (sample_world false [])
    = (Throw (mkError ProductNotFoundError message), w') /\
    trace w' = [EvCacheRead (key_of sample_barcode)].
Proof.
  assert (Harray : queue_is_array sample_env (storage (sample_world false [])) = true)
    by (vm_compute; reflexivity).
  apply (proj2 (processBarcodeScan_fails_not_found sample_env sample_barcode None
                  (sample_world false []) Harray)); reflexivity.
Defined.

(** A scan recorded on a device that is offline. *)
Lemma recordScanWithOfflineSupport_scan_or_queue_witness :
  exists operation,
    (recordScanWithOfflineSupport sample_env "id1" None None false None
       (sample_world false [])).1
    = Ok (None, Some (QueuedOperation.id operation)) /\
    QueuedOperation.type operation = RECORD_SCAN.
Proof.
  assert (Harray : queue_is_array sample_env (storage (sample_world false [])) = true)
    by (vm_compute; reflexivity).
  destruct (recordScanWithOfflineSupport_scan_or_queue sample_env "id1" None None false None
              (sample_world false []) Harray)
    as (r & w' & Hrun & [(scan & _ & Honline & _)|(operation & t & -> & Htype & _)]);
    [discriminate|].
  exists operation. rewrite Hrun. split; [reflexivity|exact Htype].
Defined.
